(** * PolyPress-3D: the viewer's load, statistics, framing, animation and
      export logic ([src/components/ThreeViewer.tsx]) as Rocq definitions,
      with the properties of the specification stated over them.

    Conventions of the embedding.
    - A scene-graph node is a value of [Object3D]; the identity of a
      material or a texture is its [uuid], a natural number drawn from an
      allocation counter (three.js draws a random UUID for every object it
      constructs; a counter that never repeats stands for it).
    - JavaScript numbers that hold counts are [nat]; the triangle
      accumulator, which receives [count / 3], is a rational ([Q]);
      lengths and angles of the camera code are real numbers ([R]).
    - Calls into three.js are given by what the library documents for them
      ([traverse] is a pre-order walk, [clone] copies nodes and shares
      geometries and materials, ...).  Parsers, [fetch] and the GLTF
      exporter are collaborators passed as arguments. *)

From Stdlib Require Import ZArith QArith Qround Reals Lra Lia Ascii String.
From Stdlib Require PrimFloat.
From stdpp Require Import gmap strings list pretty.

Set Warnings "-register-all,-clear-no-such-hyp".

Set Default Proof Using "Type".

(* ===================================================================== *)
(** * Scene data model *)
(* ===================================================================== *)

(** What the viewer can find in a texture slot of a material: a texture,
    or the function [Array.prototype.map]. The latter gets there through
    the material replacement, which reads [oldMat.map] also when
    [mesh.material] is an array: the [map] property of an array is its
    [map] method, which is truthy and has no [uuid]. *)
Inductive Texture :=
| mkTexture (uuid : nat)
| Array_prototype_map.

(** [t.uuid]; [None] is [undefined]. *)
Definition tex_uuid (t : Texture) : option nat :=
  match t with
  | mkTexture uuid => Some uuid
  | Array_prototype_map => None
  end.

Inductive material_type :=
| MeshStandardMaterial
| PointsMaterial
| OtherMaterial.

(** The fields of a three.js material that the viewer reads or writes. *)
Record Material := mkMaterial {
  mat_uuid : nat;
  mat_type : material_type;
  mat_color : option Z;
  mat_map : option Texture;
  mat_normalMap : option Texture;
  mat_roughnessMap : option Texture;
  mat_metalnessMap : option Texture;
  mat_emissiveMap : option Texture;
  mat_roughness : Q;
  mat_metalness : Q;
  mat_wireframe : bool;
  mat_size : Q;
  mat_vertexColors : bool;
  mat_sizeAttenuation : bool
}.

(** [geometry.attributes.position.count] when the attribute exists,
    [geometry.index.count] when an index buffer exists, and
    [geometry.hasAttribute('color')]. *)
Record BufferGeometry := mkGeometry {
  position : option nat;
  index : option nat;
  has_color : bool
}.

Inductive material_slot :=
| NoMaterial
| OneMaterial (m : Material)
| MaterialArray (ms : list Material).

(** Nodes for which [isMesh] or [isPoints] holds carry a geometry and a
    material slot. [SkinnedMesh] has both [isMesh] and [isSkinnedMesh]. *)
Inductive renderable_kind := Mesh | SkinnedMesh | Points.

Record Renderable := mkRenderable {
  r_kind : renderable_kind;
  r_geometry : BufferGeometry;
  r_material : material_slot
}.

(** [render = None] is any node on which both [isMesh] and [isPoints] are
    falsy (groups, bones, lights, lines, ...). *)
Inductive Object3D :=
| Obj (render : option Renderable) (isBone : bool) (frustumCulled : bool)
      (children : list Object3D).

Record AnimationClip := mkClip { clip_uuid : nat; clip_name : string }.

Definition isMesh (k : renderable_kind) : bool :=
  match k with Mesh | SkinnedMesh => true | Points => false end.

Definition isSkinnedMesh (k : renderable_kind) : bool :=
  match k with SkinnedMesh => true | _ => false end.

Definition isPoints (k : renderable_kind) : bool :=
  match k with Points => true | _ => false end.

(** JavaScript truthiness of [mesh.material]: an object or an array (also
    the empty array) is truthy, [null]/[undefined] is not. *)
Definition material_truthy (s : material_slot) : bool :=
  match s with NoMaterial => false | _ => true end.

(** [Array.isArray(m) ? m : [m]], for a truthy slot. *)
Definition material_list (s : material_slot) : list Material :=
  match s with
  | NoMaterial => []
  | OneMaterial m => [m]
  | MaterialArray ms => ms
  end.

(** [oldMat.color] and [oldMat.map] read on whatever sits in the slot
    (the replacement reads them only on a truthy slot). An array has no
    [color] property; its [map] property is [Array.prototype.map]. *)
Definition slot_color (s : material_slot) : option Z :=
  match s with OneMaterial m => mat_color m | _ => None end.

Definition slot_map (s : material_slot) : option Texture :=
  match s with
  | NoMaterial => None
  | OneMaterial m => mat_map m
  | MaterialArray _ => Some Array_prototype_map
  end.

(** ** Material constructors

    [new THREE.MeshStandardMaterial(params)] and
    [new THREE.PointsMaterial(params)]: every construction takes a new
    identity [u]; fields not given keep the library's defaults. *)
Definition new_MeshStandardMaterial (u : nat) (color : Z)
    (map : option Texture) (rough metal : Q) : Material :=
  {| mat_uuid := u; mat_type := MeshStandardMaterial;
     mat_color := Some color; mat_map := map;
     mat_normalMap := None; mat_roughnessMap := None;
     mat_metalnessMap := None; mat_emissiveMap := None;
     mat_roughness := rough; mat_metalness := metal;
     mat_wireframe := false; mat_size := 1;
     mat_vertexColors := false; mat_sizeAttenuation := true |}.

Definition new_PointsMaterial (u : nat) (size : Q) (vertexColors : bool)
  : Material :=
  {| mat_uuid := u; mat_type := PointsMaterial;
     mat_color := Some 16777215%Z; mat_map := None;
     mat_normalMap := None; mat_roughnessMap := None;
     mat_metalnessMap := None; mat_emissiveMap := None;
     mat_roughness := 1; mat_metalness := 0;
     mat_wireframe := false; mat_size := size;
     mat_vertexColors := vertexColors; mat_sizeAttenuation := true |}.

(* ===================================================================== *)
(** * Strings: extensions and their case *)
(* ===================================================================== *)

(** The strings of this development are strings of ASCII characters, and
    [toLowerCase] / [toUpperCase] are JavaScript's on these. A byte above
    127 stands for no character and is left as it is; on a name with a
    letter outside ASCII, JavaScript changes the case of that letter as
    well. The extensions that the viewer knows are ASCII. *)
Definition ascii_lower (c : ascii) : ascii :=
  let n := nat_of_ascii c in
  if (65 <=? n)%nat && (n <=? 90)%nat then ascii_of_nat (n + 32) else c.

Definition ascii_upper (c : ascii) : ascii :=
  let n := nat_of_ascii c in
  if (97 <=? n)%nat && (n <=? 122)%nat then ascii_of_nat (n - 32) else c.

Fixpoint map_string (f : ascii -> ascii) (s : string) : string :=
  match s with
  | EmptyString => EmptyString
  | String c r => String (f c) (map_string f r)
  end.

Definition toLowerCase : string -> string := map_string ascii_lower.
Definition toUpperCase : string -> string := map_string ascii_upper.

Definition str_eqb (a b : string) : bool := bool_decide (a = b).

(** [ext === 'glb' || ext === 'gltf'] *)
Definition is_interchange (ext : string) : bool :=
  str_eqb ext "glb" || str_eqb ext "gltf".

(* ===================================================================== *)
(** * processResult: normalisation *)
(* ===================================================================== *)

(** What a format parser hands to [processResult]. *)
Inductive parse_result :=
| GLTFResult (scene : Object3D) (animations : list AnimationClip)
| ObjectResult (o : Object3D)
| GeometryResult (g : BufferGeometry).

(** [!geometry.index || geometry.index.count === 0] *)
Definition index_missing_or_empty (g : BufferGeometry) : bool :=
  match index g with
  | None => true
  | Some c => (c =? 0)%nat
  end.

(** [ext === 'xyz' || (ext === 'ply' && (...))] *)
Definition isPointCloud (ext : string) (g : BufferGeometry) : bool :=
  str_eqb ext "xyz" || (str_eqb ext "ply" && index_missing_or_empty g).

Definition leaf (r : Renderable) : Object3D := Obj (Some r) false true [].

(** The first part of [processResult]: from the parser's result to the
    object and its clip list. [next] is the allocation counter for the
    identities of the materials built here. [None] stands for a result
    that does not have the shape the branch reads (a [TypeError] in the
    source); the loader of the matching format never produces one. In the
    xyz/ply branch the line [if (result.scene) geometry = result.scene]
    does nothing on a geometry, which has no [scene] property. *)
Definition normalize (ext : string) (pointSize : Q) (result : parse_result)
    (next : nat) : option (Object3D * list AnimationClip * nat) :=
  if is_interchange ext then
    match result with
    | GLTFResult scene animations => Some (scene, animations, next)
    | _ => None
    end
  else if str_eqb ext "obj" then
    match result with
    | ObjectResult o => Some (o, [], next)
    | _ => None
    end
  else if str_eqb ext "pcd" then
    match result with
    | ObjectResult (Obj (Some r) b f cs) =>
        if material_truthy (r_material r) then
          let m := new_PointsMaterial next pointSize
                     (has_color (r_geometry r)) in
          Some (Obj (Some {| r_kind := r_kind r;
                             r_geometry := r_geometry r;
                             r_material := OneMaterial m |}) b f cs,
                [], S next)
        else Some (Obj (Some r) b f cs, [], next)
    | ObjectResult o => Some (o, [], next)
    | _ => None
    end
  else if str_eqb ext "xyz" || str_eqb ext "ply" then
    match result with
    | GeometryResult geometry =>
        if isPointCloud ext geometry then
          let material := new_PointsMaterial next pointSize
                            (has_color geometry) in
          Some (leaf {| r_kind := Points; r_geometry := geometry;
                        r_material := OneMaterial material |},
                [], S next)
        else
          let material :=
            new_MeshStandardMaterial next 8421504%Z None (1 # 2) (1 # 2) in
          Some (leaf {| r_kind := Mesh; r_geometry := geometry;
                        r_material := OneMaterial material |},
                [], S next)
    | _ => None
    end
  else
    match result with
    | GeometryResult g =>
        let material :=
          new_MeshStandardMaterial next 16777215%Z None 1 0 in
        Some (leaf {| r_kind := Mesh; r_geometry := g;
                      r_material := OneMaterial material |},
              [], S next)
    | _ => None
    end.

(* ===================================================================== *)
(** * processResult: the statistics traversal *)
(* ===================================================================== *)

(** The local variables of [processResult] that the traversal callback
    updates, together with the allocation counter of material identities. *)
Record stats := mkStats {
  vertices : nat;
  triangles : Q;
  meshes : nat;
  materialsCount : gset nat;
  texturesCount : gset (option nat);
  next_uuid : nat
}.

Definition stats0 (next : nat) : stats :=
  {| vertices := 0; triangles := 0; meshes := 0;
     materialsCount := ∅; texturesCount := ∅; next_uuid := next |}.

(** [if (mat[key]) texturesCount.add(mat[key].uuid)]: the set holds the
    values of [uuid], and [undefined] is one of them. *)
Definition add_texture (t : option Texture) (s : gset (option nat))
  : gset (option nat) :=
  match t with
  | Some tx => {[ tex_uuid tx ]} ∪ s
  | None => s
  end.

(** The five slots, in the order of the source's array. *)
Definition add_textures (m : Material) (s : gset (option nat))
  : gset (option nat) :=
  add_texture (mat_emissiveMap m)
    (add_texture (mat_metalnessMap m)
      (add_texture (mat_roughnessMap m)
        (add_texture (mat_normalMap m)
          (add_texture (mat_map m) s)))).

(** One turn of [mats.forEach]. *)
Definition count_material (st : stats) (m : Material) : stats :=
  {| vertices := vertices st; triangles := triangles st;
     meshes := meshes st;
     materialsCount := {[ mat_uuid m ]} ∪ materialsCount st;
     texturesCount := add_textures m (texturesCount st);
     next_uuid := next_uuid st |}.

(** [geom.attributes.position] present: vertices and, on meshes,
    triangles. *)
Definition count_geometry (k : renderable_kind) (g : BufferGeometry)
    (st : stats) : stats :=
  match position g with
  | Some count =>
      {| vertices := vertices st + count;
         triangles :=
           if isMesh k then (triangles st + (Z.of_nat count # 3))%Q
           else triangles st;
         meshes := meshes st;
         materialsCount := materialsCount st;
         texturesCount := texturesCount st;
         next_uuid := next_uuid st |}
  | None => st
  end.

(** The material substitution on non-interchange formats: a mesh whose
    material slot is truthy gets a new standard material built from the
    old colour and texture. *)
Definition replace_material (ext : string) (r : Renderable) (st : stats)
  : Renderable * stats :=
  if negb (is_interchange ext) && isMesh (r_kind r)
     && material_truthy (r_material r)
  then
    let oldMat := r_material r in
    let m := new_MeshStandardMaterial (next_uuid st)
               (default 13421772%Z (slot_color oldMat))
               (slot_map oldMat) (6 # 10) (2 # 10) in
    ({| r_kind := r_kind r; r_geometry := r_geometry r;
        r_material := OneMaterial m |},
     {| vertices := vertices st; triangles := triangles st;
        meshes := meshes st; materialsCount := materialsCount st;
        texturesCount := texturesCount st;
        next_uuid := S (next_uuid st) |})
  else (r, st).

(** The callback of [object.traverse], on a node with [isMesh] or
    [isPoints]; the assignment to [frustumCulled] is in [visit]. *)
Definition visit_renderable (ext : string) (r : Renderable) (st : stats)
  : Renderable * stats :=
  let st1 :=
    {| vertices := vertices st; triangles := triangles st;
       meshes := S (meshes st); materialsCount := materialsCount st;
       texturesCount := texturesCount st;
       next_uuid := next_uuid st |} in
  let st2 := count_geometry (r_kind r) (r_geometry r) st1 in
  let '(r', st3) := replace_material ext r st2 in
  (r', foldl count_material st3 (material_list (r_material r'))).

(** The callback of [object.traverse], on one node. *)
Definition visit (ext : string) (render : option Renderable)
    (frustumCulled : bool) (st : stats)
  : option Renderable * bool * stats :=
  match render with
  | None => (None, frustumCulled, st)
  | Some r =>
      let fc := if isSkinnedMesh (r_kind r) then false else frustumCulled in
      let '(r', st') := visit_renderable ext r st in
      (Some r', fc, st')
  end.

(** [Object3D.traverse]: the callback on the node, then on every child in
    order, recursively. The callback assigns fields of the node it is given,
    so the walk returns the updated tree. *)
Fixpoint traverse (ext : string) (o : Object3D) (st : stats)
  : Object3D * stats :=
  match o with
  | Obj render b fc cs =>
      let '(render', fc', st1) := visit ext render fc st in
      let '(cs', st2) :=
        (fix go (cs : list Object3D) (st : stats) : list Object3D * stats :=
           match cs with
           | [] => ([], st)
           | c :: rest =>
               let '(c', sa) := traverse ext c st in
               let '(rest', sb) := go rest sa in
               (c' :: rest', sb)
           end) cs st1 in
      (Obj render' b fc' cs', st2)
  end.

(** The same walk over a list of siblings. *)
Fixpoint traverse_list (ext : string) (cs : list Object3D) (st : stats)
  : list Object3D * stats :=
  match cs with
  | [] => ([], st)
  | c :: rest =>
      let '(c', sa) := traverse ext c st in
      let '(rest', sb) := traverse_list ext rest sa in
      (c' :: rest', sb)
  end.

(** [Math.round]: the nearest integer, halves upwards. *)
Definition Math_round (x : Q) : Z := Qfloor (x + (1 # 2)).

(** [modelAnimations.indexOf(c)]: clips are compared by identity. *)
Fixpoint indexOf (cs : list AnimationClip) (c : AnimationClip) : nat :=
  match cs with
  | [] => 0
  | d :: rest =>
      if (clip_uuid d =? clip_uuid c)%nat then 0 else S (indexOf rest c)
  end.

(** [c.name || `Animation ${modelAnimations.indexOf(c) + 1}`] *)
Definition animation_name (cs : list AnimationClip) (c : AnimationClip)
  : string :=
  if str_eqb (clip_name c) "" then
    ("Animation " +:+ pretty (indexOf cs c + 1))%string
  else clip_name c.

(** The argument of [onModelMetadata]. *)
Record ModelMetadata := mkMetadata {
  md_vertices : nat;
  md_triangles : Z;
  md_meshes : nat;
  md_materials : nat;
  md_textures : nat;
  md_animations : list string
}.

Definition metadata_of (st : stats) (anims : list AnimationClip)
  : ModelMetadata :=
  {| md_vertices := vertices st;
     md_triangles := Math_round (triangles st);
     md_meshes := meshes st;
     md_materials := size (materialsCount st);
     md_textures := size (texturesCount st);
     md_animations := map (animation_name anims) anims |}.

(** Normalisation followed by the traversal: the object that [setModel]
    receives, the clip list, the metadata, and the allocation counter
    afterwards. *)
Definition processResult_pure (ext : string) (pointSize : Q)
    (result : parse_result) (next : nat)
  : option (Object3D * list AnimationClip * ModelMetadata * nat) :=
  match normalize ext pointSize result next with
  | None => None
  | Some (object, modelAnimations, next1) =>
      let '(object', st) := traverse ext object (stats0 next1) in
      Some (object', modelAnimations, metadata_of st modelAnimations,
            next_uuid st)
  end.

(* ===================================================================== *)
(** * Reading a scene: what the statistics are compared with *)
(* ===================================================================== *)

(** The nodes with [isMesh] or [isPoints], in the order of the walk. *)
Fixpoint renderables (o : Object3D) : list Renderable :=
  match o with
  | Obj render _ _ cs =>
      match render with Some r => [r] | None => [] end
      ++ flat_map renderables cs
  end.

(** Position counts of the mesh nodes that expose a position attribute. *)
Definition mesh_position (r : Renderable) : option nat :=
  if isMesh (r_kind r) then position (r_geometry r) else None.

Definition mesh_positions (o : Object3D) : list nat :=
  omap mesh_position (renderables o).

(** The sum of [count / 3] over those nodes, as a rational. *)
Definition sum_thirds (l : list nat) : Q :=
  foldr (fun c acc => ((Z.of_nat c # 3) + acc)%Q) 0%Q l.

(** Identities of the materials attached to a list of nodes. *)
Definition material_ids_of (rs : list Renderable) : gset nat :=
  list_to_set (mat_uuid <$> (rs ≫= fun r => material_list (r_material r))).

Definition material_ids (o : Object3D) : gset nat :=
  material_ids_of (renderables o).

(** Mesh nodes whose material slot is truthy. *)
Definition has_mesh_material (r : Renderable) : bool :=
  isMesh (r_kind r) && material_truthy (r_material r).

Definition mesh_material_nodes (o : Object3D) : nat :=
  length (filter (fun r => has_mesh_material r = true) (renderables o)).

(** Identities of the materials attached to point-cloud nodes. *)
Definition points_material_ids (o : Object3D) : gset nat :=
  material_ids_of (filter (fun r => isMesh (r_kind r) = false)
                          (renderables o)).

(** Every material identity in the object is below the counter [n]: the
    counter has never handed out an identity that the object holds. *)
Definition uuids_below (n : nat) (o : Object3D) : bool :=
  forallb (fun r => forallb (fun m => (mat_uuid m <? n)%nat)
                      (material_list (r_material r)))
          (renderables o).

(** The triangle count as the specification words it: the sum of
    [count / 3] over mesh nodes, rounded down once at the end. *)
Definition spec_triangles_floor (o : Object3D) : Z :=
  Qfloor (sum_thirds (mesh_positions o)).

(** The material count as the specification words it: the number of
    unique material identities of the scene handed to the walk. *)
Definition spec_materials_unique (o : Object3D) : nat :=
  size (material_ids o).

(** Small scenes for the examples. *)
Definition mesh_node (count : nat) (m : material_slot) : Object3D :=
  leaf {| r_kind := Mesh;
          r_geometry := {| position := Some count; index := None;
                           has_color := false |};
          r_material := m |}.

Definition plain_material (u : nat) : Material :=
  new_MeshStandardMaterial u 16777215%Z None 1 0.

Definition group (cs : list Object3D) : Object3D := Obj None false true cs.


(* ===================================================================== *)
(** * The viewer: props, refs and callbacks of [ModelManager] *)
(* ===================================================================== *)

Record SceneSettings := mkSettings {
  autoRotate : bool;
  wireframe : bool;
  showSkeleton : bool;
  playAnimation : bool;
  activeAnimationIndex : Z;
  pointSize : Q
}.

(** ** The animation mixer

    An action belongs to one clip of one mixer ([clipAction] returns the
    same action for the same clip), so an action is named by its clip. What
    is kept of an action: whether it was started, its local time, and the
    fade scheduled on it with its duration. *)
Inductive fade := FadeIn (duration : Q) | FadeOut (duration : Q).

Record action_state := mkAction {
  act_playing : bool;
  act_time : Q;
  act_fade : option fade
}.

Definition fresh_action : action_state :=
  {| act_playing := false; act_time := 0; act_fade := None |}.

(** [mixer.current]: the actions created so far, by clip identity. *)
Record AnimationMixer := mkMixer { actions : gmap nat action_state }.

(** [mixer.clipAction(clip)]: creates the action on first use. *)
Definition clipAction (m : AnimationMixer) (c : AnimationClip)
  : AnimationMixer :=
  match actions m !! clip_uuid c with
  | Some _ => m
  | None => {| actions := <[clip_uuid c := fresh_action]> (actions m) |}
  end.

Definition on_action (f : action_state -> action_state)
    (m : AnimationMixer) (c : AnimationClip) : AnimationMixer :=
  {| actions := alter f (clip_uuid c) (actions m) |}.

Definition act_play (a : action_state) : action_state :=
  {| act_playing := true; act_time := act_time a; act_fade := act_fade a |}.

Definition act_reset (a : action_state) : action_state :=
  {| act_playing := act_playing a; act_time := 0; act_fade := None |}.

Definition act_fadeIn (d : Q) (a : action_state) : action_state :=
  {| act_playing := act_playing a; act_time := act_time a;
     act_fade := Some (FadeIn d) |}.

Definition act_fadeOut (d : Q) (a : action_state) : action_state :=
  {| act_playing := act_playing a; act_time := act_time a;
     act_fade := Some (FadeOut d) |}.

Definition act_stop (a : action_state) : action_state :=
  {| act_playing := false; act_time := 0; act_fade := None |}.

(** [mixer.stopAllAction()] *)
Definition stopAllAction (m : AnimationMixer) : AnimationMixer :=
  {| actions := act_stop <$> actions m |}.

(** ** Observable calls *)
Inductive event :=
| Status (s : string)
| Fetch (url : string)
| Parse (ext : string)
| SetModel (o : option Object3D)
| Metadata (md : ModelMetadata)
| FrameLater.

(** React state ([model]), the refs, the allocation counter of material
    identities, and the calls made so far, oldest first. *)
Record viewer := mkViewer {
  model : option Object3D;
  mixer : option AnimationMixer;
  clips : list AnimationClip;
  activeAction : option AnimationClip;
  uuid_counter : nat;
  log : list event
}.

Definition emit (e : event) (v : viewer) : viewer :=
  {| model := model v; mixer := mixer v; clips := clips v;
     activeAction := activeAction v; uuid_counter := uuid_counter v;
     log := log v ++ [e] |}.

Definition initial_viewer : viewer :=
  {| model := None; mixer := None; clips := []; activeAction := None;
     uuid_counter := 0; log := [] |}.

(** ** processResult *)

(** The mixer built for a new object: [clipAction(modelAnimations[0])]
    followed by [play()]. *)
Definition start_first_clip (anims : list AnimationClip)
  : option AnimationMixer * option AnimationClip :=
  match anims with
  | [] => (None, None)
  | c :: _ =>
      (Some (on_action act_play (clipAction {| actions := ∅ |} c) c),
       Some c)
  end.

(** The whole of [processResult]. The old mixer is stopped and dropped, the
    refs are rebound, the object is walked, and only then [setModel],
    [onModelMetadata] and the delayed [frameCamera] are issued. *)
Definition processResult (ext : string) (settings : SceneSettings)
    (result : parse_result) (v : viewer) : option viewer :=
  match processResult_pure ext (pointSize settings) result (uuid_counter v)
  with
  | None => None
  | Some (object, modelAnimations, md, next) =>
      let '(mx, act) := start_first_clip modelAnimations in
      Some {| model := Some object; mixer := mx; clips := modelAnimations;
              activeAction := act; uuid_counter := next;
              log := log v ++ [SetModel (Some object); Metadata md;
                               FrameLater] |}
  end.

(** ** handleError and loadModel *)

(** A thrown or reported value, as far as [err.message] goes. *)
Record js_error := mkError { message : option string }.

(** [err.message || 'Parsing failed'] *)
Definition message_or_default (err : js_error) : string :=
  match message err with
  | Some m => if str_eqb m "" then "Parsing failed" else m
  | None => "Parsing failed"
  end.

Definition handleError (err : js_error) (v : viewer) : viewer :=
  emit (Status ("Error: " +:+ message_or_default err)) v.

Definition buffer := list Byte.byte.

(** The collaborators of a load: [fetch] with [arrayBuffer], and the five
    parsers (the text formats include their [TextDecoder] step). A parser
    either reports or throws an error, or returns its result.
    [type_error] is what the runtime throws on a malformed result. *)
Record collaborators := mkCollaborators {
  fetch : string -> js_error + buffer;
  GLTF_parse : buffer -> js_error + (Object3D * list AnimationClip);
  OBJ_parse : buffer -> js_error + Object3D;
  PLY_parse : buffer -> js_error + BufferGeometry;
  PCD_parse : buffer -> js_error + Object3D;
  XYZ_parse : buffer -> js_error + BufferGeometry;
  type_error : js_error
}.

(** [processResult(...)] inside the [try] (or behind the loader's error
    callback): a throw ends in [handleError]. *)
Definition processResult_or_error (env : collaborators) (ext : string)
    (settings : SceneSettings) (result : parse_result) (v : viewer)
  : viewer :=
  match processResult ext settings result v with
  | Some v' => v'
  | None => handleError (type_error env) v
  end.

Definition with_result {A : Type} (r : js_error + A) (v : viewer)
    (k : A -> viewer) : viewer :=
  match r with
  | inl err => handleError err v
  | inr a => k a
  end.

(** [loadModel] up to its first [await]. *)
Definition load_start (modelUrl : string) (v : viewer) : viewer :=
  emit (Fetch modelUrl) (emit (Status "Fetching data stream...") v).

(** The [switch (ext)]: which loader parses the buffer and what it
    returns, or [None] in the [default] case. *)
Definition parse_for (env : collaborators) (ext : string) (b : buffer)
  : option (js_error + parse_result) :=
  if str_eqb ext "glb" || str_eqb ext "gltf" then
    Some (match GLTF_parse env b with
          | inl e => inl e
          | inr (scene, animations) => inr (GLTFResult scene animations)
          end)
  else if str_eqb ext "obj" then
    Some (match OBJ_parse env b with
          | inl e => inl e | inr o => inr (ObjectResult o) end)
  else if str_eqb ext "ply" then
    Some (match PLY_parse env b with
          | inl e => inl e | inr g => inr (GeometryResult g) end)
  else if str_eqb ext "pcd" then
    Some (match PCD_parse env b with
          | inl e => inl e | inr o => inr (ObjectResult o) end)
  else if str_eqb ext "xyz" then
    Some (match XYZ_parse env b with
          | inl e => inl e | inr g => inr (GeometryResult g) end)
  else None.

(** [loadModel] from the point where [fetch] and [arrayBuffer] have
    settled: the status line, then the [switch] on the extension. In every
    supported case the loader's result goes to [processResult] and its
    error to [handleError]; the [default] case calls [handleError]. This
    is the load run to its end with nothing coming in between, the
    callback of [GLTFLoader.parse] included. *)
Definition load_finish (env : collaborators) (settings : SceneSettings)
    (modelUrl ext : string) (v : viewer) : viewer :=
  with_result (fetch env modelUrl) v (fun b =>
    let v1 :=
      emit (Status ("Decoding " +:+ toUpperCase ext +:+ " payloads...")) v in
    match parse_for env ext b with
    | Some parsed =>
        with_result parsed (emit (Parse ext) v1)
          (fun result =>
             processResult_or_error env ext settings result
               (emit (Parse ext) v1))
    | None =>
        handleError (mkError (Some ("Unsupported format: " +:+ ext))) v1
    end).

Definition loadModel (env : collaborators) (settings : SceneSettings)
    (modelUrl ext : string) (v : viewer) : viewer :=
  load_finish env settings modelUrl ext (load_start modelUrl v).

(** [loadModel] from the end of its awaits to its return. The parsers of
    obj, ply, pcd and xyz return their result, and [processResult] has run
    when [loadModel] returns. [GLTFLoader.parse] is handed [processResult]
    and [handleError] and returns before it calls the first: the second
    component is then what it will call back with. (An error that
    [GLTFLoader.parse] reports before it returns is a callback that comes
    at once.) *)
Definition load_decode (env : collaborators) (settings : SceneSettings)
    (modelUrl ext : string) (v : viewer)
  : viewer * option (js_error + parse_result) :=
  match fetch env modelUrl with
  | inl err => (handleError err v, None)
  | inr b =>
      let v1 :=
        emit (Status ("Decoding " +:+ toUpperCase ext +:+ " payloads...")) v in
      match parse_for env ext b with
      | Some parsed =>
          if is_interchange ext then (emit (Parse ext) v1, Some parsed)
          else
            (with_result parsed (emit (Parse ext) v1)
               (fun result =>
                  processResult_or_error env ext settings result
                    (emit (Parse ext) v1)),
             None)
      | None =>
          (handleError (mkError (Some ("Unsupported format: " +:+ ext))) v1,
           None)
      end
  end.

(** The callback of [GLTFLoader.parse]: [processResult] on the scene, or
    [handleError], on the viewer as it is by then. *)
Definition load_callback (env : collaborators) (settings : SceneSettings)
    (ext : string) (parsed : js_error + parse_result) (v : viewer)
  : viewer :=
  with_result parsed v
    (fun result => processResult_or_error env ext settings result v).

(** JavaScript truthiness of a [string | null] prop. *)
Definition prop_truthy (p : option string) : option string :=
  match p with
  | Some s => if str_eqb s "" then None else Some s
  | None => None
  end.

Definition setModel (o : option Object3D) (v : viewer) : viewer :=
  emit (SetModel o)
    {| model := o; mixer := mixer v; clips := clips v;
       activeAction := activeAction v; uuid_counter := uuid_counter v;
       log := log v |}.

(** The body of the load effect, run when [modelUrl] or [extension]
    change, with a load that nothing interrupts; loads in flight are the
    matter of [session_step] below. *)
Definition load_effect (env : collaborators) (settings : SceneSettings)
    (modelUrl extension : option string) (v : viewer) : viewer :=
  match prop_truthy modelUrl, prop_truthy extension with
  | Some url, Some extension' =>
      loadModel env settings url (toLowerCase extension') v
  | _, _ => setModel None v
  end.

(* ===================================================================== *)
(** * Animation switching: the effect on [settings.activeAnimationIndex] *)
(* ===================================================================== *)

(** [clips.current[i]]: [undefined] outside [0 .. length - 1]. *)
Definition clip_at (cs : list AnimationClip) (i : Z) : option AnimationClip :=
  if (i <? 0)%Z then None else cs !! Z.to_nat i.

(** [clips.current[i] || clips.current[0]] *)
Definition next_clip (cs : list AnimationClip) (i : Z)
  : option AnimationClip :=
  match clip_at cs i with
  | Some c => Some c
  | None => cs !! 0
  end.

Definition set_animation (m : AnimationMixer) (a : option AnimationClip)
    (v : viewer) : viewer :=
  {| model := model v; mixer := Some m; clips := clips v;
     activeAction := a; uuid_counter := uuid_counter v; log := log v |}.

Definition fade_time : Q := 3 # 10.

(** [action.reset().fadeIn(0.3).play()] *)
Definition restart_with_fade (a : action_state) : action_state :=
  act_play (act_fadeIn fade_time (act_reset a)).

Definition animation_effect (settings : SceneSettings) (v : viewer)
  : viewer :=
  match mixer v with
  | None => v
  | Some m =>
      if (length (clips v) =? 0)%nat then v
      else
        let m1 :=
          match activeAction v with
          | Some a => on_action (act_fadeOut fade_time) m a
          | None => m
          end in
        match next_clip (clips v) (activeAnimationIndex settings) with
        | Some nextClip =>
            let m2 := clipAction m1 nextClip in
            set_animation (on_action restart_with_fade m2 nextClip)
                          (Some nextClip) v
        | None => set_animation m1 (activeAction v) v
        end
  end.

(** The state of the action of clip [c], if the mixer has one. *)
Definition action_of (v : viewer) (c : AnimationClip)
  : option action_state :=
  match mixer v with
  | Some m => actions m !! clip_uuid c
  | None => None
  end.

(* ===================================================================== *)
(** * Camera framing *)
(* ===================================================================== *)

Record Vector3 := mkV3 { vx : R; vy : R; vz : R }.

Definition v_add (a b : Vector3) : Vector3 :=
  mkV3 (vx a + vx b) (vy a + vy b) (vz a + vz b).

Definition v_sub (a b : Vector3) : Vector3 :=
  mkV3 (vx a - vx b) (vy a - vy b) (vz a - vz b).

Definition v_scale (a : Vector3) (k : R) : Vector3 :=
  mkV3 (vx a * k) (vy a * k) (vz a * k).

Definition v_length (a : Vector3) : R :=
  sqrt (vx a * vx a + vy a * vy a + vz a * vz a).

(** [x || d] on numbers: zero is falsy. *)
Definition num_or (x d : R) : R := if Req_dec_T x 0 then d else x.

(** [Vector3.normalize]: [divideScalar(length() || 1)]. *)
Definition v_normalize (a : Vector3) : Vector3 :=
  v_scale a (/ num_or (v_length a) 1).

Definition v_zero : Vector3 := mkV3 0 0 0.

Record Box3 := mkBox { box_min : Vector3; box_max : Vector3 }.

Definition Rltb (x y : R) : bool := if Rlt_dec x y then true else false.

(** [Box3.isEmpty] *)
Definition box_isEmpty (b : Box3) : bool :=
  Rltb (vx (box_max b)) (vx (box_min b))
  || Rltb (vy (box_max b)) (vy (box_min b))
  || Rltb (vz (box_max b)) (vz (box_min b)).

(** [Box3.getSize] and [Box3.getCenter]: zero on an empty box. *)
Definition getSize (b : Box3) : Vector3 :=
  if box_isEmpty b then v_zero else v_sub (box_max b) (box_min b).

Definition getCenter (b : Box3) : Vector3 :=
  if box_isEmpty b then v_zero
  else v_scale (v_add (box_min b) (box_max b)) (1 / 2).

Record Camera := mkCamera {
  cam_position : Vector3;
  fov : R;
  aspect : R;
  near : R;
  far : R
}.

(** [Math.max(size.x, size.y, size.z)] *)
Definition maxSize_of (size : Vector3) : R :=
  Rmax (Rmax (vx size) (vy size)) (vz size).

(** The three distance lines of [frameCamera]. *)
Definition fitHeightDistance (maxSize fov : R) : R :=
  maxSize / (2 * atan ((PI * fov) / 360)).

Definition fitWidthDistance (maxSize fov aspect : R) : R :=
  fitHeightDistance maxSize fov / num_or aspect 1.

Definition frame_distance (maxSize fov aspect : R) : R :=
  12 / 10 * Rmax (fitHeightDistance maxSize (num_or fov 45))
                 (fitWidthDistance maxSize (num_or fov 45) aspect).

(** [OrbitControls] as [frameCamera] uses them: the target, and the
    method [update()] of the library. [update()] reads the target and the
    camera and writes both: it clamps the polar angle, turns the camera
    under [autoRotate], and applies what is left of a damped gesture.
    [oc_update c t cam] is the camera and the target after [update()],
    called when the target is [t] and the camera is [cam]. *)
Record OrbitControls := mkControls {
  oc_target : Vector3;
  oc_update : Vector3 -> Camera -> Camera * Vector3
}.

(** [frameCamera], given the box that [Box3.setFromObject(object)]
    returns. With orbit controls, the target is set to the centre and
    [controls.update()] has the last word on the camera. *)
Definition frameCamera (box : Box3) (camera : Camera)
    (controls : option OrbitControls) : Camera * option OrbitControls :=
  let size := getSize box in
  let center := getCenter box in
  let distance := frame_distance (maxSize_of size) (fov camera)
                                 (aspect camera) in
  let direction := v_normalize (v_sub (cam_position camera) center) in
  let camera' :=
    {| cam_position := v_add (v_scale direction distance) center;
       fov := fov camera; aspect := aspect camera;
       near := distance / 1000; far := distance * 1000 |} in
  match controls with
  | Some c =>
      let '(camera'', target) := oc_update c center camera' in
      (camera'', Some {| oc_target := target; oc_update := oc_update c |})
  | None => (camera', None)
  end.

(** An [update()] that turns the camera about the target: it keeps the
    target, the distance of the camera from it, and the lens. This is what
    [OrbitControls.update()] does with the default distance limits while
    no zoom and no pan is pending. *)
Definition turns_about_target (u : Vector3 -> Camera -> Camera * Vector3)
  : Prop :=
  forall t cam,
    snd (u t cam) = t
    /\ v_length (v_sub (cam_position (fst (u t cam))) t)
       = v_length (v_sub (cam_position cam) t)
    /\ fov (fst (u t cam)) = fov cam /\ aspect (fst (u t cam)) = aspect cam
    /\ near (fst (u t cam)) = near cam /\ far (fst (u t cam)) = far cam.

(** Controls whose [update()] turns the camera half way round the
    vertical axis through the target. *)
Definition half_turn (t : Vector3) (cam : Camera) : Camera * Vector3 :=
  ({| cam_position :=
        mkV3 (2 * vx t - vx (cam_position cam)) (vy (cam_position cam))
             (2 * vz t - vz (cam_position cam));
      fov := fov cam; aspect := aspect cam;
      near := near cam; far := far cam |}, t).

Definition turning_controls : OrbitControls :=
  {| oc_target := v_zero; oc_update := half_turn |}.

(** The distance as the specification words it: the vertical fit is
    [maxSize / (2 * tan (fov / 2))], the field of view taken in degrees. *)
Definition spec_fit_height (maxSize fov : R) : R :=
  maxSize / (2 * tan ((PI * fov) / 360)).

Definition spec_frame_distance (maxSize fov aspect : R) : R :=
  12 / 10 * Rmax (spec_fit_height maxSize fov)
                 (spec_fit_height maxSize fov / aspect).

(* ===================================================================== *)
(** * Export: the scene as a store of nodes *)
(* ===================================================================== *)

(** The export path assigns to nodes ([position.sub], [Scene.add]) and
    works on a copy, so here the scene graph is a store: a node is named by
    its [Object3D.id], taken from a counter at construction, and refers to
    its children, its parent, its geometry and its materials by name. *)

Record Quaternion := mkQuat { qx : R; qy : R; qz : R; qw : R }.

Record Node := mkNode {
  n_position : Vector3;
  n_quaternion : Quaternion;
  n_scale : Vector3;
  n_geometry : option nat;
  n_material : list nat;
  n_children : list nat;
  n_parent : option nat
}.

(** [geometries]: the vertex positions of each geometry;
    [materials]: the material objects, by identity. *)
Record store := mkStore {
  nodes : gmap nat Node;
  geometries : gmap nat (list Vector3);
  materials : gmap nat Material;
  next_id : nat
}.

Definition set_nodes (f : gmap nat Node -> gmap nat Node) (s : store)
  : store :=
  {| nodes := f (nodes s); geometries := geometries s;
     materials := materials s; next_id := next_id s |}.

(** The identities reachable from a root through [children], as a tree. *)
Inductive shape :=
| Sh (root : nat) (kids : list shape).

Definition shape_root (sh : shape) : nat :=
  match sh with Sh r _ => r end.

Fixpoint shape_ids (sh : shape) : list nat :=
  match sh with
  | Sh r kids => r :: flat_map shape_ids kids
  end.

(** The store holds the tree [sh]: every node exists and its [children]
    are the roots of the subtrees, in order. *)
Fixpoint represents (s : store) (sh : shape) : Prop :=
  match sh with
  | Sh r kids =>
      (exists n, nodes s !! r = Some n
                 /\ n_children n = map shape_root kids)
      /\ (fix all (ks : list shape) : Prop :=
            match ks with
            | [] => True
            | k :: rest => represents s k /\ all rest
            end) kids
  end.

(** A constructor call: the new node takes the counter's value. *)
Definition alloc (n : Node) (s : store) : nat * store :=
  (next_id s,
   {| nodes := <[next_id s := n]> (nodes s); geometries := geometries s;
      materials := materials s; next_id := S (next_id s) |}).

Definition identity_quaternion : Quaternion := mkQuat 0 0 0 1.

(** [new THREE.Scene()] / [new Object3D()] *)
Definition empty_node : Node :=
  {| n_position := v_zero; n_quaternion := identity_quaternion;
     n_scale := mkV3 1 1 1; n_geometry := None; n_material := [];
     n_children := []; n_parent := None |}.

(** [Object3D.add(child)]: the child leaves its former parent, if any, and
    is appended to the new parent's children. *)
Definition remove_child (child : nat) (n : Node) : Node :=
  {| n_position := n_position n; n_quaternion := n_quaternion n;
     n_scale := n_scale n; n_geometry := n_geometry n;
     n_material := n_material n;
     n_children := filter (fun c => c <> child) (n_children n);
     n_parent := n_parent n |}.

Definition push_child (child : nat) (n : Node) : Node :=
  {| n_position := n_position n; n_quaternion := n_quaternion n;
     n_scale := n_scale n; n_geometry := n_geometry n;
     n_material := n_material n;
     n_children := n_children n ++ [child];
     n_parent := n_parent n |}.

Definition set_parent (p : option nat) (n : Node) : Node :=
  {| n_position := n_position n; n_quaternion := n_quaternion n;
     n_scale := n_scale n; n_geometry := n_geometry n;
     n_material := n_material n; n_children := n_children n;
     n_parent := p |}.

Definition set_position (p : Vector3) (n : Node) : Node :=
  {| n_position := p; n_quaternion := n_quaternion n;
     n_scale := n_scale n; n_geometry := n_geometry n;
     n_material := n_material n; n_children := n_children n;
     n_parent := n_parent n |}.

Definition add (parent child : nat) (s : store) : store :=
  match nodes s !! child with
  | None => s
  | Some c =>
      let detached :=
        match n_parent c with
        | Some old => alter (remove_child child) old (nodes s)
        | None => nodes s
        end in
      set_nodes (fun _ =>
        alter (push_child child) parent
          (alter (set_parent (Some parent)) child detached)) s
  end.

(** [Object3D.clone()], recursive: a new node with the source's transform,
    the same geometry and the same materials (by reference), no parent, and
    a clone of every child added in order. [None] if the tree names a node
    that the store does not hold. *)
Fixpoint clone (sh : shape) (s : store) : option (shape * store) :=
  match sh with
  | Sh r kids =>
      match nodes s !! r with
      | None => None
      | Some n =>
          let '(new, s1) :=
            alloc {| n_position := n_position n;
                     n_quaternion := n_quaternion n;
                     n_scale := n_scale n; n_geometry := n_geometry n;
                     n_material := n_material n;
                     n_children := []; n_parent := None |} s in
          match
            (fix go (ks : list shape) (s : store)
               : option (list shape * store) :=
               match ks with
               | [] => Some ([], s)
               | k :: rest =>
                   match clone k s with
                   | None => None
                   | Some (k', s') =>
                       match go rest (add new (shape_root k') s') with
                       | None => None
                       | Some (rest', s'') => Some (k' :: rest', s'')
                       end
                   end
               end) kids s1
          with
          | None => None
          | Some (kids', s2) => Some (Sh new kids', s2)
          end
      end
  end.

(** The children loop of [clone], for a parent [new]. *)
Fixpoint clone_kids (new : nat) (ks : list shape) (s : store)
  : option (list shape * store) :=
  match ks with
  | [] => Some ([], s)
  | k :: rest =>
      match clone k s with
      | None => None
      | Some (k', s') =>
          match clone_kids new rest (add new (shape_root k') s') with
          | None => None
          | Some (rest', s'') => Some (k' :: rest', s'')
          end
      end
  end.

(** ** Bounding boxes *)

(** [Matrix4.compose(position, quaternion, scale)] applied to a point. *)
Definition local_matrix (n : Node) (p : Vector3) : Vector3 :=
  let q := n_quaternion n in
  let sc := n_scale n in
  let x2 := (qx q + qx q)%R in
  let y2 := (qy q + qy q)%R in
  let z2 := (qz q + qz q)%R in
  let xx := (qx q * x2)%R in let xy := (qx q * y2)%R in
  let xz := (qx q * z2)%R in let yy := (qy q * y2)%R in
  let yz := (qy q * z2)%R in let zz := (qz q * z2)%R in
  let wx := (qw q * x2)%R in let wy := (qw q * y2)%R in
  let wz := (qw q * z2)%R in
  mkV3
    ((1 - (yy + zz)) * vx sc * vx p + (xy - wz) * vy sc * vy p
     + (xz + wy) * vz sc * vz p + vx (n_position n))
    ((xy + wz) * vx sc * vx p + (1 - (xx + zz)) * vy sc * vy p
     + (yz - wx) * vz sc * vz p + vy (n_position n))
    ((xz - wy) * vx sc * vx p + (yz + wx) * vy sc * vy p
     + (1 - (xx + yy)) * vz sc * vz p + vz (n_position n)).

(** No real number is infinite: the empty box is one whose maximum lies
    below its minimum, which is all that [isEmpty] asks. *)
Definition empty_box : Box3 := mkBox (mkV3 1 1 1) (mkV3 (-1) (-1) (-1)).

Definition v_min (a b : Vector3) : Vector3 :=
  mkV3 (Rmin (vx a) (vx b)) (Rmin (vy a) (vy b)) (Rmin (vz a) (vz b)).

Definition v_max (a b : Vector3) : Vector3 :=
  mkV3 (Rmax (vx a) (vx b)) (Rmax (vy a) (vy b)) (Rmax (vz a) (vz b)).

(** [Box3.expandByPoint] *)
Definition expandByPoint (b : Box3) (p : Vector3) : Box3 :=
  mkBox (v_min (box_min b) p) (v_max (box_max b) p).

(** [Box3.setFromPoints] *)
Definition box_of_points (ps : list Vector3) : Box3 :=
  match ps with
  | [] => empty_box
  | p :: rest => foldl expandByPoint (mkBox p p) rest
  end.

(** The eight corners of a box, none for an empty one. *)
Definition corners (b : Box3) : list Vector3 :=
  if box_isEmpty b then []
  else
    let lo := box_min b in
    let hi := box_max b in
    [ mkV3 (vx lo) (vy lo) (vz lo); mkV3 (vx lo) (vy lo) (vz hi);
      mkV3 (vx lo) (vy hi) (vz lo); mkV3 (vx lo) (vy hi) (vz hi);
      mkV3 (vx hi) (vy lo) (vz lo); mkV3 (vx hi) (vy lo) (vz hi);
      mkV3 (vx hi) (vy hi) (vz lo); mkV3 (vx hi) (vy hi) (vz hi) ].

(** [geometry.boundingBox] of a node's geometry, as its corners. *)
Definition geometry_corners (s : store) (n : Node) : list Vector3 :=
  match n_geometry n with
  | None => []
  | Some g =>
      match geometries s !! g with
      | None => []
      | Some ps => corners (box_of_points ps)
      end
  end.

(** The corners that [Box3.expandByObject] unions, in world coordinates:
    the node's own, through its world matrix, then its children's, whose
    world matrix is the parent's times their own. *)
Fixpoint world_corners (s : store) (parentWorld : Vector3 -> Vector3)
    (sh : shape) : list Vector3 :=
  match sh with
  | Sh r kids =>
      match nodes s !! r with
      | None => []
      | Some n =>
          let world := fun p => parentWorld (local_matrix n p) in
          map world (geometry_corners s n)
          ++ flat_map (world_corners s world) kids
      end
  end.

(** [new THREE.Box3().setFromObject(object)] for an object without a
    parent. *)
Definition setFromObject (s : store) (sh : shape) : Box3 :=
  box_of_points (world_corners s (fun p => p) sh).

(** ** exportModel *)

Record ExportConfig := mkConfig {
  draco : bool;
  ktx2 : bool;
  fileName : string
}.

(** The [options] object handed to [GLTFExporter.parse]. *)
Record export_options := mkOptions {
  binary : bool;
  animations : list AnimationClip;
  truncateDrawRange : bool;
  dracoOptions : option nat
}.

Definition make_options (config : ExportConfig) (cl : list AnimationClip)
  : export_options :=
  {| binary := true; animations := cl; truncateDrawRange := true;
     dracoOptions := if draco config then Some 7 else None |}.

Definition is_slash_or_dot (c : ascii) : bool :=
  bool_decide (c = "/"%char) || bool_decide (c = "."%char).

(** The longest run of characters other than [/] and [.] at the front of a
    list, and what follows it. *)
Fixpoint span_plain (l : list ascii) : list ascii * list ascii :=
  match l with
  | [] => ([], [])
  | c :: rest =>
      if is_slash_or_dot c then ([], l)
      else let '(a, b) := span_plain rest in (c :: a, b)
  end.

(** [fileName.replace(/\.[^/.]+$/, "")]: the pattern matches a dot
    followed, up to the end, by one or more characters that are neither a
    slash nor a dot; it is found from the end of the name. *)
Definition strip_extension (name : string) : string :=
  match span_plain (reverse (list_ascii_of_string name)) with
  | (_ :: _, c :: before) =>
      if bool_decide (c = "."%char)
      then string_of_list_ascii (reverse before)
      else name
  | _ => name
  end.

(** The suffix lines of the download callback. *)
Definition export_suffix (config : ExportConfig) : string :=
  let s1 := if draco config then "_draco" else "" in
  let s2 := if ktx2 config then (s1 +:+ "_ktx2") else s1 in
  if str_eqb s2 "" then "_optimized" else s2.

Definition download_name (config : ExportConfig) : string :=
  strip_extension (fileName config) +:+ export_suffix config +:+ ".glb".

Inductive export_outcome :=
| NotExported
| Downloaded (name : string) (blob : buffer)
| ExportThrown (err : js_error).

(** [exportModel] up to the call of the exporter: the export scene, the
    clone, the recentring and [exportScene.add(clone)]. Returns the tree
    of the export scene. [None] only if the model names a node the store
    does not hold. *)
Definition prepare_export (m : shape) (s : store) : option (shape * store) :=
  let '(exportScene, s1) := alloc empty_node s in
  match clone m s1 with
  | None => None
  | Some (cl, s2) =>
      let box := setFromObject s2 cl in
      let center := getCenter box in
      let s3 :=
        set_nodes
          (alter (fun n => set_position (v_sub (n_position n) center) n)
                 (shape_root cl)) s2 in
      Some (Sh exportScene [cl], add exportScene (shape_root cl) s3)
  end.

(** [exportModel]. The exporter is a collaborator: from the store, the
    export scene and the options it yields the bytes or an error, and
    writes nothing. *)
Definition exportModel
    (exporter : store -> shape -> export_options -> js_error + buffer)
    (config : ExportConfig) (cl : list AnimationClip)
    (model : option shape) (s : store) : option (store * export_outcome) :=
  match model with
  | None => Some (s, NotExported)
  | Some m =>
      match prepare_export m s with
      | None => None
      | Some (exportScene, s') =>
          let options := make_options config cl in
          match exporter s' exportScene options with
          | inr result => Some (s', Downloaded (download_name config) result)
          | inl error => Some (s', ExportThrown error)
          end
      end
  end.

(** What [clone] copies of a node: transform, geometry and materials. *)
Definition node_data (n : Node)
  : Vector3 * Quaternion * Vector3 * option nat * list nat :=
  (n_position n, n_quaternion n, n_scale n, n_geometry n, n_material n).

Definition data_at (s : store) (id : nat) :=
  node_data <$> nodes s !! id.

(** Every node of the store was numbered by the counter. *)
Definition wf_store (s : store) : Prop :=
  forall id, is_Some (nodes s !! id) -> id < next_id s.

(* ===================================================================== *)
(** * Loads in flight *)
(* ===================================================================== *)

(** What the closure of one run of the load effect holds. *)
Record request := mkRequest {
  rq_url : string;
  rq_ext : string;
  rq_settings : SceneSettings
}.

(** The viewer together with the loads in flight, numbered in the order
    they were started: [pending] holds those whose [await] has not settled
    yet, [decoding] those whose buffer is with [GLTFLoader.parse], with what
    the loader will call back with. [cleanup_armed]: the last run of the
    effect returned a cleanup function. *)
Record session := mkSession {
  view : viewer;
  pending : gmap nat request;
  decoding : gmap nat (request * (js_error + parse_result));
  initiated : nat;
  cleanup_armed : bool
}.

Inductive session_event :=
| SetProps (settings : SceneSettings) (modelUrl extension : option string)
| Settle (i : nat)
| Deliver (i : nat).

(** The cleanup the effect returns, as far as the viewer state goes:
    [if (mixer.current) mixer.current.stopAllAction()]. *)
Definition effect_cleanup (v : viewer) : viewer :=
  match mixer v with
  | Some m =>
      {| model := model v; mixer := Some (stopAllAction m);
         clips := clips v; activeAction := activeAction v;
         uuid_counter := uuid_counter v; log := log v |}
  | None => v
  end.

(** [SetProps]: the props changed, so the previous cleanup runs and the
    effect body runs up to its first [await].
    [Settle i]: the awaits of load [i] are over and its [loadModel] runs
    on until it returns, on the viewer as it is then; a glb or gltf load
    is then with the loader.
    [Deliver i]: the loader calls back for load [i], on the viewer as it
    is then. *)
Definition session_step (env : collaborators) (s : session)
    (e : session_event) : session :=
  match e with
  | SetProps settings modelUrl extension =>
      let v := if cleanup_armed s then effect_cleanup (view s)
               else view s in
      match prop_truthy modelUrl, prop_truthy extension with
      | Some url, Some extension' =>
          {| view := load_start url v;
             pending :=
               <[initiated s :=
                   mkRequest url (toLowerCase extension') settings]>
                 (pending s);
             decoding := decoding s;
             initiated := S (initiated s);
             cleanup_armed := true |}
      | _, _ =>
          {| view := setModel None v; pending := pending s;
             decoding := decoding s;
             initiated := initiated s; cleanup_armed := false |}
      end
  | Settle i =>
      match pending s !! i with
      | None => s
      | Some rq =>
          {| view := fst (load_decode env (rq_settings rq) (rq_url rq)
                            (rq_ext rq) (view s));
             pending := delete i (pending s);
             decoding :=
               match snd (load_decode env (rq_settings rq) (rq_url rq)
                            (rq_ext rq) (view s)) with
               | Some parsed => <[i := (rq, parsed)]> (decoding s)
               | None => decoding s
               end;
             initiated := initiated s;
             cleanup_armed := cleanup_armed s |}
      end
  | Deliver i =>
      match decoding s !! i with
      | None => s
      | Some (rq, parsed) =>
          {| view := load_callback env (rq_settings rq) (rq_ext rq) parsed
                       (view s);
             pending := pending s;
             decoding := delete i (decoding s);
             initiated := initiated s;
             cleanup_armed := cleanup_armed s |}
      end
  end.

Definition run (env : collaborators) (s : session)
    (trace : list session_event) : session :=
  foldl (session_step env) s trace.

Definition initial_session : session :=
  {| view := initial_viewer; pending := ∅; decoding := ∅; initiated := 0;
     cleanup_armed := false |}.

(** The events a call added to the log. *)
Definition new_events (before after : viewer) : list event :=
  drop (length (log before)) (log after).

Definition is_fetch (e : event) : bool :=
  match e with Fetch _ => true | _ => false end.

Definition is_parse (e : event) : bool :=
  match e with Parse _ => true | _ => false end.

Definition is_setModel (e : event) : bool :=
  match e with SetModel _ => true | _ => false end.

Definition supported (ext : string) : bool :=
  bool_decide (ext ∈ ["glb"; "gltf"; "obj"; "ply"; "pcd"; "xyz"]).

(** The unsupported-extension rule as the specification words it: the
    error is raised before any I/O and before any decode, and no model is
    installed. *)
Definition spec_unsupported_before_io (env : collaborators)
    (settings : SceneSettings) (url ext : string) (v : viewer) : Prop :=
  let v' := load_effect env settings (Some url) (Some ext) v in
  existsb is_fetch (new_events v v') = false
  /\ existsb is_parse (new_events v v') = false
  /\ existsb is_setModel (new_events v v') = false
  /\ model v' = model v.

(** The parser-failure rule as the specification words it: the status
    sink receives the parser's message itself. *)
Definition spec_error_verbatim (env : collaborators)
    (settings : SceneSettings) (url ext msg : string) (v : viewer) : Prop :=
  Status msg ∈ new_events v (loadModel env settings url ext v).



(** Collaborators and inputs for the examples. *)
Definition settings0 : SceneSettings :=
  {| autoRotate := false; wireframe := false; showSkeleton := false;
     playAnimation := true; activeAnimationIndex := 0;
     pointSize := 1 # 20 |}.

Definition failing (m : string) {A : Type} : buffer -> js_error + A :=
  fun _ => inl (mkError (Some m)).

(** Every fetch succeeds; the GLTF parser returns a one-triangle mesh for
    an empty buffer and a two-triangle mesh otherwise; every other parser
    rejects its input with the message ["bad header"]. *)
Definition env0 : collaborators :=
  {| fetch := fun url => inr (if str_eqb url "blob:a" then []
                              else [Byte.x01]);
     GLTF_parse := fun b =>
       inr (match b with
            | [] => mesh_node 3 NoMaterial
            | _ => mesh_node 6 NoMaterial
            end, []);
     OBJ_parse := failing "bad header";
     PLY_parse := failing "bad header";
     PCD_parse := failing "bad header";
     XYZ_parse := failing "bad header";
     type_error := mkError (Some "TypeError") |}.

(** The same configuration with the [ktx2] flag set to [b]. *)
Definition with_ktx2 (b : bool) (c : ExportConfig) : ExportConfig :=
  {| draco := draco c; ktx2 := b; fileName := fileName c |}.

(** What an export produced, without the name it was saved under. *)
Definition outcome_payload (o : export_outcome)
  : option (js_error + buffer) :=
  match o with
  | NotExported => None
  | Downloaded _ blob => Some (inr blob)
  | ExportThrown err => Some (inl err)
  end.

(** The store after an export and what it produced, without the name. *)
Definition export_effect (r : store * export_outcome)
  : store * option (js_error + buffer) :=
  (fst r, outcome_payload (snd r)).

(** A two-clip asset right after its load, and the same asset after the
    selection moved to the second clip. *)
Definition clipA : AnimationClip := mkClip 10 "Walk".
Definition clipB : AnimationClip := mkClip 11 "Run".

Definition loaded2 : viewer :=
  default initial_viewer
    (processResult "glb" settings0
       (GLTFResult (mesh_node 3 NoMaterial) [clipA; clipB]) initial_viewer).



(** The callback over the nodes of a walk, in order. *)
Fixpoint visit_all (ext : string) (rs : list Renderable) (st : stats)
  : list Renderable * stats :=
  match rs with
  | [] => ([], st)
  | r :: rest =>
      let '(r', s1) := visit_renderable ext r st in
      let '(rest', s2) := visit_all ext rest s1 in
      (r' :: rest', s2)
  end.

(** The triangle rule as the specification words it. *)
Definition spec_triangle_count (ext : string) (ps : Q)
    (result : parse_result) (next : nat) : Prop :=
  forall object anims md next',
    processResult_pure ext ps result next
    = Some (object, anims, md, next') ->
    md_triangles md = spec_triangles_floor object.

(** The material rule as the specification words it, on the scene that
    the parser returned. *)
Definition spec_material_count (ext : string) (ps : Q)
    (result : parse_result) (next : nat) : Prop :=
  forall parsed anims next1 object md next',
    normalize ext ps result next = Some (parsed, anims, next1) ->
    processResult_pure ext ps result next
    = Some (object, anims, md, next') ->
    md_materials md = spec_materials_unique parsed.

(** Two meshes that share the material [0], and a third with its own. *)
Definition shared_pair : Object3D :=
  group [mesh_node 3 (OneMaterial (plain_material 0));
         mesh_node 3 (OneMaterial (plain_material 0))].

Definition shared_pair_and_one : Object3D :=
  group [mesh_node 3 (OneMaterial (plain_material 0));
         mesh_node 3 (OneMaterial (plain_material 0));
         mesh_node 3 (OneMaterial (plain_material 1))].

(** An [.obj] scene with a mesh that carries an array of two materials
    without textures, and a mesh whose material has an albedo map (texture
    7) and a normal map (texture 8). *)
Definition textured_material (u : nat) : Material :=
  {| mat_uuid := u; mat_type := OtherMaterial;
     mat_color := Some 255%Z; mat_map := Some (mkTexture 7);
     mat_normalMap := Some (mkTexture 8); mat_roughnessMap := None;
     mat_metalnessMap := None; mat_emissiveMap := None;
     mat_roughness := 1; mat_metalness := 0;
     mat_wireframe := false; mat_size := 1;
     mat_vertexColors := false; mat_sizeAttenuation := true |}.

Definition array_and_textured : Object3D :=
  group [mesh_node 3 (MaterialArray [plain_material 0; plain_material 1]);
         mesh_node 3 (OneMaterial (textured_material 2))].

(** [uuids_below], as a proposition over the nodes of a walk. *)
Definition uuids_lt (n : nat) (rs : list Renderable) : Prop :=
  Forall (fun r => Forall (fun m => mat_uuid m < n)
                     (material_list (r_material r))) rs.

(** The representative asset of the specification: extents (2, 1, 1),
    seen by the canvas's default camera (position (5, 5, 5), field of view
    45 degrees) at aspect ratio [a]. *)
Definition box_2_1_1 : Box3 :=
  mkBox (mkV3 (-1) (-1 / 2) (-1 / 2)) (mkV3 1 (1 / 2) (1 / 2)).

Definition canvas_camera (a : R) : Camera :=
  {| cam_position := mkV3 5 5 5; fov := 45; aspect := a;
     near := 1 / 10; far := 1000 |}.

Definition shape_kids (sh : shape) : list shape :=
  match sh with Sh _ ks => ks end.

(** What a successful [clone] of the tree [sh] guarantees, from a store
    whose counter lies above every node of [sh]: the copy is numbered from
    the counter on, children after their parent; nothing below the counter
    is written; the copy has no parent and carries the data of the source;
    and it has the same corners as the source under every parent matrix. *)
Definition clone_ok (sh : shape) : Prop :=
  forall (s : store) (sh' : shape) (s' : store),
    wf_store s ->
    (forall id, id ∈ shape_ids sh -> id < next_id s) ->
    clone sh s = Some (sh', s') ->
    shape_root sh' = next_id s
    /\ next_id s < next_id s'
    /\ wf_store s'
    /\ (forall id, id < next_id s -> nodes s' !! id = nodes s !! id)
    /\ geometries s' = geometries s /\ materials s' = materials s
    /\ (forall id, id ∈ flat_map shape_ids (shape_kids sh') ->
                   next_id s < id)
    /\ (forall id, id ∈ shape_ids sh' -> next_id s <= id < next_id s')
    /\ (exists n', nodes s' !! next_id s = Some n' /\ n_parent n' = None)
    /\ data_at s' (next_id s) = data_at s (shape_root sh)
    /\ (forall f, world_corners s' f sh' = world_corners s f sh).

(** The same for the loop over the children of a copy [new]. *)
Definition clone_kids_ok (ks : list shape) : Prop :=
  forall (s : store) (new : nat) (ks' : list shape) (s' : store),
    wf_store s ->
    new < next_id s ->
    (forall id, id ∈ flat_map shape_ids ks -> id < new) ->
    clone_kids new ks s = Some (ks', s') ->
    next_id s <= next_id s'
    /\ wf_store s'
    /\ (forall id, id < next_id s -> id <> new ->
                   nodes s' !! id = nodes s !! id)
    /\ data_at s' new = data_at s new
    /\ n_parent <$> nodes s' !! new = n_parent <$> nodes s !! new
    /\ geometries s' = geometries s /\ materials s' = materials s
    /\ (forall id, id ∈ flat_map shape_ids ks' ->
                   next_id s <= id < next_id s')
    /\ (forall f, flat_map (world_corners s' f) ks'
                  = flat_map (world_corners s f) ks).



(** A store for the examples: a group at (1, 0, 0) (node 0) with one mesh
    child at (0, 2, 0) (node 1) whose geometry spans the unit cube. *)
Definition cube_points : list Vector3 :=
  [mkV3 0 0 0; mkV3 1 1 1].

Definition live_store : store :=
  {| nodes :=
       {[ 0 := {| n_position := mkV3 1 0 0;
                  n_quaternion := identity_quaternion;
                  n_scale := mkV3 1 1 1; n_geometry := None;
                  n_material := []; n_children := [1];
                  n_parent := None |};
          1 := {| n_position := mkV3 0 2 0;
                  n_quaternion := identity_quaternion;
                  n_scale := mkV3 1 1 1; n_geometry := Some 0;
                  n_material := [7]; n_children := [];
                  n_parent := Some 0 |} ]};
     geometries := {[ 0 := cube_points ]};
     materials := {[ 7 := plain_material 7 ]};
     next_id := 2 |}.

Definition live_model : shape := Sh 0 [Sh 1 []].

Definition no_exporter : store -> shape -> export_options -> js_error + buffer :=
  fun _ _ _ => inl (mkError (Some "encode failed")).

(* ===================================================================== *)
(** * Further parts of the viewer and of its caller *)
(* ===================================================================== *)

(** ** Reading the installed object *)

(** Position counts of all nodes that the statistics walk visits. *)
Definition all_positions (o : Object3D) : list nat :=
  omap (fun r => position (r_geometry r)) (renderables o).

(** Every node in walk order: its kind, if it is a mesh or a point cloud,
    and its [frustumCulled] flag. *)
Fixpoint node_flags (o : Object3D) : list (option renderable_kind * bool) :=
  match o with
  | Obj render _ fc cs =>
      (r_kind <$> render, fc) :: flat_map node_flags cs
  end.

(** The tree without what the walk assigns: material slots emptied and
    [frustumCulled] put back to its default. *)
Fixpoint bare (o : Object3D) : Object3D :=
  match o with
  | Obj render b _ cs =>
      Obj ((fun r => {| r_kind := r_kind r; r_geometry := r_geometry r;
                        r_material := NoMaterial |}) <$> render)
          b true (map bare cs)
  end.

(** The values of [uuid] of what sits in the five slots that the walk
    reads; [None] is the [undefined] that [Array.prototype.map] has for a
    [uuid]. *)
Definition texture_ids_of (rs : list Renderable) : gset (option nat) :=
  foldr add_textures ∅ (rs ≫= fun r => material_list (r_material r)).

Definition texture_ids (o : Object3D) : gset (option nat) :=
  texture_ids_of (renderables o).

(** ** The settings effect of [ModelManager] *)

(** [model.traverse(c => { if (c.isBone) hasBones = true })] *)
Fixpoint hasBones (o : Object3D) : bool :=
  match o with
  | Obj _ isBone _ cs => isBone || existsb hasBones cs
  end.

(** Materials are objects: an assignment through one node shows on every
    node that holds the same material. The identities the effect writes
    to: [wireframe] on every material of a mesh node, [size] and
    [sizeAttenuation] on the material of a point node (when the slot holds
    an array the assignment lands on the array, not on a material). *)
Definition wireframe_targets (o : Object3D) : gset nat :=
  material_ids_of (filter (fun r => isMesh (r_kind r) = true)
                          (renderables o)).

Definition point_material (r : Renderable) : list Material :=
  if isPoints (r_kind r) then
    match r_material r with
    | OneMaterial m => [m]
    | _ => []
    end
  else [].

Definition size_targets (o : Object3D) : gset nat :=
  list_to_set (mat_uuid <$> (renderables o ≫= point_material)).

Definition set_wireframe (w : bool) (m : Material) : Material :=
  {| mat_uuid := mat_uuid m; mat_type := mat_type m;
     mat_color := mat_color m; mat_map := mat_map m;
     mat_normalMap := mat_normalMap m;
     mat_roughnessMap := mat_roughnessMap m;
     mat_metalnessMap := mat_metalnessMap m;
     mat_emissiveMap := mat_emissiveMap m;
     mat_roughness := mat_roughness m; mat_metalness := mat_metalness m;
     mat_wireframe := w; mat_size := mat_size m;
     mat_vertexColors := mat_vertexColors m;
     mat_sizeAttenuation := mat_sizeAttenuation m |}.

Definition set_point_size (ps : Q) (m : Material) : Material :=
  {| mat_uuid := mat_uuid m; mat_type := mat_type m;
     mat_color := mat_color m; mat_map := mat_map m;
     mat_normalMap := mat_normalMap m;
     mat_roughnessMap := mat_roughnessMap m;
     mat_metalnessMap := mat_metalnessMap m;
     mat_emissiveMap := mat_emissiveMap m;
     mat_roughness := mat_roughness m; mat_metalness := mat_metalness m;
     mat_wireframe := mat_wireframe m; mat_size := ps;
     mat_vertexColors := mat_vertexColors m;
     mat_sizeAttenuation := true |}.

(** What the effect leaves in the material with the identity of [m]. *)
Definition restyle (settings : SceneSettings) (wt st : gset nat)
    (m : Material) : Material :=
  let m1 := if bool_decide (mat_uuid m ∈ wt)
            then set_wireframe (wireframe settings) m else m in
  if bool_decide (mat_uuid m ∈ st)
  then set_point_size (pointSize settings) m1 else m1.

Definition restyle_slot (f : Material -> Material) (s : material_slot)
  : material_slot :=
  match s with
  | NoMaterial => NoMaterial
  | OneMaterial m => OneMaterial (f m)
  | MaterialArray ms => MaterialArray (map f ms)
  end.

Fixpoint restyle_tree (f : Material -> Material) (o : Object3D)
  : Object3D :=
  match o with
  | Obj render b fc cs =>
      Obj ((fun r => {| r_kind := r_kind r; r_geometry := r_geometry r;
                        r_material := restyle_slot f (r_material r) |})
             <$> render)
          b
          (match render with
           | Some r => if isSkinnedMesh (r_kind r) then false else fc
           | None => fc
           end)
          (map (restyle_tree f) cs)
  end.

(** The first traversal of the settings effect, on a loaded model: skinned
    meshes lose frustum culling, and the materials are restyled. *)
Definition apply_settings (settings : SceneSettings) (o : Object3D)
  : Object3D :=
  restyle_tree (restyle settings (wireframe_targets o) (size_targets o)) o.

(** The skeleton overlay: the helper the ref holds (named by the model it
    was built for) and whether it is in the scene. *)
Record overlay := mkOverlay {
  skeletonHelper : option Object3D;
  helper_in_scene : bool
}.

Definition no_overlay : overlay :=
  {| skeletonHelper := None; helper_in_scene := false |}.

(** The skeleton part of the settings effect. The effect returns at once
    when there is no model. *)
Definition skeleton_effect (settings : SceneSettings)
    (m : option Object3D) (ov : overlay) : overlay :=
  match m with
  | None => ov
  | Some o =>
      if showSkeleton settings then
        if hasBones o then
          match skeletonHelper ov with
          | None => {| skeletonHelper := Some o; helper_in_scene := true |}
          | Some _ => ov
          end
        else ov
      else
        match skeletonHelper ov with
        | Some _ => no_overlay
        | None => ov
        end
  end.

(** The skeleton line of the load effect's cleanup:
    [if (skeletonHelper.current) scene.remove(skeletonHelper.current)].
    The ref keeps the helper. *)
Definition cleanup_overlay (ov : overlay) : overlay :=
  match skeletonHelper ov with
  | Some h => {| skeletonHelper := Some h; helper_in_scene := false |}
  | None => ov
  end.

(** ** The caller: state and handlers of [App] *)

Inductive AppState := IDLE | LOADING | VIEWING | OPTIMIZING.

(** What [handleFileUpload] reads of the chosen file, with the URL that
    [URL.createObjectURL] returns for it. *)
Record File := mkFile {
  file_name : string;
  file_size : nat;
  file_url : string
}.

(** [ModelMetadata] of [types.ts]: the three fields that [App] fills at
    upload, and the six that the viewer reports. *)
Record FileMetadata := mkFileMetadata {
  fm_name : string;
  fm_size : nat;
  fm_format : string;
  fm_details : ModelMetadata
}.

Record ExportSettings := mkExportSettings {
  es_draco : bool;
  es_ktx2 : bool
}.

Record app := mkApp {
  appState : AppState;
  modelUrl : option string;
  extension : option string;
  metadata : option FileMetadata;
  sceneSettings : SceneSettings;
  exportSettings : ExportSettings;
  exportProgress : PrimFloat.float;
  isExportModalOpen : bool
}.

Definition initial_app : app :=
  {| appState := IDLE; modelUrl := None; extension := None;
     metadata := None;
     sceneSettings :=
       {| autoRotate := false; wireframe := false; showSkeleton := false;
          playAnimation := true; activeAnimationIndex := 0;
          pointSize := 5 # 100 |};
     exportSettings := {| es_draco := false; es_ktx2 := false |};
     exportProgress := PrimFloat.zero; isExportModalOpen := false |}.

(** The characters after the last dot, all of them when there is none:
    [name.split('.').pop()]. *)
Fixpoint until_dot (l : list ascii) : list ascii :=
  match l with
  | [] => []
  | c :: rest =>
      if bool_decide (c = "."%char) then [] else c :: until_dot rest
  end.

Definition last_segment (name : string) : string :=
  string_of_list_ascii
    (reverse (until_dot (reverse (list_ascii_of_string name)))).

(** [file.name.split('.').pop()?.toLowerCase() || ''] *)
Definition file_extension (name : string) : string :=
  toLowerCase (last_segment name).

Definition no_details : ModelMetadata :=
  {| md_vertices := 0; md_triangles := 0; md_meshes := 0;
     md_materials := 0; md_textures := 0; md_animations := [] |}.

Definition handleFileUpload (file : option File) (a : app) : app :=
  match file with
  | None => a
  | Some f =>
      let ext := file_extension (file_name f) in
      {| appState := LOADING; modelUrl := Some (file_url f);
         extension := Some ext;
         metadata := Some {| fm_name := file_name f;
                             fm_size := file_size f;
                             fm_format := toUpperCase ext;
                             fm_details := no_details |};
         sceneSettings := sceneSettings a;
         exportSettings := exportSettings a;
         exportProgress := exportProgress a;
         isExportModalOpen := isExportModalOpen a |}
  end.

Definition reset_index (s : SceneSettings) : SceneSettings :=
  {| autoRotate := autoRotate s; wireframe := wireframe s;
     showSkeleton := showSkeleton s; playAnimation := playAnimation s;
     activeAnimationIndex := 0; pointSize := pointSize s |}.

(** [{ ...prev, ...details }]: the viewer's six fields replace the old
    ones, name, size and format stay. *)
Definition handleMetadataLoaded (details : ModelMetadata) (a : app) : app :=
  {| appState := VIEWING; modelUrl := modelUrl a; extension := extension a;
     metadata :=
       match metadata a with
       | Some prev => Some {| fm_name := fm_name prev;
                              fm_size := fm_size prev;
                              fm_format := fm_format prev;
                              fm_details := details |}
       | None => None
       end;
     sceneSettings := reset_index (sceneSettings a);
     exportSettings := exportSettings a;
     exportProgress := exportProgress a;
     isExportModalOpen := isExportModalOpen a |}.

Definition set_exportSettings (f : ExportSettings -> ExportSettings)
    (a : app) : app :=
  {| appState := appState a; modelUrl := modelUrl a;
     extension := extension a; metadata := metadata a;
     sceneSettings := sceneSettings a;
     exportSettings := f (exportSettings a);
     exportProgress := exportProgress a;
     isExportModalOpen := isExportModalOpen a |}.

Definition toggleDraco : app -> app :=
  set_exportSettings
    (fun s => {| es_draco := negb (es_draco s); es_ktx2 := false |}).

Definition toggleKTX2 : app -> app :=
  set_exportSettings
    (fun s => {| es_draco := false; es_ktx2 := negb (es_ktx2 s) |}).

Definition reset (a : app) : app :=
  {| appState := IDLE; modelUrl := None; extension := None;
     metadata := None; sceneSettings := sceneSettings a;
     exportSettings := exportSettings a;
     exportProgress := exportProgress a;
     isExportModalOpen := isExportModalOpen a |}.

(** The configuration that [handleExport] passes to [exportModel]:
    [{ ...exportSettings, fileName: metadata.name }]. *)
Definition export_config (s : ExportSettings) (md : FileMetadata)
  : ExportConfig :=
  {| draco := es_draco s; ktx2 := es_ktx2 s; fileName := fm_name md |}.

(** ** The progress bar of [handleExport]

    The numbers of the progress bar are JavaScript numbers, IEEE 754
    doubles, and the arithmetic on them is that of the doubles. *)

Section ProgressBar.
Import PrimFloat.

(** [exportSettings.ktx2 || exportSettings.draco ? 3500 : 1500] *)
Definition export_duration (s : ExportSettings) : float :=
  if es_ktx2 s || es_draco s then 3500%float else 1500%float.

Definition intervalTime : float := 40%float.

(** [steps = duration / intervalTime; increment = 100 / steps] *)
Definition progress_increment (s : ExportSettings) : float :=
  (100 / (export_duration s / intervalTime))%float.

(** [Math.min] on two numbers: [NaN] if one of them is, and [-0] below
    [+0]. *)
Definition Math_min (x y : float) : float :=
  if is_nan x || is_nan y then nan
  else if (x <? y)%float then x
  else if (y <? x)%float then y
  else if is_zero x && get_sign x then x else y.

(** One run of the interval callback's updater. *)
Definition progress_tick (s : ExportSettings) (prev : float) : float :=
  if (100 <=? prev)%float then 100%float
  else Math_min (prev + progress_increment s)%float 100%float.

(** The progress shown after [n] runs, from the 0 that [handleExport]
    sets. *)
Definition progress_after (s : ExportSettings) (n : nat) : float :=
  Nat.iter n (progress_tick s) 0%float.

End ProgressBar.

(** How many runs of the interval fit before the export is fired by the
    timeout, at [duration + 500] milliseconds: one every 40. *)
Definition ticks_before_export (s : ExportSettings) : Z :=
  ((if es_ktx2 s || es_draco s then 3500 else 1500) + 500) / 40.

(** A sequence of clicks on the two compression toggles. *)
Inductive toggle := ClickDraco | ClickKTX2.

Definition click (a : app) (t : toggle) : app :=
  match t with
  | ClickDraco => toggleDraco a
  | ClickKTX2 => toggleKTX2 a
  end.

(** ** Loads and animation switches, interleaved *)

Inductive viewer_op :=
| OpSession (e : session_event)
| OpSelect (settings : SceneSettings).

Definition set_view (v : viewer) (s : session) : session :=
  {| view := v; pending := pending s; decoding := decoding s;
     initiated := initiated s; cleanup_armed := cleanup_armed s |}.

Definition op_step (env : collaborators) (s : session) (op : viewer_op)
  : session :=
  match op with
  | OpSession e => session_step env s e
  | OpSelect settings => set_view (animation_effect settings (view s)) s
  end.

(** The active action, when there is one, is the action of a clip of the
    current list and the mixer holds it. *)
Definition anim_consistent (v : viewer) : Prop :=
  match activeAction v with
  | Some c => c ∈ clips v /\ is_Some (action_of v c)
  | None => True
  end.

Definition is_metadata (e : event) : bool :=
  match e with Metadata _ => true | _ => false end.

Definition metadata_calls (v : viewer) : nat :=
  length (filter (fun e => is_metadata e = true) (log v)).

(** Every action of the viewer's mixer is stopped. *)
Definition all_stopped (v : viewer) : Prop :=
  match mixer v with
  | Some m => forall k a, actions m !! k = Some a -> act_playing a = false
  | None => True
  end.

(** What the walk does to the kind and flag of a node. *)
Definition cull_skinned (p : option renderable_kind * bool)
  : option renderable_kind * bool :=
  match p with
  | (Some SkinnedMesh, _) => (Some SkinnedMesh, false)
  | _ => p
  end.

(** What the settings effect does to one mesh or point node, given what
    it leaves in each material. *)
Definition restyle_node (f : Material -> Material) (r : Renderable)
  : Renderable :=
  {| r_kind := r_kind r; r_geometry := r_geometry r;
     r_material := restyle_slot f (r_material r) |}.

Definition with_showSkeleton (b : bool) (s : SceneSettings)
  : SceneSettings :=
  {| autoRotate := autoRotate s; wireframe := wireframe s;
     showSkeleton := b; playAnimation := playAnimation s;
     activeAnimationIndex := activeAnimationIndex s;
     pointSize := pointSize s |}.

(* ===================================================================== *)
(** * Properties *)
(* ===================================================================== *)

(** ** Strings and the log *)

Lemma str_eqb_true (a b : string) : str_eqb a b = true <-> a = b.
Proof. unfold str_eqb. apply bool_decide_eq_true. Qed.

Lemma str_eqb_false (a b : string) : str_eqb a b = false <-> a <> b.
Proof. unfold str_eqb. apply bool_decide_eq_false. Qed.

Lemma new_events_app (v v' : viewer) (es : list event) :
  log v' = log v ++ es -> new_events v v' = es.
Proof.
  intros H. unfold new_events. rewrite H. apply drop_app_length.
Qed.

Lemma log_emit (e : event) (v : viewer) : log (emit e v) = log v ++ [e].
Proof. reflexivity. Qed.

Lemma supported_false_parse_for (env : collaborators) (ext : string)
    (b : buffer) :
  supported ext = false -> parse_for env ext b = None.
Proof.
  unfold supported. rewrite bool_decide_eq_false. intros H.
  unfold parse_for.
  assert (Hne : forall x, x ∈ ["glb"; "gltf"; "obj"; "ply"; "pcd"; "xyz"]
                          -> str_eqb ext x = false).
  { intros x Hx. apply str_eqb_false. intros ->. exact (H Hx). }
  rewrite !Hne; [reflexivity | set_solver..].
Qed.

Lemma supported_true_parse_for (env : collaborators) (ext : string)
    (b : buffer) :
  supported ext = true -> is_Some (parse_for env ext b).
Proof.
  unfold supported. rewrite bool_decide_eq_true.
  rewrite !elem_of_cons, elem_of_nil.
  intros [->|[->|[->|[->|[->|[->|[]]]]]]]; vm_compute; eauto.
Qed.

(** ** C6: classification of a parsed [.ply] geometry *)

(** C6. For every geometry parsed from a [.ply] file: without an index
    buffer, or with an empty one, normalisation wraps it in a [Points] node
    with a points material; with a non-empty index buffer it wraps it in a
    [Mesh] node with the default standard material (grey [0x808080],
    roughness and metalness one half). The object that is installed after
    the statistics walk is of the same kind. *)
Theorem ply_classification (g : BufferGeometry) (ps : Q) (next : nat) :
  match index g with
  | None | Some 0 =>
      normalize "ply" ps (GeometryResult g) next
      = Some (leaf {| r_kind := Points; r_geometry := g;
                      r_material :=
                        OneMaterial (new_PointsMaterial next ps
                                       (has_color g)) |},
              [], S next)
      /\ exists md n',
          processResult_pure "ply" ps (GeometryResult g) next
          = Some (leaf {| r_kind := Points; r_geometry := g;
                          r_material :=
                            OneMaterial (new_PointsMaterial next ps
                                           (has_color g)) |},
                  [], md, n')
  | Some (S _) =>
      normalize "ply" ps (GeometryResult g) next
      = Some (leaf {| r_kind := Mesh; r_geometry := g;
                      r_material :=
                        OneMaterial
                          (new_MeshStandardMaterial next 8421504%Z None
                             (1 # 2) (1 # 2)) |},
              [], S next)
      /\ exists md n',
          processResult_pure "ply" ps (GeometryResult g) next
          = Some (leaf {| r_kind := Mesh; r_geometry := g;
                          r_material :=
                            OneMaterial
                              (new_MeshStandardMaterial (S next)
                                 8421504%Z None (6 # 10) (2 # 10)) |},
                  [], md, n')
  end.
Proof.
  destruct g as [pos [[|k]|] col]; cbn [index];
    (split; [reflexivity |]);
    destruct pos; eexists _, _; reflexivity.
Qed.

(** ** C10: the [ktx2] flag and the encoder *)

(** C10. For every exporter, clip list, model, store and configuration:
    the options handed to the exporter, the store after the export and the
    bytes (or the error) it produced are the same with [ktx2] set and
    unset; the options carry no texture-compression request at all (only
    [binary], [animations], [truncateDrawRange] and, under [draco],
    [dracoOptions]); the flag shows only in the download name, as the
    [_ktx2] suffix. *)
Theorem ktx2_only_renames
    (exporter : store -> shape -> export_options -> js_error + buffer)
    (config : ExportConfig) (cl : list AnimationClip)
    (model : option shape) (s : store) :
  make_options (with_ktx2 true config) cl
  = make_options (with_ktx2 false config) cl
  /\ make_options config cl
     = {| binary := true; animations := cl; truncateDrawRange := true;
          dracoOptions := if draco config then Some 7 else None |}
  /\ (export_effect
        <$> exportModel exporter (with_ktx2 true config) cl model s)
     = (export_effect
        <$> exportModel exporter (with_ktx2 false config) cl model s)
  /\ download_name (with_ktx2 true config)
     = (strip_extension (fileName config)
        +:+ (if draco config then "_draco_ktx2" else "_ktx2")
        +:+ ".glb")%string
  /\ download_name (with_ktx2 false config)
     = (strip_extension (fileName config)
        +:+ (if draco config then "_draco" else "_optimized")
        +:+ ".glb")%string.
Proof.
  split; [reflexivity |]. split; [reflexivity |]. split.
  - unfold exportModel. destruct model as [m|]; [| reflexivity].
    destruct (prepare_export m s) as [[exportScene s']|]; [| reflexivity].
    change (make_options (with_ktx2 true config) cl)
      with (make_options (with_ktx2 false config) cl).
    destruct (exporter _ _ _); reflexivity.
  - destruct config as [[] k name]; split; reflexivity.
Qed.

Example export_names :
  download_name {| draco := true; ktx2 := false; fileName := "robot.gltf" |}
  = "robot_draco.glb"
  /\ download_name
       {| draco := false; ktx2 := false; fileName := "robot.gltf" |}
     = "robot_optimized.glb"
  /\ download_name
       {| draco := true; ktx2 := true; fileName := "a.b/robot" |}
     = "a.b/robot_draco_ktx2.glb".
Proof. vm_compute. done. Qed.

(** ** C3: unsupported extensions *)

(** The claim of C3 fails on the code: for ["model.stl"]'s extension the
    buffer is fetched before the error is reported. *)
Lemma unsupported_is_fetched_first :
  new_events initial_viewer
    (load_effect env0 settings0 (Some "blob:a") (Some "STL")
       initial_viewer)
  = [Status "Fetching data stream..."; Fetch "blob:a";
     Status "Decoding STL payloads...";
     Status "Error: Unsupported format: stl"]
  /\ ~ spec_unsupported_before_io env0 settings0 "blob:a" "STL"
         initial_viewer.
Proof.
  split; [vm_compute; reflexivity |].
  unfold spec_unsupported_before_io. intros [H _].
  vm_compute in H. discriminate H.
Qed.

(** C3, as the code has it. For every non-empty URL and every non-empty
    extension that, lowercased, is none of glb, gltf, obj, ply, pcd, xyz:
    the load announces the fetch and fetches the buffer first; if the
    fetch succeeds it announces the decode and then reports
    ["Error: Unsupported format: <ext>"] through the status sink, and if
    the fetch fails it reports that failure instead. No parser is called,
    [setModel] is not called, and the viewer's model, mixer, clips and
    active action are what they were. *)
Theorem unsupported_extension_reported (env : collaborators)
    (settings : SceneSettings) (url ext : string) (v : viewer) :
  url <> ""%string -> ext <> ""%string ->
  supported (toLowerCase ext) = false ->
  let v' := load_effect env settings (Some url) (Some ext) v in
  new_events v v'
  = match fetch env url with
    | inr _ =>
        [Status "Fetching data stream..."; Fetch url;
         Status ("Decoding " +:+ toUpperCase (toLowerCase ext)
                 +:+ " payloads...");
         Status ("Error: Unsupported format: " +:+ toLowerCase ext)]
    | inl err =>
        [Status "Fetching data stream..."; Fetch url;
         Status ("Error: " +:+ message_or_default err)]
    end
  /\ existsb is_parse (new_events v v') = false
  /\ existsb is_setModel (new_events v v') = false
  /\ model v' = model v /\ mixer v' = mixer v /\ clips v' = clips v
  /\ activeAction v' = activeAction v.
Proof.
  intros Hurl Hext Hsup v'.
  assert (Hev : new_events v v'
    = match fetch env url with
      | inr _ =>
          [Status "Fetching data stream..."; Fetch url;
           Status ("Decoding " +:+ toUpperCase (toLowerCase ext)
                   +:+ " payloads...");
           Status ("Error: Unsupported format: " +:+ toLowerCase ext)]
      | inl err =>
          [Status "Fetching data stream..."; Fetch url;
           Status ("Error: " +:+ message_or_default err)]
      end
    /\ model v' = model v /\ mixer v' = mixer v /\ clips v' = clips v
    /\ activeAction v' = activeAction v).
  { subst v'. unfold load_effect, prop_truthy.
    apply str_eqb_false in Hurl, Hext. rewrite Hurl, Hext.
    unfold loadModel, load_finish, with_result.
    destruct (fetch env url) as [err|b].
    - split; [| done]. apply new_events_app. cbn.
      rewrite <- !app_assoc. reflexivity.
    - rewrite (supported_false_parse_for env _ b Hsup).
      split; [| done]. apply new_events_app. cbn.
      rewrite <- !app_assoc. reflexivity. }
  destruct Hev as (Hev & Hrest). split; [exact Hev |].
  rewrite Hev. split; [| split]; [| | exact Hrest];
    destruct (fetch env url); reflexivity.
Qed.

Lemma unsupported_extension_reported_witness :
  new_events initial_viewer
    (load_effect env0 settings0 (Some "blob:a") (Some "STL")
       initial_viewer)
  = [Status "Fetching data stream..."; Fetch "blob:a";
     Status "Decoding STL payloads...";
     Status "Error: Unsupported format: stl"].
Proof.
  refine (proj1 (unsupported_extension_reported env0 settings0
                   "blob:a" "STL" initial_viewer _ _ _)).
  - discriminate.
  - discriminate.
  - vm_compute. reflexivity.
Defined.

(** ** C5: parser failures *)

(** The claim of C5 fails on the code: the status sink does not receive
    the parser's message itself but a line that starts with ["Error: "]. *)
Lemma parser_message_is_prefixed :
  new_events initial_viewer
    (loadModel env0 settings0 "blob:a" "obj" initial_viewer)
  = [Status "Fetching data stream..."; Fetch "blob:a";
     Status "Decoding OBJ payloads..."; Parse "obj";
     Status "Error: bad header"]
  /\ ~ spec_error_verbatim env0 settings0 "blob:a" "obj" "bad header"
         initial_viewer.
Proof.
  assert (Hev : new_events initial_viewer
            (loadModel env0 settings0 "blob:a" "obj" initial_viewer)
          = [Status "Fetching data stream..."; Fetch "blob:a";
             Status "Decoding OBJ payloads..."; Parse "obj";
             Status "Error: bad header"])
    by (vm_compute; reflexivity).
  split; [exact Hev |].
  unfold spec_error_verbatim. rewrite Hev.
  rewrite !elem_of_cons, elem_of_nil.
  intuition discriminate.
Qed.

(** C5, as the code has it. For every load whose buffer was fetched and
    whose format parser fails with an error that carries a non-empty
    message: the status sink receives ["Error: "] followed by that message,
    character for character; [setModel] is not called and the viewer's
    model, mixer, clips, active action and counter are what they were. *)
Theorem parser_error_reported (env : collaborators)
    (settings : SceneSettings) (url ext msg : string) (v : viewer)
    (b : buffer) (err : js_error) :
  fetch env url = inr b ->
  parse_for env ext b = Some (inl err) ->
  message err = Some msg -> msg <> ""%string ->
  let v' := loadModel env settings url ext v in
  new_events v v'
  = [Status "Fetching data stream..."; Fetch url;
     Status ("Decoding " +:+ toUpperCase ext +:+ " payloads...");
     Parse ext; Status ("Error: " +:+ msg)]
  /\ existsb is_setModel (new_events v v') = false
  /\ model v' = model v /\ mixer v' = mixer v /\ clips v' = clips v
  /\ activeAction v' = activeAction v
  /\ uuid_counter v' = uuid_counter v.
Proof.
  intros Hf Hp Hm Hne v'.
  assert (Hev : new_events v v'
    = [Status "Fetching data stream..."; Fetch url;
       Status ("Decoding " +:+ toUpperCase ext +:+ " payloads...");
       Parse ext; Status ("Error: " +:+ msg)]).
  { subst v'. unfold loadModel, load_finish, with_result.
    rewrite Hf, Hp. unfold handleError, message_or_default.
    rewrite Hm. apply str_eqb_false in Hne. rewrite Hne.
    apply new_events_app. cbn. rewrite <- !app_assoc. reflexivity. }
  split; [exact Hev |]. rewrite Hev. split; [reflexivity |].
  subst v'. unfold loadModel, load_finish, with_result.
  rewrite Hf, Hp. done.
Qed.

Lemma parser_error_reported_witness :
  new_events initial_viewer
    (loadModel env0 settings0 "blob:a" "ply" initial_viewer)
  = [Status "Fetching data stream..."; Fetch "blob:a";
     Status "Decoding PLY payloads..."; Parse "ply";
     Status "Error: bad header"].
Proof.
  refine (proj1 (parser_error_reported env0 settings0 "blob:a" "ply"
                   "bad header" initial_viewer []
                   (mkError (Some "bad header")) _ _ _ _));
    [reflexivity | reflexivity | reflexivity | discriminate].
Defined.

(** ** C7: switching the active animation *)

Lemma restart_with_fade_eq (a : action_state) :
  restart_with_fade a
  = {| act_playing := true; act_time := 0;
       act_fade := Some (FadeIn fade_time) |}.
Proof. reflexivity. Qed.

Lemma clipAction_lookup (m : AnimationMixer) (c : AnimationClip) :
  is_Some (actions (clipAction m c) !! clip_uuid c).
Proof.
  unfold clipAction. destruct (actions m !! clip_uuid c) eqn:E; cbn.
  - rewrite E. eauto.
  - rewrite lookup_insert_eq. eauto.
Qed.




(** ** C9: loads in flight *)

Lemma run_app (env : collaborators) (s : session)
    (t1 t2 : list session_event) :
  run env s (t1 ++ t2) = run env (run env s t1) t2.
Proof. unfold run. apply foldl_app. Qed.

(** A load that runs without another one coming in between is
    [load_finish]: what [loadModel] does until it returns, followed by
    the loader's callback when there is one. *)
Lemma load_finish_split (env : collaborators) (settings : SceneSettings)
    (url ext : string) (v : viewer) :
  load_finish env settings url ext v
  = match snd (load_decode env settings url ext v) with
    | Some parsed =>
        load_callback env settings ext parsed
          (fst (load_decode env settings url ext v))
    | None => fst (load_decode env settings url ext v)
    end.
Proof.
  unfold load_finish, load_decode, load_callback, with_result.
  destruct (fetch env url) as [err|b]; [reflexivity |].
  destruct (parse_for env ext b) as [parsed|]; [| reflexivity].
  destruct (is_interchange ext); reflexivity.
Qed.

Lemma processResult_installs (env : collaborators) (ext : string)
    (settings : SceneSettings) (result : parse_result) (v : viewer)
    (object : Object3D) (anims : list AnimationClip) (md : ModelMetadata)
    (next : nat) :
  processResult_pure ext (pointSize settings) result (uuid_counter v)
  = Some (object, anims, md, next) ->
  model (processResult_or_error env ext settings result v) = Some object
  /\ clips (processResult_or_error env ext settings result v) = anims
  /\ log (processResult_or_error env ext settings result v)
     = log v ++ [SetModel (Some object); Metadata md; FrameLater].
Proof.
  intros H. unfold processResult_or_error, processResult. rewrite H.
  destruct (start_first_clip anims) as [mx act]. done.
Qed.




(** ** The statistics walk, node by node *)

Lemma Object3D_ind' (P : Object3D -> Prop) :
  (forall render b fc cs, Forall P cs -> P (Obj render b fc cs)) ->
  forall o, P o.
Proof.
  intros H. fix IH 1. intros [render b fc cs]. apply H.
  induction cs as [|c cs IHcs]; constructor; [apply IH | exact IHcs].
Qed.

Lemma traverse_unfold (ext : string) render b fc cs (st : stats) :
  traverse ext (Obj render b fc cs) st
  = let '(render', fc', st1) := visit ext render fc st in
    let '(cs', st2) := traverse_list ext cs st1 in
    (Obj render' b fc' cs', st2).
Proof.
  cbn [traverse]. destruct (visit ext render fc st) as [[render' fc'] st1].
  match goal with
  | |- (let '(_, _) := ?f cs st1 in _) = _ =>
      assert (E : forall l s, f l s = traverse_list ext l s)
  end.
  { induction l as [|c l IHl]; intros s; [reflexivity |].
    cbn [traverse_list]. destruct (traverse ext c s) as [c' sa].
    rewrite IHl. reflexivity. }
  rewrite E. reflexivity.
Qed.

Lemma visit_all_app (ext : string) (a b : list Renderable) (st : stats) :
  visit_all ext (a ++ b) st
  = let '(a', s1) := visit_all ext a st in
    let '(b', s2) := visit_all ext b s1 in
    (a' ++ b', s2).
Proof.
  revert st. induction a as [|r a IHa]; intros st; cbn.
  - destruct (visit_all ext b st). reflexivity.
  - destruct (visit_renderable ext r st) as [r' s1]. rewrite IHa.
    destruct (visit_all ext a s1) as [a' s2].
    destruct (visit_all ext b s2). reflexivity.
Qed.

(** The walk over the tree is the callback over its nodes in order. *)
Lemma traverse_visit_all (ext : string) (o : Object3D) :
  forall st,
    visit_all ext (renderables o) st
    = (renderables (fst (traverse ext o st)), snd (traverse ext o st)).
Proof.
  induction o as [render b fc cs IH] using Object3D_ind'. intros st.
  rewrite traverse_unfold. cbn [renderables].
  assert (Hcs : forall s,
    visit_all ext (flat_map renderables cs) s
    = (flat_map renderables (fst (traverse_list ext cs s)),
       snd (traverse_list ext cs s))).
  { induction IH as [|c l Hc _ IHl]; intros s; [reflexivity |].
    cbn [flat_map traverse_list]. rewrite visit_all_app, Hc.
    destruct (traverse ext c s) as [c' sa]. cbn [fst snd].
    rewrite IHl. destruct (traverse_list ext l sa) as [l' sb].
    reflexivity. }
  rewrite visit_all_app.
  destruct render as [r|]; cbn [visit visit_all].
  - destruct (visit_renderable ext r st) as [r' s1]. rewrite Hcs.
    destruct (traverse_list ext cs s1) as [cs' s2]. reflexivity.
  - rewrite Hcs. destruct (traverse_list ext cs st) as [cs' s2].
    reflexivity.
Qed.

Lemma foldl_count_material (ms : list Material) (st : stats) :
  let st' := foldl count_material st ms in
  vertices st' = vertices st /\ triangles st' = triangles st
  /\ meshes st' = meshes st /\ next_uuid st' = next_uuid st
  /\ materialsCount st'
     = list_to_set (mat_uuid <$> ms) ∪ materialsCount st.
Proof.
  revert st. induction ms as [|m ms IH]; intros st; cbn.
  - repeat split. set_solver.
  - destruct (IH (count_material st m)) as (H1 & H2 & H3 & H4 & H5).
    cbn in *. repeat split; try assumption.
    rewrite H5. set_solver.
Qed.

(** What one call of the callback does to the node and to the counters. *)
Lemma visit_renderable_spec (ext : string) (r : Renderable) (st : stats) :
  let r' := fst (visit_renderable ext r st) in
  let st' := snd (visit_renderable ext r st) in
  let replaced := negb (is_interchange ext) && has_mesh_material r in
  r_kind r' = r_kind r /\ r_geometry r' = r_geometry r
  /\ r' = (if replaced
           then {| r_kind := r_kind r; r_geometry := r_geometry r;
                   r_material :=
                     OneMaterial
                       (new_MeshStandardMaterial (next_uuid st)
                          (default 13421772%Z (slot_color (r_material r)))
                          (slot_map (r_material r)) (6 # 10) (2 # 10)) |}
           else r)
  /\ next_uuid st' = (if replaced then S (next_uuid st) else next_uuid st)
  /\ triangles st'
     = match mesh_position r with
       | Some c => (triangles st + (Z.of_nat c # 3))%Q
       | None => triangles st
       end
  /\ materialsCount st'
     = list_to_set (mat_uuid <$> material_list (r_material r'))
       ∪ materialsCount st.
Proof.
  unfold visit_renderable, replace_material, has_mesh_material, mesh_position,
    count_geometry.
  rewrite <- andb_assoc.
  destruct (negb (is_interchange ext)
            && (isMesh (r_kind r) && material_truthy (r_material r)));
    cbn [fst snd];
    match goal with
    | |- context [foldl count_material ?s ?ms] =>
        destruct (foldl_count_material ms s) as (_ & Ht & _ & Hn & Hm)
    end;
    rewrite Ht, Hn, Hm;
    destruct (position (r_geometry r)), (isMesh (r_kind r));
    cbn; repeat split; set_solver.
Qed.

Lemma sum_thirds_closed (l : list nat) :
  (sum_thirds l == Z.of_nat (sum_list l) # 3)%Q.
Proof.
  induction l as [|c l IH]; cbn [sum_thirds foldr sum_list].
  - reflexivity.
  - fold (sum_thirds l). rewrite IH. unfold Qeq, Qplus. cbn. lia.
Qed.

Lemma round_of_thirds (z : Z) :
  Math_round (z # 3) = ((z + 1) / 3)%Z.
Proof.
  unfold Math_round, Qplus. cbn.
  change (Z.pos (3 * 2)) with 6%Z.
  pose proof (Z.div_mod (z + 1) 3 ltac:(lia)) as Hdm.
  pose proof (Z.mod_pos_bound (z + 1) 3 ltac:(lia)) as Hb.
  replace (z * 2 + 1 * 3)%Z
    with (((z + 1) / 3) * 6 + (2 * ((z + 1) mod 3) + 1))%Z by lia.
  rewrite Z.div_add_l by lia.
  rewrite (Z.div_small (2 * ((z + 1) mod 3) + 1) 6) by lia.
  lia.
Qed.

Lemma Math_round_comp (x y : Q) : (x == y)%Q -> Math_round x = Math_round y.
Proof. intros H. unfold Math_round. apply Qfloor_comp. rewrite H. reflexivity. Qed.

(** Over a walk: kinds and geometries stay, and the triangle accumulator
    grows by [count / 3] for each mesh node with a position attribute. *)
Lemma visit_all_triangles (ext : string) (rs : list Renderable) :
  forall st,
    omap mesh_position (fst (visit_all ext rs st)) = omap mesh_position rs
    /\ (triangles (snd (visit_all ext rs st))
        == triangles st + sum_thirds (omap mesh_position rs))%Q.
Proof.
  induction rs as [|r rs IH]; intros st; cbn [visit_all].
  - cbn. split; [reflexivity | ring].
  - pose proof (visit_renderable_spec ext r st) as (Hk & Hg & _ & _ & Ht & _).
    destruct (visit_renderable ext r st) as [r' s1]. cbn [fst snd] in *.
    destruct (IH s1) as [IH1 IH2].
    destruct (visit_all ext rs s1) as [rs' s2]. cbn [fst snd] in *.
    assert (Hmp : mesh_position r' = mesh_position r)
      by (unfold mesh_position; rewrite Hk, Hg; reflexivity).
    cbn [omap list_omap]. rewrite Hmp, IH1. split; [reflexivity |].
    rewrite IH2, Ht.
    destruct (mesh_position r) as [c|]; cbn [sum_thirds foldr].
    + fold (sum_thirds (omap mesh_position rs)). ring.
    + reflexivity.
Qed.

(** Over a walk: the material set grows by the identities found on the
    nodes as the walk leaves them. *)
Lemma visit_all_materials (ext : string) (rs : list Renderable) :
  forall st,
    materialsCount (snd (visit_all ext rs st))
    = material_ids_of (fst (visit_all ext rs st)) ∪ materialsCount st.
Proof.
  induction rs as [|r rs IH]; intros st; cbn [visit_all].
  - cbn. unfold material_ids_of. set_solver.
  - pose proof (visit_renderable_spec ext r st) as (_ & _ & _ & _ & _ & Hm).
    destruct (visit_renderable ext r st) as [r' s1]. cbn [fst snd] in *.
    specialize (IH s1).
    destruct (visit_all ext rs s1) as [rs' s2]. cbn [fst snd] in *.
    rewrite IH, Hm. unfold material_ids_of. cbn.
    rewrite fmap_app, list_to_set_app_L. set_solver.
Qed.

(** On interchange formats the walk leaves every node as it found it. *)
Lemma visit_all_interchange (ext : string) (rs : list Renderable) :
  is_interchange ext = true ->
  forall st, fst (visit_all ext rs st) = rs.
Proof.
  intros Hi. induction rs as [|r rs IH]; intros st; cbn [visit_all].
  - reflexivity.
  - pose proof (visit_renderable_spec ext r st) as (_ & _ & Hr & _).
    rewrite Hi in Hr. cbn in Hr.
    destruct (visit_renderable ext r st) as [r' s1]. cbn [fst snd] in *.
    specialize (IH s1).
    destruct (visit_all ext rs s1) as [rs' s2]. cbn [fst snd] in *.
    congruence.
Qed.

Lemma uuids_below_lt (n : nat) (o : Object3D) :
  uuids_below n o = true -> uuids_lt n (renderables o).
Proof.
  unfold uuids_below, uuids_lt. rewrite forallb_forall, Forall_forall.
  intros H r Hr. specialize (H r (proj1 (list_elem_of_In _ _) Hr)).
  rewrite forallb_forall in H. apply Forall_forall. intros m Hm.
  apply Nat.ltb_lt, H, list_elem_of_In, Hm.
Qed.

Lemma material_ids_of_cons (r : Renderable) (rs : list Renderable) :
  material_ids_of (r :: rs)
  = list_to_set (mat_uuid <$> material_list (r_material r))
    ∪ material_ids_of rs.
Proof.
  unfold material_ids_of. cbn. rewrite fmap_app, list_to_set_app_L.
  reflexivity.
Qed.

(** On the other formats every mesh node with a material leaves the walk
    with a material of its own, numbered from the counter; the point
    nodes keep theirs. *)
Lemma visit_all_replaced (ext : string) (rs : list Renderable) :
  is_interchange ext = false ->
  forall st,
    uuids_lt (next_uuid st) rs ->
    let k := length (filter (fun r => has_mesh_material r = true) rs) in
    next_uuid (snd (visit_all ext rs st)) = next_uuid st + k
    /\ material_ids_of (fst (visit_all ext rs st))
       = set_seq (next_uuid st) k
         ∪ material_ids_of (filter (fun r => isMesh (r_kind r) = false) rs).
Proof.
  intros Hi. induction rs as [|r rs IH]; intros st Hlt; cbn [visit_all].
  - cbn. split; [lia |]. unfold material_ids_of. set_solver.
  - pose proof (visit_renderable_spec ext r st) as (_ & _ & Hr & Hn & _).
    rewrite Hi in Hr, Hn. cbn [negb andb] in Hr, Hn.
    destruct (visit_renderable ext r st) as [r' s1]. cbn [fst snd] in *.
    apply Forall_cons in Hlt as [Hr_lt Hrs_lt].
    assert (Hlt1 : uuids_lt (next_uuid s1) rs).
    { eapply Forall_impl; [exact Hrs_lt |]. intros x Hx.
      eapply Forall_impl; [exact Hx |]. cbn. intros m Hm.
      rewrite Hn. destruct (has_mesh_material r); lia. }
    destruct (IH s1 Hlt1) as [IHn IHm].
    destruct (visit_all ext rs s1) as [rs' s2]. cbn [fst snd] in *.
    rewrite !filter_cons, material_ids_of_cons, IHm, IHn, Hn.
    unfold has_mesh_material in *.
    destruct (isMesh (r_kind r)) eqn:Ek;
      destruct (material_truthy (r_material r)) eqn:Em;
      cbn [andb] in *; subst r'.
    + rewrite decide_True by reflexivity.
      rewrite decide_False by discriminate.
      cbn [length set_seq r_material material_list]. split; [lia |].
      cbn. set_solver.
    + rewrite decide_False by discriminate.
      rewrite decide_False by discriminate.
      split; [lia |].
      destruct (r_material r); [| discriminate Em..].
      cbn. set_solver.
    + rewrite decide_False by discriminate.
      rewrite decide_True by reflexivity.
      split; [lia |]. rewrite material_ids_of_cons. set_solver.
    + rewrite decide_False by discriminate.
      rewrite decide_True by reflexivity.
      split; [lia |]. rewrite material_ids_of_cons. set_solver.
Qed.

Lemma processResult_pure_walk (ext : string) (ps : Q)
    (result : parse_result) (next : nat) (object : Object3D)
    (anims : list AnimationClip) (md : ModelMetadata) (next' : nat) :
  processResult_pure ext ps result next = Some (object, anims, md, next') ->
  exists parsed next1 st,
    normalize ext ps result next = Some (parsed, anims, next1)
    /\ visit_all ext (renderables parsed) (stats0 next1)
       = (renderables object, st)
    /\ md = metadata_of st anims.
Proof.
  unfold processResult_pure.
  destruct (normalize ext ps result next) as [[[parsed a] next1]|];
    [| discriminate].
  pose proof (traverse_visit_all ext parsed (stats0 next1)) as Hw.
  destruct (traverse ext parsed (stats0 next1)) as [o' st].
  cbn [fst snd] in Hw. intros [= <- <- <- <-].
  exists parsed, next1, st. done.
Qed.

(** ** C1: the triangle count *)

(** The claim of C1 fails on the code: a single mesh with five vertices
    yields [5 / 3] rounded to the nearest integer, 2, where rounding down
    gives 1. *)
Lemma triangle_count_is_not_floor :
  processResult_pure "glb" (1 # 20)
    (GLTFResult (mesh_node 5 NoMaterial) []) 0
  = Some (mesh_node 5 NoMaterial, [],
          {| md_vertices := 5; md_triangles := 2; md_meshes := 1;
             md_materials := 0; md_textures := 0; md_animations := [] |}, 0)
  /\ spec_triangles_floor (mesh_node 5 NoMaterial) = 1%Z
  /\ ~ spec_triangle_count "glb" (1 # 20)
         (GLTFResult (mesh_node 5 NoMaterial) []) 0.
Proof.
  assert (H1 : processResult_pure "glb" (1 # 20)
                 (GLTFResult (mesh_node 5 NoMaterial) []) 0
               = Some (mesh_node 5 NoMaterial, [],
                       {| md_vertices := 5; md_triangles := 2;
                          md_meshes := 1; md_materials := 0;
                          md_textures := 0; md_animations := [] |}, 0))
    by (vm_compute; reflexivity).
  split; [exact H1 |]. split; [reflexivity |].
  intros H. specialize (H _ _ _ _ H1). discriminate H.
Qed.

(** C1, as the code has it. For every load that succeeds, the triangle
    count in the metadata is the sum, over the mesh nodes of the installed
    object that expose a position attribute, of that attribute's count
    divided by 3, rounded once at the end to the nearest integer (with
    [Math.round], not downwards): with [S] the sum of the counts it is
    [(S + 1) / 3] in integer division. In particular a single mesh whose
    position count is 3000 yields 1000. *)
Theorem triangle_count_rounds_to_nearest (ext : string) (ps : Q)
    (result : parse_result) (next : nat) (object : Object3D)
    (anims : list AnimationClip) (md : ModelMetadata) (next' : nat) :
  processResult_pure ext ps result next = Some (object, anims, md, next') ->
  md_triangles md = Math_round (sum_thirds (mesh_positions object))
  /\ md_triangles md
     = ((Z.of_nat (sum_list (mesh_positions object)) + 1) / 3)%Z.
Proof.
  intros H.
  destruct (processResult_pure_walk _ _ _ _ _ _ _ _ H)
    as (parsed & next1 & st & _ & Hw & ->).
  destruct (visit_all_triangles ext (renderables parsed) (stats0 next1))
    as [Hpos Htri].
  rewrite Hw in Hpos, Htri. cbn [fst snd] in Hpos, Htri.
  assert (E : md_triangles (metadata_of st anims)
              = Math_round (sum_thirds (mesh_positions object))).
  { cbn [metadata_of md_triangles]. apply Math_round_comp.
    unfold mesh_positions. rewrite Htri, Hpos. cbn. ring. }
  split; [exact E |].
  rewrite E, <- round_of_thirds. apply Math_round_comp, sum_thirds_closed.
Qed.

Lemma triangle_count_rounds_to_nearest_witness :
  md_triangles
    {| md_vertices := 3000; md_triangles := 1000; md_meshes := 1;
       md_materials := 1; md_textures := 0; md_animations := [] |}
  = ((Z.of_nat
        (sum_list
           (mesh_positions (mesh_node 3000 (OneMaterial (plain_material 0)))))
      + 1) / 3)%Z.
Proof.
  refine (proj2 (triangle_count_rounds_to_nearest "glb" (1 # 20)
                   (GLTFResult
                      (mesh_node 3000 (OneMaterial (plain_material 0))) [])
                   1 _ [] _ 1 _)).
  vm_compute. reflexivity.
Defined.

Example triangles_of_3000_and_of_1000 :
  (md_triangles <$>
     (processResult_pure "glb" (1 # 20)
        (GLTFResult (mesh_node 3000 NoMaterial) []) 0
        ≫= fun '(_, _, md, _) => Some md)) = Some 1000%Z
  /\ (md_triangles <$>
        (processResult_pure "glb" (1 # 20)
           (GLTFResult (mesh_node 1000 NoMaterial) []) 0
           ≫= fun '(_, _, md, _) => Some md)) = Some 333%Z.
Proof. vm_compute. done. Qed.

(** ** C2: the material count *)

(** The claim of C2 fails on the code: in an [.obj] scene two meshes that
    share one material are counted as two, because the walk gives each of
    them a new material before it collects the identities. *)
Lemma shared_material_counted_twice :
  normalize "obj" (1 # 20) (ObjectResult shared_pair) 1
  = Some (shared_pair, [], 1)
  /\ spec_materials_unique shared_pair = 1
  /\ (md_materials <$>
        (processResult_pure "obj" (1 # 20) (ObjectResult shared_pair) 1
           ≫= fun '(_, _, md, _) => Some md)) = Some 2
  /\ ~ spec_material_count "obj" (1 # 20) (ObjectResult shared_pair) 1.
Proof.
  split; [reflexivity |]. split; [vm_compute; reflexivity |].
  split; [vm_compute; reflexivity |].
  assert (E : exists o md n,
             processResult_pure "obj" (1 # 20) (ObjectResult shared_pair) 1
             = Some (o, [], md, n) /\ md_materials md = 2).
  { eexists _, _, _. split; vm_compute; reflexivity. }
  destruct E as (o & md & n & E & Hmd).
  intros H. specialize (H shared_pair [] 1 o md n eq_refl E).
  rewrite Hmd in H. vm_compute in H. discriminate H.
Qed.

Lemma material_ids_below (n : nat) (rs : list Renderable)
    (P : Renderable -> Prop) `{Hdec : !forall r, Decision (P r)} :
  uuids_lt n rs -> forall x, x ∈ material_ids_of (filter P rs) -> x < n.
Proof.
  unfold uuids_lt, material_ids_of. rewrite Forall_forall.
  intros H x Hx.
  apply elem_of_list_to_set, list_elem_of_fmap in Hx as (m & -> & Hm).
  apply list_elem_of_bind in Hm as (r & Hm & Hr).
  apply list_elem_of_filter in Hr as [_ Hr].
  specialize (H r Hr). rewrite Forall_forall in H. exact (H m Hm).
Qed.

(** C2, as the code has it. For every load that succeeds on a parsed
    scene whose material identities are all older than the counter: the
    material count is the number of unique material identities of the
    object that is installed. On the interchange formats (glb, gltf) that
    is the number of unique identities of the parsed scene, so two meshes
    sharing a material count once. On every other format each mesh node
    with a material received a material of its own during the walk, so
    the count is the number of such mesh nodes plus the number of unique
    identities on the point nodes: two meshes sharing a material count
    twice. *)
Theorem material_count (ext : string) (ps : Q) (result : parse_result)
    (next : nat) (parsed : Object3D) (anims : list AnimationClip)
    (next1 : nat) :
  normalize ext ps result next = Some (parsed, anims, next1) ->
  uuids_below next1 parsed = true ->
  exists object md next',
    processResult_pure ext ps result next = Some (object, anims, md, next')
    /\ md_materials md = size (material_ids object)
    /\ md_materials md
       = if is_interchange ext then size (material_ids parsed)
         else mesh_material_nodes parsed + size (points_material_ids parsed).
Proof.
  intros Hn Hb. unfold processResult_pure. rewrite Hn.
  pose proof (traverse_visit_all ext parsed (stats0 next1)) as Hw.
  destruct (traverse ext parsed (stats0 next1)) as [object st].
  cbn [fst snd] in Hw. eexists _, _, _. split; [reflexivity |].
  cbn [metadata_of md_materials].
  pose proof (visit_all_materials ext (renderables parsed) (stats0 next1))
    as Hm.
  rewrite Hw in Hm. cbn [fst snd stats0 materialsCount] in Hm.
  assert (E : materialsCount st = material_ids object)
    by (rewrite Hm; unfold material_ids; set_solver).
  rewrite E. split; [reflexivity |].
  destruct (is_interchange ext) eqn:Hi.
  - pose proof (visit_all_interchange ext (renderables parsed) Hi
                  (stats0 next1)) as Hsame.
    rewrite Hw in Hsame. cbn [fst] in Hsame.
    unfold material_ids. rewrite Hsame. reflexivity.
  - apply uuids_below_lt in Hb.
    destruct (visit_all_replaced ext (renderables parsed) Hi
                (stats0 next1) Hb) as [_ Hids].
    rewrite Hw in Hids. cbn [fst stats0 next_uuid] in Hids.
    unfold material_ids. rewrite Hids.
    rewrite size_union.
    + rewrite size_set_seq. reflexivity.
    + intros x Hx1 Hx2. apply elem_of_set_seq in Hx1.
      apply (material_ids_below next1 _ _ Hb) in Hx2. lia.
Qed.

Lemma material_count_witness :
  exists object md next',
    processResult_pure "glb" (1 # 20) (GLTFResult shared_pair_and_one []) 2
    = Some (object, [], md, next')
    /\ md_materials md = size (material_ids object)
    /\ md_materials md = 2.
Proof.
  refine (material_count "glb" (1 # 20) (GLTFResult shared_pair_and_one [])
            2 shared_pair_and_one [] 2 _ _); reflexivity.
Defined.

Example material_counts :
  (md_materials <$>
     (processResult_pure "glb" (1 # 20) (GLTFResult shared_pair []) 1
        ≫= fun '(_, _, md, _) => Some md)) = Some 1
  /\ (md_materials <$>
        (processResult_pure "gltf" (1 # 20)
           (GLTFResult shared_pair_and_one []) 2
           ≫= fun '(_, _, md, _) => Some md)) = Some 2
  /\ (md_materials <$>
        (processResult_pure "obj" (1 # 20)
           (ObjectResult shared_pair_and_one) 2
           ≫= fun '(_, _, md, _) => Some md)) = Some 3.
Proof. vm_compute. done. Qed.

(** ** C4: camera framing *)

Section Framing.
Local Open Scope R_scope.

Lemma PI_upper : PI < 329 / 100.
Proof.
  pose proof (PI_ineq 3) as [_ H].
  unfold tg_alt, PI_tg in H. cbn in H.
  lra.
Qed.

Lemma tan_PI8_lower : 414 / 1000 < tan (PI / 8).
Proof.
  assert (Hpi := PI_RGT_0). assert (Hpi4 := PI_4).
  assert (Hc : 0 < cos (PI / 8)) by (apply cos_gt_0; lra).
  assert (Hs : 0 < sin (PI / 8)) by (apply sin_gt_0; lra).
  pose proof (sin_2a (PI / 8)) as H1.
  pose proof (cos_2a (PI / 8)) as H2.
  replace (2 * (PI / 8)) with (PI / 4) in H1, H2 by lra.
  pose proof sin_cos_PI4 as H3. rewrite H1, H2 in H3.
  unfold tan.
  set (s := sin (PI / 8)) in *. set (c := cos (PI / 8)) in *.
  apply (Rmult_lt_reg_r c); [exact Hc |].
  unfold Rdiv at 2. rewrite Rmult_assoc, Rinv_l by lra.
  nra.
Qed.

Lemma atan_PI8_bounds : 0 < atan (PI / 8) < 41125 / 100000.
Proof.
  assert (Hpi := PI_RGT_0). assert (Hu := PI_upper).
  assert (Ht := tan_PI8_lower).
  split.
  - rewrite <- atan_0. apply atan_increasing. lra.
  - apply Rlt_trans with (PI / 8); [| lra].
    rewrite <- (atan_tan (PI / 8)) at 2 by lra.
    apply atan_increasing. lra.
Qed.

Lemma Rltb_false (x y : R) : y <= x -> Rltb x y = false.
Proof. intros H. unfold Rltb. destruct (Rlt_dec x y); [lra | reflexivity]. Qed.

Lemma num_or_nonzero (x d : R) : x <> 0 -> num_or x d = x.
Proof.
  intros H. unfold num_or. destruct (Req_dec_T x 0); [contradiction | reflexivity].
Qed.

Lemma Rmax_scale_pos (k x y : R) :
  0 <= k -> Rmax (k * x) (k * y) = k * Rmax x y.
Proof. intros H. apply RmaxRmult. exact H. Qed.

(** A camera that is not at the centre ends up at the computed distance
    from it. *)
Lemma v_length_scale_normalize (v : Vector3) (d : R) :
  v_length v <> 0 -> 0 <= d ->
  v_length (v_scale (v_normalize v) d) = d.
Proof.
  intros Hl Hd. unfold v_normalize. rewrite (num_or_nonzero _ _ Hl).
  unfold v_length in *. cbn [v_scale vx vy vz].
  set (S := vx v * vx v + vy v * vy v + vz v * vz v) in *.
  assert (HS : 0 <= S) by (unfold S; nra).
  replace (vx v * / sqrt S * d * (vx v * / sqrt S * d)
           + vy v * / sqrt S * d * (vy v * / sqrt S * d)
           + vz v * / sqrt S * d * (vz v * / sqrt S * d))
    with (S * (/ sqrt S * / sqrt S) * (d * d)) by (unfold S; ring).
  rewrite <- Rinv_mult, sqrt_sqrt by exact HS.
  rewrite Rinv_r.
  - rewrite Rmult_1_l. apply sqrt_square. exact Hd.
  - intros E. apply Hl. rewrite E. apply sqrt_0.
Qed.

Lemma fit_gap (A T : R) :
  0 < A < 41125 / 100000 -> 414 / 1000 < T ->
  1 / T + 1 / 100 < 1 / A.
Proof.
  intros [HA1 HA2] HT.
  assert (H1 : 1 / T < 1000 / 414).
  { apply (Rmult_lt_reg_r T); [lra |]. unfold Rdiv.
    rewrite Rmult_assoc, Rinv_l by lra. lra. }
  assert (H2 : 100000 / 41125 < 1 / A).
  { apply (Rmult_lt_reg_r A); [lra |]. unfold Rdiv at 2.
    rewrite Rmult_assoc, Rinv_l by lra. lra. }
  lra.
Qed.

(** C4. On the representative asset (extents (2, 1, 1), field of view 45
    degrees, any positive aspect ratio, the camera at (5, 5, 5)) the camera
    is placed, along its former direction from the box centre, at the
    distance the code computes: 1.2 times the larger of
    [maxSize / (2 * atan (pi * fov / 360))] and that value divided by the
    aspect ratio. The code takes the arc tangent where the fit formula
    [maxSize / (2 * tan (fov / 2))] has the tangent, and the two distances
    differ by more than 0.01, far beyond any rounding of floating-point
    arithmetic. *)
Theorem frame_distance_is_not_the_tangent_fit (a : R) :
  0 < a ->
  maxSize_of (getSize box_2_1_1) = 2
  /\ v_length (v_sub (cam_position
                       (fst (frameCamera box_2_1_1 (canvas_camera a) None)))
                    (getCenter box_2_1_1))
     = frame_distance 2 45 a
  /\ frame_distance 2 45 a
     = 12 / 10 * Rmax (1 / atan (PI / 8)) (1 / atan (PI / 8) / a)
  /\ spec_frame_distance 2 45 a
     = 12 / 10 * Rmax (1 / tan (PI / 8)) (1 / tan (PI / 8) / a)
  /\ spec_frame_distance 2 45 a + 1 / 100 < frame_distance 2 45 a.
Proof.
  intros Ha.
  pose proof atan_PI8_bounds as [HA1 HA2].
  pose proof tan_PI8_lower as HT.
  assert (Hsize : getSize box_2_1_1 = mkV3 2 1 1).
  { unfold getSize, box_isEmpty, box_2_1_1. cbn [box_min box_max vx vy vz].
    rewrite !Rltb_false by lra. cbn. unfold v_sub. cbn. f_equal; lra. }
  assert (Hcenter : getCenter box_2_1_1 = v_zero).
  { unfold getCenter, box_isEmpty, box_2_1_1. cbn [box_min box_max vx vy vz].
    rewrite !Rltb_false by lra. cbn. unfold v_scale, v_add, v_zero. cbn.
    f_equal; lra. }
  assert (Hmax : maxSize_of (getSize box_2_1_1) = 2).
  { rewrite Hsize. unfold maxSize_of. cbn.
    rewrite (Rmax_left 2 1) by lra. apply Rmax_left. lra. }
  assert (Hcode : frame_distance 2 45 a
                  = 12 / 10 * Rmax (1 / atan (PI / 8))
                                   (1 / atan (PI / 8) / a)).
  { unfold frame_distance, fitWidthDistance, fitHeightDistance.
    rewrite (num_or_nonzero 45) by lra. rewrite (num_or_nonzero a) by lra.
    replace (PI * 45 / 360) with (PI / 8) by lra.
    replace (2 / (2 * atan (PI / 8))) with (1 / atan (PI / 8))
      by (field; lra).
    reflexivity. }
  assert (Hspec : spec_frame_distance 2 45 a
                  = 12 / 10 * Rmax (1 / tan (PI / 8))
                                   (1 / tan (PI / 8) / a)).
  { unfold spec_frame_distance, spec_fit_height.
    replace (PI * 45 / 360) with (PI / 8) by lra.
    replace (2 / (2 * tan (PI / 8))) with (1 / tan (PI / 8))
      by (field; lra).
    reflexivity. }
  assert (Hgap : 1 / tan (PI / 8) + 1 / 100 < 1 / atan (PI / 8))
    by (apply fit_gap; [split |]; assumption).
  assert (HiT : 0 < 1 / tan (PI / 8)).
  { apply Rdiv_lt_0_compat; lra. }
  assert (Hlt : spec_frame_distance 2 45 a + 1 / 100
                < frame_distance 2 45 a).
  { rewrite Hcode, Hspec.
    replace (1 / tan (PI / 8) / a) with (1 / tan (PI / 8) * (1 / a))
      by (field; lra).
    replace (1 / atan (PI / 8) / a) with (1 / atan (PI / 8) * (1 / a))
      by (field; lra).
    rewrite <- (Rmult_1_r (1 / tan (PI / 8))) at 1.
    rewrite <- (Rmult_1_r (1 / atan (PI / 8))) at 1.
    rewrite !Rmax_scale_pos by lra.
    assert (Hm : 1 <= Rmax 1 (1 / a)) by apply Rmax_l.
    nra. }
  split; [exact Hmax |]. split; [| split; [exact Hcode |
                                 split; [exact Hspec | exact Hlt]]].
  unfold frameCamera. cbn [fst cam_position canvas_camera fov aspect].
  rewrite Hmax, Hcenter.
  assert (E : forall p, v_sub (v_add p v_zero) v_zero = p).
  { intros [x y z]. unfold v_sub, v_add, v_zero. cbn. f_equal; lra. }
  rewrite E.
  assert (E' : v_sub (mkV3 5 5 5) v_zero = mkV3 5 5 5).
  { unfold v_sub, v_zero. cbn. f_equal; lra. }
  rewrite E'.
  apply v_length_scale_normalize.
  - unfold v_length. cbn. intros H0.
    assert (H75 : 0 < sqrt (5 * 5 + 5 * 5 + 5 * 5)) by (apply sqrt_lt_R0; lra).
    lra.
  - pose proof (Rmax_l (1 / tan (PI / 8)) (1 / tan (PI / 8) / a)).
    rewrite Hspec in Hlt. lra.
Qed.

Lemma frame_distance_is_not_the_tangent_fit_witness :
  spec_frame_distance 2 45 1 + 1 / 100 < frame_distance 2 45 1.
Proof.
  refine (proj2 (proj2 (proj2 (proj2
            (frame_distance_is_not_the_tangent_fit 1 _))))).
  lra.
Defined.

End Framing.

(** ** The store under [alloc], [add] and [clone] *)

Lemma shape_ind' (P : shape -> Prop) :
  (forall r kids, Forall P kids -> P (Sh r kids)) -> forall sh, P sh.
Proof.
  intros H. fix IH 1. intros [r kids]. apply H.
  induction kids as [|k kids IHk]; constructor; [apply IH | exact IHk].
Qed.

Lemma clone_unfold (r : nat) (kids : list shape) (s : store) :
  clone (Sh r kids) s
  = match nodes s !! r with
    | None => None
    | Some n =>
        let '(new, s1) :=
          alloc {| n_position := n_position n;
                   n_quaternion := n_quaternion n;
                   n_scale := n_scale n; n_geometry := n_geometry n;
                   n_material := n_material n;
                   n_children := []; n_parent := None |} s in
        match clone_kids new kids s1 with
        | None => None
        | Some (kids', s2) => Some (Sh new kids', s2)
        end
    end.
Proof.
  cbn [clone]. destruct (nodes s !! r) as [n|]; [| reflexivity].
  cbn [alloc].
  match goal with
  | |- match ?f kids ?s1 with _ => _ end = _ =>
      assert (E : forall l st, f l st = clone_kids (next_id s) l st)
  end.
  { induction l as [|k l IHl]; intros st; [reflexivity |].
    cbn [clone_kids]. destruct (clone k st) as [[k' s']|]; [| reflexivity].
    rewrite IHl. reflexivity. }
  rewrite E. reflexivity.
Qed.

(** [add] touches the child's parent field and the parent's children, and
    nothing of what [clone] copies. *)
Lemma add_next_id (p c : nat) (s : store) :
  next_id (add p c s) = next_id s
  /\ geometries (add p c s) = geometries s
  /\ materials (add p c s) = materials s.
Proof. unfold add. destruct (nodes s !! c); done. Qed.

Lemma alter_data (f : Node -> Node) (k : nat) (m : gmap nat Node)
    (id : nat) :
  (forall n, node_data (f n) = node_data n) ->
  node_data <$> alter f k m !! id = node_data <$> m !! id.
Proof.
  intros Hf. rewrite lookup_alter. case_decide as E; [| reflexivity].
  subst k. destruct (m !! id) as [n|];
    [exact (f_equal Some (Hf n)) | reflexivity].
Qed.

Lemma add_data (p c : nat) (s : store) (id : nat) :
  data_at (add p c s) id = data_at s id.
Proof.
  unfold add, data_at. destruct (nodes s !! c) as [cn|]; [| reflexivity].
  cbn [set_nodes nodes].
  rewrite !alter_data by reflexivity.
  destruct (n_parent cn); [| reflexivity].
  rewrite alter_data by reflexivity. reflexivity.
Qed.

Lemma add_frame (p c : nat) (s : store) (cn : Node) (id : nat) :
  nodes s !! c = Some cn -> n_parent cn = None ->
  id <> p -> id <> c ->
  nodes (add p c s) !! id = nodes s !! id.
Proof.
  intros Hc Hp H1 H2. unfold add. rewrite Hc, Hp. cbn [set_nodes nodes].
  rewrite !lookup_alter_ne by congruence. reflexivity.
Qed.

Lemma add_is_Some (p c : nat) (s : store) (id : nat) :
  is_Some (nodes (add p c s) !! id) <-> is_Some (nodes s !! id).
Proof.
  pose proof (add_data p c s id) as H. unfold data_at in H.
  destruct (nodes (add p c s) !! id), (nodes s !! id);
    cbn in H; try discriminate; split; intros [x Hx]; eauto; discriminate.
Qed.

Lemma add_wf (p c : nat) (s : store) : wf_store s -> wf_store (add p c s).
Proof.
  intros H id Hid. destruct (add_next_id p c s) as [-> _].
  apply add_is_Some in Hid. apply H in Hid. exact Hid.
Qed.

Lemma add_parent_other (p c : nat) (s : store) (cn : Node) (id : nat) :
  nodes s !! c = Some cn -> n_parent cn = None -> id <> c ->
  n_parent <$> nodes (add p c s) !! id = n_parent <$> nodes s !! id.
Proof.
  intros Hc Hp Hne. unfold add. rewrite Hc, Hp. cbn [set_nodes nodes].
  rewrite lookup_alter. case_decide as E.
  - subst p. rewrite lookup_alter_ne by congruence.
    destruct (nodes s !! id); reflexivity.
  - rewrite lookup_alter_ne by congruence. reflexivity.
Qed.

(** The corners that the box is built from depend only on what [clone]
    copies. *)
Lemma local_matrix_data (n n' : Node) :
  node_data n = node_data n' -> local_matrix n = local_matrix n'.
Proof.
  destruct n, n'. unfold node_data. cbn. intros [= -> -> -> -> ->].
  reflexivity.
Qed.

Lemma geometry_corners_data (s s' : store) (n n' : Node) :
  geometries s = geometries s' -> node_data n = node_data n' ->
  geometry_corners s n = geometry_corners s' n'.
Proof.
  destruct n, n'. unfold node_data, geometry_corners. cbn.
  intros -> [= -> -> -> -> ->]. reflexivity.
Qed.

Lemma world_corners_ext (sh : shape) :
  forall (s1 s2 : store) (f : Vector3 -> Vector3),
    geometries s1 = geometries s2 ->
    (forall id, id ∈ shape_ids sh -> data_at s1 id = data_at s2 id) ->
    world_corners s1 f sh = world_corners s2 f sh.
Proof.
  induction sh as [r kids IH] using shape_ind'. intros s1 s2 f Hg Hd.
  cbn [world_corners].
  pose proof (Hd r ltac:(cbn; set_solver)) as Hr. unfold data_at in Hr.
  destruct (nodes s1 !! r) as [n1|], (nodes s2 !! r) as [n2|];
    cbv [fmap option_fmap option_map] in Hr; try discriminate;
    [| reflexivity].
  assert (Hn : node_data n1 = node_data n2) by congruence.
  clear Hr. rename Hn into Hr.
  rewrite (local_matrix_data _ _ Hr), (geometry_corners_data _ _ _ _ Hg Hr).
  f_equal.
  assert (Hk : forall id, id ∈ flat_map shape_ids kids
                          -> data_at s1 id = data_at s2 id).
  { intros id Hid. apply Hd. cbn. set_solver. }
  clear Hd Hr. generalize (fun p => f (local_matrix n2 p)). intros w.
  induction IH as [|k l Hk1 _ IHl]; [reflexivity |].
  cbn [flat_map]. f_equal.
  - apply Hk1; [exact Hg |]. intros id Hid. apply Hk. cbn.
    apply elem_of_app. left. exact Hid.
  - apply IHl. intros id Hid. apply Hk. cbn.
    apply elem_of_app. right. exact Hid.
Qed.

Lemma world_corners_list_ext (ks : list shape) (s1 s2 : store)
    (f : Vector3 -> Vector3) :
  geometries s1 = geometries s2 ->
  (forall id, id ∈ flat_map shape_ids ks -> data_at s1 id = data_at s2 id) ->
  flat_map (world_corners s1 f) ks = flat_map (world_corners s2 f) ks.
Proof.
  intros Hg. induction ks as [|k ks IH]; intros Hd; [reflexivity |].
  cbn [flat_map]. f_equal.
  - apply world_corners_ext; [exact Hg |]. intros id Hid. apply Hd. cbn.
    apply elem_of_app. left. exact Hid.
  - apply IH. intros id Hid. apply Hd. cbn.
    apply elem_of_app. right. exact Hid.
Qed.

Lemma world_corners_post (sh : shape) :
  forall (s : store) (f g : Vector3 -> Vector3),
    world_corners s (fun p => g (f p)) sh = map g (world_corners s f sh).
Proof.
  induction sh as [r kids IH] using shape_ind'. intros s f g.
  cbn [world_corners]. destruct (nodes s !! r) as [n|]; [| reflexivity].
  rewrite map_app, map_map. f_equal.
  set (w := fun q => f (local_matrix n q)).
  change (fun p => g (f (local_matrix n p))) with (fun p => g (w p)).
  clearbody w.
  induction IH as [|k l Hk _ IHl]; [reflexivity |].
  cbn [flat_map]. rewrite map_app, Hk, IHl. reflexivity.
Qed.

Lemma world_corners_list_post (ks : list shape) (s : store)
    (f g : Vector3 -> Vector3) :
  flat_map (world_corners s (fun p => g (f p))) ks
  = map g (flat_map (world_corners s f) ks).
Proof.
  induction ks as [|k ks IH]; [reflexivity |].
  cbn [flat_map]. rewrite map_app, world_corners_post, IH. reflexivity.
Qed.

Lemma data_at_of_nodes (s s' : store) (id : nat) :
  nodes s' !! id = nodes s !! id -> data_at s' id = data_at s id.
Proof. unfold data_at. intros ->. reflexivity. Qed.

Lemma clone_kids_step (ks : list shape) :
  Forall clone_ok ks -> clone_kids_ok ks.
Proof.
  induction 1 as [|k rest Hk _ IH]; intros s new ks' s' Hwf Hnew Hids Hc.
  - cbn in Hc. injection Hc as <- <-.
    repeat apply conj; try done. intros id Hid. cbn in Hid. set_solver.
  - cbn [clone_kids] in Hc.
    destruct (clone k s) as [[k' s1]|] eqn:Ek; [| discriminate].
    destruct (clone_kids new rest (add new (shape_root k') s1))
      as [[rest' s2]|] eqn:Er; [| discriminate].
    injection Hc as <- <-.
    assert (Hidk : forall id, id ∈ shape_ids k -> id < next_id s).
    { intros id Hid. assert (id < new); [| lia].
      apply Hids. cbn. apply elem_of_app. left. exact Hid. }
    destruct (Hk s k' s1 Hwf Hidk Ek)
      as (A1 & A2 & A3 & A4 & A5 & A6 & _ & A8 & (n' & A9 & A10) & _ & A12).
    rewrite A1 in Er.
    set (sa := add new (next_id s) s1) in *.
    destruct (add_next_id new (next_id s) s1) as (N1 & N2 & N3).
    fold sa in N1, N2, N3.
    assert (Hwfa : wf_store sa) by (apply add_wf; exact A3).
    assert (Hidr : forall id, id ∈ flat_map shape_ids rest -> id < new).
    { intros id Hid. apply Hids. cbn. apply elem_of_app. right. exact Hid. }
    assert (Hnewa : new < next_id sa) by lia.
    destruct (IH sa new rest' s2 Hwfa Hnewa Hidr Er)
      as (B1 & B2 & B3 & B4 & B5 & B6 & B7 & B8 & B9).
    assert (Fa : forall id, id < next_id s -> id <> new ->
                            nodes sa !! id = nodes s !! id).
    { intros id Hid Hne. unfold sa.
      rewrite (add_frame _ _ _ _ _ A9 A10) by lia. apply A4. exact Hid. }
    repeat apply conj.
    + lia.
    + exact B2.
    + intros id Hid Hne. rewrite B3 by lia. apply Fa; assumption.
    + rewrite B4. unfold sa. rewrite add_data.
      apply data_at_of_nodes, A4. exact Hnew.
    + rewrite B5. unfold sa.
      rewrite (add_parent_other _ _ _ _ _ A9 A10) by lia.
      rewrite A4 by exact Hnew. reflexivity.
    + congruence.
    + congruence.
    + intros id H. cbn in H. rewrite elem_of_app in H.
      destruct H as [H|H].
      * apply A8 in H. lia.
      * apply B8 in H. lia.
    + intros f. cbn [flat_map]. f_equal.
      * rewrite <- A12.
        transitivity (world_corners sa f k').
        -- apply world_corners_ext; [congruence |].
           intros id Hid. apply A8 in Hid.
           apply data_at_of_nodes, B3; lia.
        -- apply world_corners_ext; [congruence |].
           intros id _. unfold sa. apply add_data.
      * rewrite B9. apply world_corners_list_ext; [congruence |].
        intros id Hid. apply Hidr in Hid.
        unfold sa. rewrite add_data. apply data_at_of_nodes, A4. lia.
Qed.

Lemma clone_spec (sh : shape) : clone_ok sh.
Proof.
  induction sh as [r kids IH] using shape_ind'.
  apply clone_kids_step in IH.
  intros s sh' s' Hwf Hids Hc. rewrite clone_unfold in Hc.
  destruct (nodes s !! r) as [n|] eqn:En; [| discriminate].
  cbn [alloc] in Hc.
  set (n0 := {| n_position := n_position n;
                n_quaternion := n_quaternion n; n_scale := n_scale n;
                n_geometry := n_geometry n; n_material := n_material n;
                n_children := []; n_parent := None |}) in *.
  set (s1 := {| nodes := <[next_id s := n0]> (nodes s);
                geometries := geometries s; materials := materials s;
                next_id := S (next_id s) |}) in *.
  destruct (clone_kids (next_id s) kids s1) as [[kids' s2]|] eqn:Ek;
    [| discriminate].
  injection Hc as <- <-.
  assert (Hwf1 : wf_store s1).
  { intros id Hid. cbn in *. destruct (decide (id = next_id s)) as [->|Hne].
    - lia.
    - rewrite lookup_insert_ne in Hid by congruence. apply Hwf in Hid. lia. }
  assert (Hidk : forall id, id ∈ flat_map shape_ids kids -> id < next_id s).
  { intros id Hid. apply Hids. cbn. set_solver. }
  destruct (IH s1 (next_id s) kids' s2 Hwf1 ltac:(cbn; lia) Hidk Ek)
    as (B1 & B2 & B3 & B4 & B5 & B6 & B7 & B8 & B9).
  cbn [next_id nodes geometries materials s1] in B1, B3, B6, B7, B8.
  assert (F1 : forall id, id < next_id s -> nodes s1 !! id = nodes s !! id).
  { intros id Hid. cbn. apply lookup_insert_ne. lia. }
  assert (D1 : data_at s1 (next_id s) = data_at s r).
  { unfold data_at. cbn. rewrite lookup_insert_eq, En. reflexivity. }
  cbn [shape_root shape_kids].
  split; [reflexivity |]. split; [lia |]. split; [exact B2 |].
  split. { intros id Hid. rewrite B3 by lia. apply F1. exact Hid. }
  split; [exact B6 |]. split; [exact B7 |].
  split. { intros id Hid. apply B8 in Hid. lia. }
  split. { intros id Hid. cbn in Hid. apply elem_of_cons in Hid as [->|Hid].
           - lia.
           - apply B8 in Hid. lia. }
  split.
  { cbn in B5. rewrite lookup_insert_eq in B5.
    destruct (nodes s2 !! next_id s) as [n'|]; [| discriminate B5].
    exists n'. split; [reflexivity |]. cbn in B5. congruence. }
  split; [congruence |].
  intros f. cbn [world_corners].
  assert (D2 : data_at s2 (next_id s) = data_at s r)
    by (rewrite B4; exact D1).
  unfold data_at in D2. rewrite En in D2 |- *.
  destruct (nodes s2 !! next_id s) as [n'|];
    cbv [fmap option_fmap option_map] in D2; [| discriminate D2].
  assert (Hd : node_data n' = node_data n) by congruence.
  rewrite (local_matrix_data _ _ Hd),
    (geometry_corners_data s2 s _ _ B6 Hd).
  f_equal. rewrite B9.
  apply world_corners_list_ext; [reflexivity |].
  intros id Hid. apply data_at_of_nodes, F1, Hidk, Hid.
Qed.

Lemma represents_unfold (s : store) (r : nat) (kids : list shape) :
  represents s (Sh r kids)
  <-> (exists n, nodes s !! r = Some n
                 /\ n_children n = map shape_root kids)
      /\ Forall (represents s) kids.
Proof.
  cbn [represents].
  assert (E : forall ks,
    (fix all (ks : list shape) : Prop :=
       match ks with
       | [] => True
       | k :: rest => represents s k /\ all rest
       end) ks <-> Forall (represents s) ks).
  { induction ks as [|k ks IHk]; [split; constructor |].
    rewrite Forall_cons, IHk. reflexivity. }
  rewrite E. reflexivity.
Qed.

Lemma represents_ids (s : store) (sh : shape) :
  represents s sh -> forall id, id ∈ shape_ids sh -> is_Some (nodes s !! id).
Proof.
  induction sh as [r kids IH] using shape_ind'.
  rewrite represents_unfold. intros [(n & Hn & _) Hk] id Hid.
  cbn in Hid. apply elem_of_cons in Hid as [->|Hid]; [eauto |].
  induction IH as [|k l Hk1 _ IHl]; [cbn in Hid; set_solver |].
  apply Forall_cons in Hk as [Hk2 Hk3].
  cbn in Hid. apply elem_of_app in Hid as [Hid|Hid].
  - apply Hk1; assumption.
  - apply IHl; assumption.
Qed.

(** [clone] succeeds on a tree whose nodes the store holds. *)
Lemma clone_total (sh : shape) :
  forall s, wf_store s ->
    (forall id, id ∈ shape_ids sh -> is_Some (nodes s !! id)) ->
    is_Some (clone sh s).
Proof.
  induction sh as [r kids IH] using shape_ind'. intros s Hwf Hids.
  rewrite clone_unfold.
  destruct (Hids r ltac:(cbn; set_solver)) as [n ->]. cbn [alloc].
  set (s1 := {| nodes := _; geometries := _; materials := _;
                next_id := _ |}).
  assert (Hwf1 : wf_store s1).
  { intros id Hid. cbn in *. destruct (decide (id = next_id s)) as [->|Hne].
    - lia.
    - rewrite lookup_insert_ne in Hid by congruence. apply Hwf in Hid. lia. }
  assert (Hk : forall id, id ∈ flat_map shape_ids kids ->
                 id < next_id s /\ is_Some (nodes s1 !! id)).
  { intros id Hid.
    assert (Hs : is_Some (nodes s !! id)) by (apply Hids; cbn; set_solver).
    split; [apply Hwf, Hs |]. cbn.
    rewrite lookup_insert_ne; [exact Hs |]. apply Hwf in Hs. lia. }
  assert (Hnew : next_id s < next_id s1) by (cbn; lia).
  clear Hids. revert Hk Hnew Hwf1. generalize s1. generalize (next_id s).
  clear s1 Hwf n. intros new.
  enough (Hloop : forall s1, (forall id, id ∈ flat_map shape_ids kids ->
                               id < new /\ is_Some (nodes s1 !! id)) ->
                  new < next_id s1 -> wf_store s1 ->
                  is_Some (clone_kids new kids s1)).
  { intros s1 H1 H2 H3. destruct (Hloop s1 H1 H2 H3) as [[ks' s2] ->].
    eauto. }
  induction IH as [|k l Hk1 _ IHl]; intros s1 Hk Hnew Hwf1; [cbn; eauto |].
  cbn [clone_kids].
  assert (Hkk : forall id, id ∈ shape_ids k ->
                  id < new /\ is_Some (nodes s1 !! id)).
  { intros id Hid. apply Hk. cbn. apply elem_of_app. left. exact Hid. }
  destruct (Hk1 s1 Hwf1 (fun id Hid => proj2 (Hkk id Hid)))
    as [[k' s2] Ek].
  rewrite Ek.
  destruct (clone_spec k s1 k' s2 Hwf1
              (fun id Hid => Nat.lt_trans _ _ _ (proj1 (Hkk id Hid)) Hnew) Ek)
    as (A1 & A2 & A3 & A4 & _).
  destruct (add_next_id new (shape_root k') s2) as (N1 & _).
  destruct (IHl (add new (shape_root k') s2)) as [[l' s3] ->]; [| lia | | eauto].
  - intros id Hid.
    assert (Hid' : id < new /\ is_Some (nodes s1 !! id)).
    { apply Hk. cbn. apply elem_of_app. right. exact Hid. }
    split; [apply Hid' |]. apply add_is_Some. rewrite A4 by lia. apply Hid'.
  - apply add_wf, A3.
Qed.

(** ** Boxes under translation *)

Section Boxes.
Local Open Scope R_scope.







Lemma empty_box_isEmpty : box_isEmpty empty_box = true.
Proof.
  unfold box_isEmpty, empty_box, Rltb. cbn.
  destruct (Rlt_dec (-1) 1); [reflexivity | lra].
Qed.


End Boxes.

(** ** C8: the export works on a copy *)

Lemma world_corners_fext (sh : shape) :
  forall (s : store) (f g : Vector3 -> Vector3),
    (forall p, f p = g p) ->
    world_corners s f sh = world_corners s g sh.
Proof.
  induction sh as [r kids IH] using shape_ind'. intros s f g Hfg.
  cbn [world_corners]. destruct (nodes s !! r) as [n|]; [| reflexivity].
  f_equal.
  - apply map_ext. intros p. apply Hfg.
  - set (w1 := fun p => f (local_matrix n p)).
    set (w2 := fun p => g (local_matrix n p)).
    assert (Hw : forall p, w1 p = w2 p) by (intros p; apply Hfg).
    clearbody w1 w2.
    induction IH as [|k l Hk _ IHl]; [reflexivity |].
    cbn [flat_map]. rewrite (Hk s w1 w2 Hw), IHl. reflexivity.
Qed.

Lemma local_matrix_shift (n : Node) (c p : Vector3) :
  local_matrix (set_position (v_sub (n_position n) c) n) p
  = v_sub (local_matrix n p) c.
Proof.
  unfold local_matrix, set_position, v_sub. cbn. f_equal; lra.
Qed.

(** Moving the root of a tree by [- c] moves every corner by [- c],
    provided the root is not among its own descendants. *)
Lemma world_corners_root_shift (s : store) (r : nat) (ks : list shape)
    (c : Vector3) :
  (forall id, id ∈ flat_map shape_ids ks -> id <> r) ->
  world_corners
    (set_nodes
       (alter (fun n => set_position (v_sub (n_position n) c) n) r) s)
    (fun p => p) (Sh r ks)
  = map (fun q => v_sub q c) (world_corners s (fun p => p) (Sh r ks)).
Proof.
  intros Hne. cbn [world_corners set_nodes nodes].
  rewrite lookup_alter_eq.
  destruct (nodes s !! r) as [n|]; [| reflexivity].
  cbn [fmap option_fmap option_map].
  rewrite map_app, map_map. f_equal.
  - unfold geometry_corners. cbn [set_position n_geometry geometries].
    apply map_ext. intros p. apply local_matrix_shift.
  - rewrite <- world_corners_list_post.
    transitivity
      (flat_map (world_corners s
                   (fun p => local_matrix
                               (set_position (v_sub (n_position n) c) n) p))
                ks).
    + apply world_corners_list_ext; [reflexivity |].
      intros id Hid. unfold data_at. cbn [set_nodes nodes].
      rewrite lookup_alter_ne; [reflexivity |].
      intros E. exact (Hne id Hid (eq_sym E)).
    + clear Hne. induction ks as [|k ks IH]; [reflexivity |].
      cbn [flat_map]. rewrite IH. f_equal.
      apply world_corners_fext. intros p. apply local_matrix_shift.
Qed.


Lemma live_store_wf : wf_store live_store.
Proof.
  intros id Hid. apply elem_of_dom in Hid. unfold live_store in *.
  cbn [nodes next_id] in *.
  rewrite dom_insert_L, dom_singleton_L in Hid.
  apply elem_of_union in Hid as [Hid|Hid];
    apply elem_of_singleton in Hid; subst id; lia.
Qed.

Lemma live_model_represented : represents live_store live_model.
Proof.
  cbn. split; [eexists; split; reflexivity |].
  split; [| exact I]. split; [eexists; split; reflexivity | exact I].
Qed.


(* ===================================================================== *)
(** * Further properties of the statistics walk *)
(* ===================================================================== *)

Lemma visit_all_counts (ext : string) (rs : list Renderable) :
  forall st,
    vertices (snd (visit_all ext rs st))
    = vertices st
      + sum_list (omap (fun r => position (r_geometry r)) rs)
    /\ meshes (snd (visit_all ext rs st)) = meshes st + length rs
    /\ omap (fun r => position (r_geometry r))
            (fst (visit_all ext rs st))
       = omap (fun r => position (r_geometry r)) rs
    /\ length (fst (visit_all ext rs st)) = length rs.
Proof.
  induction rs as [|r rs IH]; intros st; cbn [visit_all].
  - cbn. repeat apply conj; try reflexivity; lia.
  - pose proof (visit_renderable_spec ext r st) as (_ & Hg & _).
    assert (Hv : vertices (snd (visit_renderable ext r st))
                 = vertices st + default 0 (position (r_geometry r))
              /\ meshes (snd (visit_renderable ext r st)) = S (meshes st)).
    { unfold visit_renderable, replace_material, count_geometry.
      destruct (negb (is_interchange ext) && isMesh (r_kind r)
                && material_truthy (r_material r));
        cbn [fst snd];
        match goal with
        | |- context [foldl count_material ?s ?ms] =>
            destruct (foldl_count_material ms s) as (Hv & _ & Hm & _)
        end;
        rewrite Hv, Hm; destruct (position (r_geometry r)); cbn; lia. }
    destruct Hv as [Hv Hm].
    destruct (visit_renderable ext r st) as [r' s1]. cbn [fst snd] in *.
    destruct (IH s1) as (I1 & I2 & I3 & I4).
    destruct (visit_all ext rs s1) as [rs' s2]. cbn [fst snd] in *.
    cbn [omap list_omap length]. rewrite Hg, I1, I2, I3, I4, Hv, Hm.
    destruct (position (r_geometry r)); cbn; repeat apply conj;
      try reflexivity; lia.
Qed.

(** The vertex count is the sum of the position counts of all mesh and
    point nodes of the installed object, and the mesh count is the number
    of those nodes, with or without a position attribute. *)
Theorem vertex_and_mesh_counts (ext : string) (ps : Q)
    (result : parse_result) (next : nat) (object : Object3D)
    (anims : list AnimationClip) (md : ModelMetadata) (next' : nat) :
  processResult_pure ext ps result next = Some (object, anims, md, next') ->
  md_vertices md = sum_list (all_positions object)
  /\ md_meshes md = length (renderables object).
Proof.
  intros H.
  destruct (processResult_pure_walk _ _ _ _ _ _ _ _ H)
    as (parsed & next1 & st & _ & Hw & ->).
  destruct (visit_all_counts ext (renderables parsed) (stats0 next1))
    as (H1 & H2 & H3 & H4).
  rewrite Hw in H1, H2, H3, H4. cbn [fst snd stats0 vertices meshes] in *.
  unfold all_positions. cbn [metadata_of md_vertices md_meshes].
  rewrite H1, H2, H3, H4. split; reflexivity.
Qed.

Lemma vertex_and_mesh_counts_witness :
  md_vertices
    {| md_vertices := 9; md_triangles := 3; md_meshes := 3;
       md_materials := 2; md_textures := 0; md_animations := [] |}
  = sum_list (all_positions shared_pair_and_one).
Proof.
  refine (proj1 (vertex_and_mesh_counts "glb" (1 # 20)
                   (GLTFResult shared_pair_and_one []) 2 _ [] _ 2 _)).
  vm_compute. reflexivity.
Defined.

Lemma visit_shape (ext : string) (render : option Renderable) (fc : bool)
    (st : stats) :
  let '(render', fc', _) := visit ext render fc st in
  (fun r => {| r_kind := r_kind r; r_geometry := r_geometry r;
               r_material := NoMaterial |}) <$> render'
  = (fun r => {| r_kind := r_kind r; r_geometry := r_geometry r;
                 r_material := NoMaterial |}) <$> render
  /\ (r_kind <$> render', fc') = cull_skinned (r_kind <$> render, fc).
Proof.
  destruct render as [r|]; cbn [visit]; [| split; reflexivity].
  pose proof (visit_renderable_spec ext r st) as (Hk & Hg & _).
  destruct (visit_renderable ext r st) as [r' s1]. cbn [fst snd] in *.
  cbn. rewrite Hk, Hg. split; [reflexivity |].
  destruct (r_kind r); reflexivity.
Qed.

(** The walk assigns materials and [frustumCulled] and nothing else: the
    installed tree has the nodes, kinds, geometries, bones and children of
    the normalised one; every skinned mesh ends with frustum culling off
    and every other node keeps its flag. *)
Theorem walk_keeps_the_tree (ext : string) (o : Object3D) (st : stats) :
  bare (fst (traverse ext o st)) = bare o
  /\ node_flags (fst (traverse ext o st)) = cull_skinned <$> node_flags o.
Proof.
  revert st. induction o as [render b fc cs IH] using Object3D_ind'.
  intros st. rewrite traverse_unfold.
  pose proof (visit_shape ext render fc st) as Hv.
  destruct (visit ext render fc st) as [[render' fc'] st1].
  destruct Hv as [Hv1 Hv2].
  assert (Hcs : forall s,
    map bare (fst (traverse_list ext cs s)) = map bare cs
    /\ flat_map node_flags (fst (traverse_list ext cs s))
       = cull_skinned <$> flat_map node_flags cs).
  { induction IH as [|c l Hc _ IHl]; intros s; [split; reflexivity |].
    cbn [traverse_list]. destruct (Hc s) as [Hc1 Hc2].
    destruct (traverse ext c s) as [c' sa]. cbn [fst] in *.
    destruct (IHl sa) as [Hl1 Hl2].
    destruct (traverse_list ext l sa) as [l' sb]. cbn [fst] in *.
    cbn [map flat_map]. rewrite Hc1, Hl1, Hc2, Hl2, fmap_app.
    split; reflexivity. }
  destruct (Hcs st1) as [Hc1 Hc2].
  destruct (traverse_list ext cs st1) as [cs' st2]. cbn [fst] in *.
  cbn [bare node_flags]. rewrite Hv1, Hc1, Hc2, Hv2.
  split; reflexivity.
Qed.

(** ** Textures and the materials of the other formats *)

Lemma add_textures_union (m : Material) (s : gset (option nat)) :
  add_textures m s = add_textures m ∅ ∪ s.
Proof.
  unfold add_textures, add_texture.
  destruct (mat_emissiveMap m), (mat_metalnessMap m), (mat_roughnessMap m),
    (mat_normalMap m), (mat_map m); set_solver.
Qed.

Lemma foldl_count_textures (ms : list Material) (st : stats) :
  texturesCount (foldl count_material st ms)
  = foldr add_textures ∅ ms ∪ texturesCount st.
Proof.
  revert st. induction ms as [|m ms IH]; intros st; cbn [foldl foldr].
  - set_solver.
  - rewrite IH. cbn [count_material texturesCount].
    rewrite (add_textures_union m (texturesCount st)),
      (add_textures_union m (foldr add_textures ∅ ms)).
    set_solver.
Qed.

Lemma texture_ids_of_cons (r : Renderable) (rs : list Renderable) :
  texture_ids_of (r :: rs)
  = foldr add_textures ∅ (material_list (r_material r))
    ∪ texture_ids_of rs.
Proof.
  unfold texture_ids_of. cbn. rewrite foldr_app.
  generalize (foldr add_textures ∅
                (rs ≫= fun r0 => material_list (r_material r0))).
  intros acc. induction (material_list (r_material r)) as [|m ms IH];
    cbn [foldr]; [set_solver |].
  rewrite IH, (add_textures_union m (_ ∪ _)),
    (add_textures_union m (foldr add_textures ∅ ms)).
  set_solver.
Qed.

Lemma visit_renderable_textures (ext : string) (r : Renderable)
    (st : stats) :
  texturesCount (snd (visit_renderable ext r st))
  = foldr add_textures ∅
      (material_list (r_material (fst (visit_renderable ext r st))))
    ∪ texturesCount st.
Proof.
  unfold visit_renderable, replace_material, count_geometry.
  destruct (negb (is_interchange ext) && isMesh (r_kind r)
            && material_truthy (r_material r));
    cbn [fst snd]; rewrite foldl_count_textures;
    destruct (position (r_geometry r)); reflexivity.
Qed.

Lemma visit_all_textures (ext : string) (rs : list Renderable) :
  forall st,
    texturesCount (snd (visit_all ext rs st))
    = texture_ids_of (fst (visit_all ext rs st)) ∪ texturesCount st.
Proof.
  induction rs as [|r rs IH]; intros st; cbn [visit_all].
  - cbn. unfold texture_ids_of. cbn. set_solver.
  - pose proof (visit_renderable_textures ext r st) as Ht.
    destruct (visit_renderable ext r st) as [r' s1]. cbn [fst snd] in *.
    specialize (IH s1).
    destruct (visit_all ext rs s1) as [rs' s2]. cbn [fst snd] in *.
    rewrite IH, Ht, texture_ids_of_cons. set_solver.
Qed.

(** The texture count is the number of distinct [uuid] values of what the
    albedo, normal, roughness, metalness and emissive slots of the
    materials of the installed object hold. These are textures, except
    that on formats other than glb and gltf a mesh that carried an array
    of materials has [Array.prototype.map] in the albedo slot of its new
    material, whose [uuid] is [undefined]: such meshes add one to the
    count, together, also when the model has no texture at all. *)
Theorem texture_count (ext : string) (ps : Q) (result : parse_result)
    (next : nat) (object : Object3D) (anims : list AnimationClip)
    (md : ModelMetadata) (next' : nat) :
  processResult_pure ext ps result next = Some (object, anims, md, next') ->
  md_textures md = size (texture_ids object).
Proof.
  intros H.
  destruct (processResult_pure_walk _ _ _ _ _ _ _ _ H)
    as (parsed & next1 & st & _ & Hw & ->).
  pose proof (visit_all_textures ext (renderables parsed) (stats0 next1))
    as Ht.
  rewrite Hw in Ht. cbn [fst snd stats0 texturesCount] in Ht.
  cbn [metadata_of md_textures]. rewrite Ht. unfold texture_ids.
  f_equal. set_solver.
Qed.

Lemma texture_count_witness :
  2 = size (texture_ids
              (group [mesh_node 3
                        (OneMaterial
                           (new_MeshStandardMaterial 3 13421772%Z
                              (Some Array_prototype_map) (6 # 10) (2 # 10)));
                      mesh_node 3
                        (OneMaterial
                           (new_MeshStandardMaterial 4 255%Z
                              (Some (mkTexture 7)) (6 # 10) (2 # 10)))])).
Proof.
  refine (texture_count "obj" (1 # 20) (ObjectResult array_and_textured)
            3 _ []
            {| md_vertices := 6; md_triangles := 2; md_meshes := 2;
               md_materials := 2; md_textures := 2; md_animations := [] |}
            5 _).
  vm_compute. reflexivity.
Defined.

(** The material that the walk leaves on a node of a format other than
    glb and gltf, read off the node as the parser made it. *)
Lemma visit_all_plain (ext : string) (rs : list Renderable) :
  is_interchange ext = false ->
  forall st,
    Forall2
      (fun r0 r =>
         r_kind r = r_kind r0 /\ r_geometry r = r_geometry r0
         /\ if isMesh (r_kind r0)
            then match r_material r0 with
                 | NoMaterial => r_material r = NoMaterial
                 | OneMaterial m =>
                     exists u,
                       r_material r
                       = OneMaterial
                           (new_MeshStandardMaterial u
                              (default 13421772%Z (mat_color m)) (mat_map m)
                              (6 # 10) (2 # 10))
                 | MaterialArray _ =>
                     exists u,
                       r_material r
                       = OneMaterial
                           (new_MeshStandardMaterial u 13421772%Z
                              (Some Array_prototype_map) (6 # 10) (2 # 10))
                 end
            else r_material r = r_material r0)
      rs (fst (visit_all ext rs st)).
Proof.
  intros Hi. induction rs as [|r rs IH]; intros st; cbn [visit_all].
  - constructor.
  - pose proof (visit_renderable_spec ext r st) as (_ & _ & Hr & _).
    rewrite Hi in Hr. cbn [negb andb] in Hr.
    destruct (visit_renderable ext r st) as [r' s1]. cbn [fst snd] in *.
    specialize (IH s1).
    destruct (visit_all ext rs s1) as [rs' s2]. cbn [fst snd] in *.
    constructor; [| exact IH]. subst r'.
    unfold has_mesh_material.
    destruct (isMesh (r_kind r)) eqn:Ek; cbn [andb].
    + destruct (r_material r) as [|m|ms] eqn:Em;
        cbn [material_truthy r_kind r_geometry r_material slot_color
             slot_map default];
        eauto.
    + done.
Qed.

(** On every format other than glb and gltf the load succeeds on what
    normalisation returns, and node by node, in walk order, the installed
    object has the kinds and geometries of the normalised one; a point
    cloud keeps its material; a mesh without a material stays without;
    a mesh with one material gets a new standard material with that
    material's colour ([0xcccccc] when it has none) and albedo map,
    roughness 0.6 and metalness 0.2, and no other map; a mesh with an
    array of materials gets one new standard material with colour
    [0xcccccc] and, for an albedo map, [Array.prototype.map]. *)
Theorem other_formats_get_plain_materials (ext : string) (ps : Q)
    (result : parse_result) (next : nat) (parsed : Object3D)
    (anims : list AnimationClip) (next1 : nat) :
  is_interchange ext = false ->
  normalize ext ps result next = Some (parsed, anims, next1) ->
  exists object md next',
    processResult_pure ext ps result next = Some (object, anims, md, next')
    /\ Forall2
         (fun r0 r =>
            r_kind r = r_kind r0 /\ r_geometry r = r_geometry r0
            /\ if isMesh (r_kind r0)
               then match r_material r0 with
                    | NoMaterial => r_material r = NoMaterial
                    | OneMaterial m =>
                        exists u,
                          r_material r
                          = OneMaterial
                              (new_MeshStandardMaterial u
                                 (default 13421772%Z (mat_color m))
                                 (mat_map m) (6 # 10) (2 # 10))
                    | MaterialArray _ =>
                        exists u,
                          r_material r
                          = OneMaterial
                              (new_MeshStandardMaterial u 13421772%Z
                                 (Some Array_prototype_map)
                                 (6 # 10) (2 # 10))
                    end
               else r_material r = r_material r0)
         (renderables parsed) (renderables object).
Proof.
  intros Hi Hn.
  pose proof (traverse_visit_all ext parsed (stats0 next1)) as Hw.
  pose proof (visit_all_plain ext (renderables parsed) Hi (stats0 next1))
    as Hp.
  unfold processResult_pure. rewrite Hn.
  destruct (traverse ext parsed (stats0 next1)) as [object st].
  cbn [fst snd] in Hw. rewrite Hw in Hp. cbn [fst] in Hp.
  exists object, (metadata_of st anims), (next_uuid st).
  split; [reflexivity | exact Hp].
Qed.

Lemma other_formats_get_plain_materials_witness :
  exists object md next',
    processResult_pure "obj" (1 # 20) (ObjectResult array_and_textured) 3
    = Some (object, [], md, next')
    /\ md_textures md = 2.
Proof.
  destruct (other_formats_get_plain_materials "obj" (1 # 20)
              (ObjectResult array_and_textured) 3 array_and_textured [] 3
              eq_refl eq_refl) as (object & md & next' & H & _).
  exists object, md, next'. split; [exact H |].
  vm_compute in H. injection H as _ <- _. reflexivity.
Defined.


(** ** Animation names *)

Lemma indexOf_lookup (cs : list AnimationClip) :
  NoDup (clip_uuid <$> cs) ->
  forall i c, cs !! i = Some c -> indexOf cs c = i.
Proof.
  induction cs as [|d cs IH]; intros Hnd i c Hi; [discriminate |].
  apply NoDup_cons in Hnd as [Hd Hnd]. destruct i as [|i]; cbn in *.
  - injection Hi as ->. rewrite Nat.eqb_refl. reflexivity.
  - destruct (Nat.eqb_spec (clip_uuid d) (clip_uuid c)) as [E|E].
    + exfalso. apply Hd. rewrite E. apply list_elem_of_fmap.
      exists c. split; [reflexivity |].
      apply list_elem_of_lookup. eauto.
    + f_equal. apply IH; assumption.
Qed.

(** The animation list of the metadata has one name per clip, in order: a
    clip's own name, or ["Animation k"] with [k] its 1-based place when
    the name is empty (clips being distinct objects). Formats other than
    glb and gltf report no animation. *)
Theorem animation_names (ext : string) (ps : Q) (result : parse_result)
    (next : nat) (object : Object3D) (anims : list AnimationClip)
    (md : ModelMetadata) (next' : nat) :
  processResult_pure ext ps result next = Some (object, anims, md, next') ->
  NoDup (clip_uuid <$> anims) ->
  length (md_animations md) = length anims
  /\ (is_interchange ext = false -> md_animations md = [])
  /\ (forall i c,
        anims !! i = Some c ->
        md_animations md !! i
        = Some (if str_eqb (clip_name c) ""
                then ("Animation " +:+ pretty (i + 1))%string
                else clip_name c)).
Proof.
  intros H Hnd.
  destruct (processResult_pure_walk _ _ _ _ _ _ _ _ H)
    as (parsed & next1 & st & Hn & _ & ->).
  cbn [metadata_of md_animations].
  split; [apply length_map |]. split.
  - intros Hi. unfold normalize in Hn. rewrite Hi in Hn.
    repeat match type of Hn with
           | context [if ?b then _ else _] => destruct b
           | context [match ?x with _ => _ end] => destruct x
           end; simplify_eq; reflexivity.
  - intros i c Hc. rewrite list_lookup_fmap, Hc. cbn.
    unfold animation_name. rewrite (indexOf_lookup anims Hnd i c Hc).
    reflexivity.
Qed.

Lemma animation_names_witness :
  md_animations
    {| md_vertices := 3; md_triangles := 1; md_meshes := 1;
       md_materials := 0; md_textures := 0;
       md_animations := ["Walk"; "Animation 2"] |} !! 1
  = Some "Animation 2".
Proof.
  refine (proj2 (proj2
            (animation_names "glb" (1 # 20)
               (GLTFResult (mesh_node 3 NoMaterial)
                  [clipA; mkClip 12 ""])
               0 (mesh_node 3 NoMaterial) [clipA; mkClip 12 ""] _ 0 _ _))
            1 (mkClip 12 "") eq_refl).
  - vm_compute. reflexivity.
  - cbn. repeat constructor; set_solver.
Defined.

(* ===================================================================== *)
(** * Further properties of a load *)
(* ===================================================================== *)

(** A result that came out of the loader of the extension always has the
    shape that [processResult] reads. *)
Lemma parse_for_normalize (env : collaborators) (ext : string) (b : buffer)
    (result : parse_result) (ps : Q) (n : nat) :
  parse_for env ext b = Some (inr result) ->
  is_Some (normalize ext ps result n).
Proof.
  unfold parse_for.
  destruct (str_eqb ext "glb" || str_eqb ext "gltf") eqn:E1.
  { intros H. unfold normalize, is_interchange. rewrite E1.
    destruct (GLTF_parse env b) as [e|[sc an]]; simplify_eq. eauto. }
  destruct (str_eqb ext "obj") eqn:E2.
  { apply str_eqb_true in E2. subst ext. intros H.
    destruct (OBJ_parse env b); simplify_eq. vm_compute. eauto. }
  destruct (str_eqb ext "ply") eqn:E3.
  { apply str_eqb_true in E3. subst ext. intros H.
    destruct (PLY_parse env b) as [e|[p [[|k]|] c]]; simplify_eq;
      vm_compute; eauto. }
  destruct (str_eqb ext "pcd") eqn:E4.
  { apply str_eqb_true in E4. subst ext. intros H.
    destruct (PCD_parse env b) as [e|[[[k g [|m|ms]]|] bn fc cs]];
      simplify_eq; vm_compute; eauto. }
  destruct (str_eqb ext "xyz") eqn:E5; [| discriminate].
  apply str_eqb_true in E5. subst ext. intros H.
  destruct (XYZ_parse env b); simplify_eq. vm_compute. eauto.
Qed.

(** A load whose fetch and whose parser succeed: the two progress lines,
    one parser call, then exactly one [setModel], one metadata callback and
    one delayed framing, and no error line; the object is on display. *)
Theorem load_success (env : collaborators) (settings : SceneSettings)
    (url ext : string) (v : viewer) (b : buffer) (result : parse_result) :
  fetch env url = inr b ->
  parse_for env ext b = Some (inr result) ->
  exists object anims md next',
    processResult_pure ext (pointSize settings) result (uuid_counter v)
    = Some (object, anims, md, next')
    /\ new_events v (loadModel env settings url ext v)
       = [Status "Fetching data stream..."; Fetch url;
          Status ("Decoding " +:+ toUpperCase ext +:+ " payloads...");
          Parse ext; SetModel (Some object); Metadata md; FrameLater]
    /\ model (loadModel env settings url ext v) = Some object
    /\ clips (loadModel env settings url ext v) = anims
    /\ uuid_counter (loadModel env settings url ext v) = next'.
Proof.
  intros Hf Hp.
  destruct (parse_for_normalize env ext b result (pointSize settings)
              (uuid_counter v) Hp) as [[[parsed anims] n1] Hn].
  assert (Hpure : exists object md next',
             processResult_pure ext (pointSize settings) result
               (uuid_counter v) = Some (object, anims, md, next')).
  { unfold processResult_pure. rewrite Hn.
    destruct (traverse ext parsed (stats0 n1)). eauto. }
  destruct Hpure as (object & md & next' & Hpure).
  exists object, anims, md, next'. split; [exact Hpure |].
  unfold loadModel, load_finish, with_result. rewrite Hf, Hp.
  unfold processResult_or_error, processResult. cbn.
  rewrite Hpure. destruct (start_first_clip anims) as [mx act]. cbn.
  split; [| done]. apply new_events_app. cbn.
  rewrite <- !app_assoc. reflexivity.
Qed.

Lemma load_success_witness :
  exists object anims md next',
    processResult_pure "glb" (1 # 20)
      (GLTFResult (mesh_node 3 NoMaterial) []) 0
    = Some (object, anims, md, next')
    /\ new_events initial_viewer
         (loadModel env0 settings0 "blob:a" "glb" initial_viewer)
       = [Status "Fetching data stream..."; Fetch "blob:a";
          Status "Decoding GLB payloads..."; Parse "glb";
          SetModel (Some object); Metadata md; FrameLater]
    /\ model (loadModel env0 settings0 "blob:a" "glb" initial_viewer)
       = Some object
    /\ clips (loadModel env0 settings0 "blob:a" "glb" initial_viewer)
       = anims
    /\ uuid_counter (loadModel env0 settings0 "blob:a" "glb" initial_viewer)
       = next'.
Proof.
  refine (load_success env0 settings0 "blob:a" "glb" initial_viewer []
            (GLTFResult (mesh_node 3 NoMaterial) []) _ _); reflexivity.
Defined.

(** A load whose fetch fails: the failure is reported as ["Error: "] and
    the error's message, or ["Error: Parsing failed"] when it carries
    none; no decode is announced, no parser runs and the viewer keeps its
    model, mixer, clips and active action. *)
Theorem fetch_failure_reported (env : collaborators)
    (settings : SceneSettings) (url ext : string) (v : viewer)
    (err : js_error) :
  fetch env url = inl err ->
  let v' := loadModel env settings url ext v in
  new_events v v'
  = [Status "Fetching data stream..."; Fetch url;
     Status ("Error: " +:+ match message err with
                           | Some m => if str_eqb m "" then "Parsing failed"
                                       else m
                           | None => "Parsing failed"
                           end)]
  /\ model v' = model v /\ mixer v' = mixer v /\ clips v' = clips v
  /\ activeAction v' = activeAction v.
Proof.
  intros Hf v'. subst v'. unfold loadModel, load_finish, with_result.
  rewrite Hf. split; [| done]. apply new_events_app. cbn.
  rewrite <- !app_assoc. reflexivity.
Qed.

Lemma fetch_failure_reported_witness :
  new_events loaded2
    (loadModel
       {| fetch := fun _ => inl (mkError None);
          GLTF_parse := GLTF_parse env0; OBJ_parse := OBJ_parse env0;
          PLY_parse := PLY_parse env0; PCD_parse := PCD_parse env0;
          XYZ_parse := XYZ_parse env0; type_error := type_error env0 |}
       settings0 "blob:a" "glb" loaded2)
  = [Status "Fetching data stream..."; Fetch "blob:a";
     Status "Error: Parsing failed"].
Proof.
  refine (proj1 (fetch_failure_reported _ settings0 "blob:a" "glb" loaded2
                   (mkError None) _)).
  reflexivity.
Defined.

(** ** Case of the extension *)

Lemma ascii_lower_idem (c : ascii) :
  ascii_lower (ascii_lower c) = ascii_lower c.
Proof. destruct c as [[] [] [] [] [] [] [] []]; reflexivity. Qed.

Lemma toLowerCase_idem (s : string) :
  toLowerCase (toLowerCase s) = toLowerCase s.
Proof.
  unfold toLowerCase. induction s as [|c s IH]; [reflexivity |].
  cbn. rewrite ascii_lower_idem, IH. reflexivity.
Qed.

Lemma toLowerCase_empty (s : string) :
  toLowerCase s = ""%string <-> s = ""%string.
Proof. destruct s; cbn; split; intros H; congruence. Qed.

(** The load effect does not see the case of the extension: with ["GLB"],
    ["Glb"] or ["glb"] it does the same thing, status lines included. *)
Theorem extension_case_is_ignored (env : collaborators)
    (settings : SceneSettings) (url : option string) (ext : string)
    (v : viewer) :
  load_effect env settings url (Some ext) v
  = load_effect env settings url (Some (toLowerCase ext)) v.
Proof.
  unfold load_effect, prop_truthy.
  destruct (str_eqb ext "") eqn:E.
  - apply str_eqb_true in E. subst ext. reflexivity.
  - assert (E' : str_eqb (toLowerCase ext) "" = false).
    { apply str_eqb_false. rewrite toLowerCase_empty.
      apply str_eqb_false, E. }
    rewrite E', toLowerCase_idem. reflexivity.
Qed.

(* ===================================================================== *)
(** * Further properties of loads in flight and of the animation state *)
(* ===================================================================== *)

Lemma metadata_calls_app (v v' : viewer) (es : list event) :
  log v' = log v ++ es ->
  metadata_calls v'
  = metadata_calls v + length (filter (fun e => is_metadata e = true) es).
Proof.
  intros H. unfold metadata_calls. rewrite H, filter_app, length_app.
  reflexivity.
Qed.

Ltac count_events :=
  cbn; repeat case_decide; try congruence; cbn; lia.

Lemma handleError_metadata (err : js_error) (v : viewer) :
  metadata_calls (handleError err v) = metadata_calls v.
Proof.
  rewrite (metadata_calls_app v _ [Status ("Error: "
                                    +:+ message_or_default err)]);
    [count_events | reflexivity].
Qed.

Lemma emit_metadata (e : event) (v : viewer) :
  is_metadata e = false -> metadata_calls (emit e v) = metadata_calls v.
Proof.
  intros H. rewrite (metadata_calls_app v _ [e]); [| reflexivity].
  cbn. case_decide; [congruence | cbn; lia].
Qed.

Lemma processResult_metadata (env : collaborators) (ext : string)
    (settings : SceneSettings) (result : parse_result) (v : viewer) :
  metadata_calls (processResult_or_error env ext settings result v)
  <= S (metadata_calls v).
Proof.
  unfold processResult_or_error, processResult.
  destruct (processResult_pure _ _ _ _) as [[[[o a] md] n]|].
  - destruct (start_first_clip a).
    erewrite metadata_calls_app; [| reflexivity]. count_events.
  - rewrite handleError_metadata. lia.
Qed.

Lemma load_callback_metadata (env : collaborators)
    (settings : SceneSettings) (ext : string)
    (parsed : js_error + parse_result) (v : viewer) :
  metadata_calls (load_callback env settings ext parsed v)
  <= S (metadata_calls v).
Proof.
  unfold load_callback, with_result. destruct parsed as [err|result].
  - rewrite handleError_metadata. lia.
  - apply processResult_metadata.
Qed.

(** Until [loadModel] returns, the metadata callback runs at most once,
    and not at all when the load is left with the loader. *)
Lemma load_decode_metadata (env : collaborators) (settings : SceneSettings)
    (url ext : string) (v : viewer) :
  metadata_calls (fst (load_decode env settings url ext v))
  <= match snd (load_decode env settings url ext v) with
     | Some _ => metadata_calls v
     | None => S (metadata_calls v)
     end.
Proof.
  unfold load_decode, with_result.
  destruct (fetch env url) as [err|b]; cbn [fst snd].
  { rewrite handleError_metadata. lia. }
  destruct (parse_for env ext b) as [parsed|]; cbn [fst snd].
  - destruct (is_interchange ext); cbn [fst snd].
    + rewrite !emit_metadata by reflexivity. lia.
    + destruct parsed as [err|result].
      * rewrite handleError_metadata, !emit_metadata by reflexivity. lia.
      * etransitivity; [apply processResult_metadata |].
        rewrite !emit_metadata by reflexivity. lia.
  - rewrite handleError_metadata, emit_metadata by reflexivity. lia.
Qed.

Lemma load_start_metadata (url : string) (v : viewer) :
  metadata_calls (load_start url v) = metadata_calls v.
Proof.
  rewrite (metadata_calls_app v _
             [Status "Fetching data stream..."; Fetch url]).
  - count_events.
  - cbn. rewrite <- !app_assoc. reflexivity.
Qed.

Lemma setModel_metadata (o : option Object3D) (v : viewer) :
  metadata_calls (setModel o v) = metadata_calls v.
Proof.
  rewrite (metadata_calls_app v _ [SetModel o]); [count_events |].
  reflexivity.
Qed.

Lemma size_delete_present `{Countable K} {A} (m : gmap K A) (k : K) (x : A) :
  m !! k = Some x -> S (size (delete k m)) = size m.
Proof.
  intros Hk. rewrite (map_size_delete k m), Hk.
  assert (0 < size m); [| lia].
  destruct (decide (size m = 0)) as [E|E]; [| lia].
  apply map_size_empty_inv in E. rewrite E in Hk.
  rewrite lookup_empty in Hk. discriminate.
Qed.

Lemma size_insert_le `{Countable K} {A} (m : gmap K A) (k : K) (x : A) :
  size (<[k := x]> m) <= S (size m).
Proof.
  pose proof (map_size_insert k x m) as Hs.
  destruct (m !! k); cbn in Hs; lia.
Qed.

(** However loads are started, settled and called back for, the metadata
    callback has run at most once per load that is no longer in flight:
    the number of callbacks plus the number of loads that wait for their
    buffer or for the loader never exceeds the number of loads started.
    Settling a load, or calling back for it, a second time does
    nothing. *)
Theorem one_callback_per_load (env : collaborators)
    (trace : list session_event) (i : nat) :
  let s := run env initial_session trace in
  metadata_calls (view s) + size (pending s) + size (decoding s)
  <= initiated s
  /\ session_step env (session_step env s (Settle i)) (Settle i)
     = session_step env s (Settle i)
  /\ session_step env (session_step env s (Deliver i)) (Deliver i)
     = session_step env s (Deliver i).
Proof.
  cbn zeta. split; [| split].
  - induction trace as [|e trace IH] using rev_ind.
    { cbn [run foldl initial_session view pending decoding initiated].
      rewrite !map_size_empty. cbn. lia. }
    rewrite run_app. cbn [run foldl].
    set (s := run env initial_session trace) in *.
    destruct e as [st mu ex|k|k]; cbn [session_step].
    + assert (Hc : metadata_calls
                     (if cleanup_armed s then effect_cleanup (view s)
                      else view s) = metadata_calls (view s)).
      { destruct (cleanup_armed s); [| reflexivity].
        unfold effect_cleanup. destruct (mixer (view s)); reflexivity. }
      destruct (prop_truthy mu) as [url|];
        [destruct (prop_truthy ex) as [ext|] |];
        cbn [view pending decoding initiated].
      * rewrite load_start_metadata, Hc.
        pose proof (size_insert_le (pending s) (initiated s)
                      (mkRequest url (toLowerCase ext) st)).
        lia.
      * rewrite setModel_metadata, Hc. lia.
      * rewrite setModel_metadata, Hc. lia.
    + destruct (pending s !! k) as [rq|] eqn:Ek; [| exact IH].
      cbn [view pending decoding initiated].
      pose proof (load_decode_metadata env (rq_settings rq) (rq_url rq)
                    (rq_ext rq) (view s)) as Hm.
      pose proof (size_delete_present (pending s) k rq Ek).
      destruct (snd (load_decode env (rq_settings rq) (rq_url rq)
                       (rq_ext rq) (view s))) as [parsed|].
      * pose proof (size_insert_le (decoding s) k (rq, parsed)). lia.
      * lia.
    + destruct (decoding s !! k) as [[rq parsed]|] eqn:Ek; [| exact IH].
      cbn [view pending decoding initiated].
      pose proof (load_callback_metadata env (rq_settings rq) (rq_ext rq)
                    parsed (view s)).
      pose proof (size_delete_present (decoding s) k (rq, parsed) Ek).
      lia.
  - generalize (run env initial_session trace). intros s.
    cbn [session_step]. destruct (pending s !! i) as [rq|] eqn:Ei.
    + cbn [pending]. rewrite lookup_delete_eq. reflexivity.
    + rewrite Ei. reflexivity.
  - generalize (run env initial_session trace). intros s.
    cbn [session_step]. destruct (decoding s !! i) as [[rq parsed]|] eqn:Ei.
    + cbn [decoding]. rewrite lookup_delete_eq. reflexivity.
    + rewrite Ei. reflexivity.
Qed.

(** Starting a load while one was set up before stops every action of the
    current mixer at once, although the old model stays on display, with
    its clips and its active action, until the new load settles. *)
Theorem new_load_stops_animation (env : collaborators) (s : session)
    (settings : SceneSettings) (url ext : string) :
  cleanup_armed s = true ->
  url <> ""%string -> ext <> ""%string ->
  let s' := session_step env s (SetProps settings (Some url) (Some ext)) in
  all_stopped (view s')
  /\ model (view s') = model (view s)
  /\ clips (view s') = clips (view s)
  /\ activeAction (view s') = activeAction (view s).
Proof.
  intros Ha Hu He. cbn. rewrite Ha.
  apply str_eqb_false in Hu, He. rewrite Hu, He. cbn.
  unfold effect_cleanup, all_stopped.
  destruct (mixer (view s)) as [m|] eqn:Em; cbn; [| rewrite Em; done].
  split; [| done]. intros k a Hk.
  rewrite lookup_fmap in Hk. destruct (actions m !! k) as [a0|];
    cbn in Hk; [| discriminate].
  injection Hk as <-. reflexivity.
Qed.

Lemma new_load_stops_animation_witness :
  all_stopped
    (view (session_step env0
             {| view := loaded2; pending := ∅; decoding := ∅;
                initiated := 1; cleanup_armed := true |}
             (SetProps settings0 (Some "blob:b") (Some "glb")))).
Proof.
  refine (proj1 (new_load_stops_animation env0
                   {| view := loaded2; pending := ∅; decoding := ∅;
                      initiated := 1; cleanup_armed := true |}
                   settings0 "blob:b" "glb" _ _ _));
    [reflexivity | discriminate | discriminate].
Defined.

(** ** The active action *)

Lemma anim_consistent_emit (e : event) (v : viewer) :
  anim_consistent v -> anim_consistent (emit e v).
Proof. intros H. exact H. Qed.

Lemma anim_consistent_cleanup (v : viewer) :
  anim_consistent v -> anim_consistent (effect_cleanup v).
Proof.
  intros H. unfold effect_cleanup.
  destruct (mixer v) as [m|] eqn:Em; [| exact H].
  unfold anim_consistent, action_of in *. rewrite Em in H. cbn.
  destruct (activeAction v) as [c|]; [| done].
  destruct H as [H1 [a H2]]. split; [exact H1 |].
  rewrite lookup_fmap, H2. cbn. eauto.
Qed.

Lemma anim_consistent_processResult (ext : string)
    (settings : SceneSettings) (result : parse_result) (v v' : viewer) :
  processResult ext settings result v = Some v' -> anim_consistent v'.
Proof.
  unfold processResult.
  destruct (processResult_pure _ _ _ _) as [[[[o a] md] n]|];
    [| discriminate].
  destruct a as [|c a]; cbn [start_first_clip]; intros [= <-];
    unfold anim_consistent; cbn [activeAction clips]; [exact I |].
  split; [set_solver |]. unfold action_of, on_action. cbn [mixer actions].
  rewrite lookup_alter_eq.
  destruct (clipAction_lookup {| actions := ∅ |} c) as [x ->].
  cbn. eauto.
Qed.

Lemma anim_consistent_processResult_or_error (env : collaborators)
    (ext : string) (settings : SceneSettings) (result : parse_result)
    (v : viewer) :
  anim_consistent v ->
  anim_consistent (processResult_or_error env ext settings result v).
Proof.
  intros H. unfold processResult_or_error.
  destruct (processResult ext settings result v) as [v'|] eqn:E;
    [| exact H].
  eapply anim_consistent_processResult, E.
Qed.

Lemma anim_consistent_load_decode (env : collaborators)
    (settings : SceneSettings) (url ext : string) (v : viewer) :
  anim_consistent v ->
  anim_consistent (fst (load_decode env settings url ext v)).
Proof.
  intros H. unfold load_decode, with_result.
  destruct (fetch env url) as [err|b]; [exact H |].
  destruct (parse_for env ext b) as [parsed|]; [| exact H].
  destruct (is_interchange ext); [exact H |]. cbn [fst].
  destruct parsed as [err|result]; [exact H |].
  apply anim_consistent_processResult_or_error, H.
Qed.

Lemma anim_consistent_load_callback (env : collaborators)
    (settings : SceneSettings) (ext : string)
    (parsed : js_error + parse_result) (v : viewer) :
  anim_consistent v ->
  anim_consistent (load_callback env settings ext parsed v).
Proof.
  intros H. unfold load_callback, with_result.
  destruct parsed as [err|result]; [exact H |].
  apply anim_consistent_processResult_or_error, H.
Qed.

Lemma anim_consistent_switch (settings : SceneSettings) (v : viewer) :
  anim_consistent v -> anim_consistent (animation_effect settings v).
Proof.
  intros H. unfold animation_effect.
  destruct (mixer v) as [m|] eqn:Em; [| exact H].
  destruct (length (clips v) =? 0)%nat eqn:El; [exact H |].
  destruct (next_clip (clips v) (activeAnimationIndex settings))
    as [c|] eqn:En.
  2:{ exfalso. unfold next_clip in En.
      destruct (clip_at _ _); [discriminate |].
      destruct (clips v); [discriminate El | discriminate En]. }
  unfold anim_consistent, action_of; cbn.
  - split.
    + unfold next_clip in En.
      destruct (clip_at (clips v) (activeAnimationIndex settings))
        as [c'|] eqn:Ec.
      * injection En as ->. unfold clip_at in Ec.
        destruct (_ <? _)%Z; [discriminate |].
        eapply list_elem_of_lookup_2, Ec.
      * eapply list_elem_of_lookup_2, En.
    + rewrite lookup_alter_eq.
      match goal with
      | |- context [ actions (clipAction ?m1 c) !! _ ] =>
          destruct (clipAction_lookup m1 c) as [x ->]
      end.
      cbn. eauto.
Qed.

(** In every state that loads, their late completions, the loader's late
    callbacks and animation switches can reach, in any order, the active
    action is the action of a clip of the current clip list and the
    current mixer holds it. *)
Theorem active_action_belongs_to_current_clips (env : collaborators)
    (ops : list viewer_op) :
  anim_consistent (view (foldl (op_step env) initial_session ops)).
Proof.
  induction ops as [|op ops IH] using rev_ind; [exact I |].
  rewrite foldl_app. cbn [foldl].
  set (s := foldl (op_step env) initial_session ops) in *.
  destruct op as [[st mu ex|k|k]|st]; cbn [op_step session_step].
  - assert (Hc : anim_consistent
                   (if cleanup_armed s then effect_cleanup (view s)
                    else view s)).
    { destruct (cleanup_armed s); [apply anim_consistent_cleanup |];
        exact IH. }
    destruct (prop_truthy mu) as [url|];
      [destruct (prop_truthy ex) as [ext|] |]; exact Hc.
  - destruct (pending s !! k) as [rq|]; [| exact IH].
    apply anim_consistent_load_decode, IH.
  - destruct (decoding s !! k) as [[rq parsed]|]; [| exact IH].
    apply anim_consistent_load_callback, IH.
  - apply anim_consistent_switch, IH.
Qed.

(** ** Switching twice *)

(** Selecting the same index again changes nothing more: the effect of a
    selection is the same whether it runs once or twice. *)
Theorem animation_effect_idempotent (settings : SceneSettings)
    (v : viewer) :
  animation_effect settings (animation_effect settings v)
  = animation_effect settings v.
Proof.
  unfold animation_effect at 2 3.
  destruct (mixer v) as [m|] eqn:Em.
  2:{ unfold animation_effect. rewrite Em. reflexivity. }
  destruct (length (clips v) =? 0)%nat eqn:El.
  { unfold animation_effect. rewrite Em, El. reflexivity. }
  destruct (next_clip (clips v) (activeAnimationIndex settings))
    as [c|] eqn:En.
  - unfold animation_effect. cbn. rewrite El, En.
    unfold set_animation. cbn. f_equal. f_equal.
    set (m1 := match activeAction v with
               | Some a => on_action (act_fadeOut fade_time) m a
               | None => m
               end).
    unfold on_action at 1 2. cbn.
    assert (Hc : forall mm : AnimationMixer,
               is_Some (actions mm !! clip_uuid c) -> clipAction mm c = mm).
    { intros mm [x Hx]. unfold clipAction. rewrite Hx. reflexivity. }
    rewrite Hc.
    2:{ cbn. rewrite !lookup_alter_eq.
        destruct (clipAction_lookup m1 c) as [x ->]. cbn. eauto. }
    unfold on_action. cbn [actions]. f_equal. apply map_eq. intros k.
    rewrite !lookup_alter. repeat case_decide; try congruence;
      destruct (actions (clipAction m1 c) !! _); reflexivity.
  - exfalso. unfold next_clip in En.
    destruct (clip_at _ _); [discriminate |].
    destruct (clips v); [discriminate El | discriminate En].
Qed.

(* ===================================================================== *)
(** * Properties of the settings effect *)
(* ===================================================================== *)

Lemma renderables_restyle (f : Material -> Material) (o : Object3D) :
  renderables (restyle_tree f o) = restyle_node f <$> renderables o.
Proof.
  induction o as [render b fc cs IH] using Object3D_ind'.
  cbn [restyle_tree renderables]. rewrite fmap_app. f_equal.
  - destruct render; reflexivity.
  - induction IH as [|c l Hc _ IHl]; [reflexivity |].
    cbn [map flat_map]. rewrite Hc, IHl, fmap_app. reflexivity.
Qed.

Lemma restyle_uuid (settings : SceneSettings) (wt st : gset nat)
    (m : Material) :
  mat_uuid (restyle settings wt st m) = mat_uuid m.
Proof. unfold restyle. repeat case_bool_decide; reflexivity. Qed.

Lemma restyle_slot_ids (f : Material -> Material) (s : material_slot) :
  (forall m, mat_uuid (f m) = mat_uuid m) ->
  mat_uuid <$> material_list (restyle_slot f s)
  = mat_uuid <$> material_list s.
Proof.
  intros Hf. destruct s as [|m|ms]; cbn; [reflexivity | by rewrite Hf |].
  induction ms as [|m ms IH]; [reflexivity |]. cbn. rewrite Hf.
  f_equal. exact IH.
Qed.

Lemma material_ids_of_restyle (f : Material -> Material)
    (rs : list Renderable) (P : renderable_kind -> bool) :
  (forall m, mat_uuid (f m) = mat_uuid m) ->
  material_ids_of (filter (fun r => P (r_kind r) = true)
                          (restyle_node f <$> rs))
  = material_ids_of (filter (fun r => P (r_kind r) = true) rs).
Proof.
  intros Hf. induction rs as [|r rs IH]; [reflexivity |].
  cbn [fmap list_fmap]. rewrite !filter_cons. cbn [restyle_node r_kind].
  case_decide.
  - rewrite !material_ids_of_cons, IH.
    change (r_material (restyle_node f r))
      with (restyle_slot f (r_material r)).
    rewrite (restyle_slot_ids f _ Hf). reflexivity.
  - exact IH.
Qed.

Lemma point_material_restyle (f : Material -> Material) (r : Renderable) :
  point_material (restyle_node f r) = f <$> point_material r.
Proof.
  unfold point_material. cbn. destruct (isPoints (r_kind r)); [| reflexivity].
  destruct (r_material r); reflexivity.
Qed.

Lemma targets_restyle (f : Material -> Material) (o : Object3D) :
  (forall m, mat_uuid (f m) = mat_uuid m) ->
  wireframe_targets (restyle_tree f o) = wireframe_targets o
  /\ size_targets (restyle_tree f o) = size_targets o
  /\ material_ids (restyle_tree f o) = material_ids o.
Proof.
  intros Hf. unfold wireframe_targets, size_targets, material_ids.
  rewrite renderables_restyle. split; [| split].
  - apply (material_ids_of_restyle f _ isMesh Hf).
  - f_equal. induction (renderables o) as [|r rs IH]; [reflexivity |].
    cbn. rewrite !fmap_app, IH, point_material_restyle. f_equal.
    rewrite <- list_fmap_compose. apply list_fmap_ext. intros ? m _.
    apply Hf.
  - pose proof (material_ids_of_restyle f (renderables o) (fun _ => true) Hf)
      as H.
    assert (E : forall l : list Renderable,
               filter (fun r => (fun _ : renderable_kind => true) (r_kind r)
                                = true) l = l).
    { induction l as [|x l IHl]; [reflexivity |].
      rewrite filter_cons, decide_True by reflexivity. f_equal. exact IHl. }
    rewrite !E in H. exact H.
Qed.

(** After the settings effect, every material of every mesh has the
    wireframe flag of the settings, and the material of every point cloud
    that holds a single material has the point size of the settings with
    size attenuation on. *)
Theorem settings_reach_every_material (settings : SceneSettings)
    (o : Object3D) (r : Renderable) :
  r ∈ renderables (apply_settings settings o) ->
  (isMesh (r_kind r) = true ->
   forall m, m ∈ material_list (r_material r) ->
             mat_wireframe m = wireframe settings)
  /\ (isPoints (r_kind r) = true ->
      forall m, r_material r = OneMaterial m ->
                mat_size m = pointSize settings
                /\ mat_sizeAttenuation m = true).
Proof.
  unfold apply_settings. rewrite renderables_restyle.
  intros Hr. apply list_elem_of_fmap in Hr as (r0 & -> & Hr0).
  cbn [restyle_node r_kind r_material]. split.
  - intros Hk m Hm.
    assert (Hin : exists m0, m0 ∈ material_list (r_material r0)
                    /\ m = restyle settings (wireframe_targets o)
                             (size_targets o) m0).
    { destruct (r_material r0) as [|m0|ms]; cbn in Hm.
      - set_solver.
      - apply list_elem_of_singleton in Hm. exists m0. split; [set_solver |].
        exact Hm.
      - apply list_elem_of_fmap in Hm as (m0 & -> & Hm0). eauto. }
    destruct Hin as (m0 & Hm0 & ->).
    assert (Hw : mat_uuid m0 ∈ wireframe_targets o).
    { unfold wireframe_targets, material_ids_of.
      apply elem_of_list_to_set, list_elem_of_fmap. exists m0.
      split; [reflexivity |]. apply list_elem_of_bind. exists r0.
      split; [exact Hm0 |]. apply list_elem_of_filter. split; assumption. }
    unfold restyle. rewrite (bool_decide_eq_true_2 _ Hw).
    case_bool_decide; reflexivity.
  - intros Hk m Hm.
    destruct (r_material r0) as [|m0|ms] eqn:Em; cbn in Hm; try discriminate.
    injection Hm as <-.
    assert (Hs : mat_uuid m0 ∈ size_targets o).
    { unfold size_targets.
      apply elem_of_list_to_set, list_elem_of_fmap. exists m0.
      split; [reflexivity |]. apply list_elem_of_bind. exists r0.
      split; [| exact Hr0]. unfold point_material. rewrite Hk, Em.
      set_solver. }
    unfold restyle. rewrite (bool_decide_eq_true_2 _ Hs).
    split; reflexivity.
Qed.

Lemma settings_reach_every_material_witness :
  mat_wireframe (set_wireframe true (plain_material 0)) = true.
Proof.
  refine (proj1 (settings_reach_every_material
                   {| autoRotate := false; wireframe := true;
                      showSkeleton := false; playAnimation := true;
                      activeAnimationIndex := 0; pointSize := 1 # 20 |}
                   (mesh_node 3 (OneMaterial (plain_material 0)))
                   {| r_kind := Mesh;
                      r_geometry := {| position := Some 3; index := None;
                                       has_color := false |};
                      r_material :=
                        OneMaterial (set_wireframe true (plain_material 0)) |}
                   _) eq_refl (set_wireframe true (plain_material 0)) _).
  - vm_compute. constructor.
  - vm_compute. constructor.
Defined.

Lemma restyle_tree_ext (f g : Material -> Material) (o : Object3D) :
  (forall m, f m = g m) -> restyle_tree f o = restyle_tree g o.
Proof.
  intros Hfg. induction o as [render b fc cs IH] using Object3D_ind'.
  cbn [restyle_tree]. f_equal.
  - destruct render as [r|]; [| reflexivity]. cbn. do 2 f_equal.
    destruct (r_material r) as [|m|ms]; cbn; [reflexivity | by rewrite Hfg |].
    f_equal. apply map_ext. intros m. apply Hfg.
  - induction IH as [|c l Hc _ IHl]; [reflexivity |].
    cbn [map]. rewrite Hc, IHl. reflexivity.
Qed.

Lemma restyle_tree_compose (f g : Material -> Material) (o : Object3D) :
  restyle_tree f (restyle_tree g o) = restyle_tree (fun m => f (g m)) o.
Proof.
  induction o as [render b fc cs IH] using Object3D_ind'.
  cbn [restyle_tree]. f_equal.
  - destruct render as [r|]; [| reflexivity]. cbn. do 2 f_equal.
    destruct (r_material r) as [|m|ms]; cbn; [reflexivity.. |].
    f_equal. apply map_map.
  - destruct render as [r|]; [| reflexivity]. cbn.
    destruct (isSkinnedMesh (r_kind r)); reflexivity.
  - induction IH as [|c l Hc _ IHl]; [reflexivity |].
    cbn [map]. rewrite Hc, IHl. reflexivity.
Qed.

Lemma restyle_idem (settings : SceneSettings) (wt st : gset nat)
    (m : Material) :
  restyle settings wt st (restyle settings wt st m)
  = restyle settings wt st m.
Proof.
  unfold restyle at 1. rewrite restyle_uuid. unfold restyle.
  repeat case_bool_decide; reflexivity.
Qed.

(** The settings effect changes no identity and no geometry: the set of
    material identities, the textures, and the tree of nodes, kinds and
    geometries are those of the model before, so the statistics reported
    at load still describe the model. Running the effect again with the
    same settings changes nothing more. *)
Theorem settings_keep_the_model (settings : SceneSettings) (o : Object3D) :
  material_ids (apply_settings settings o) = material_ids o
  /\ texture_ids (apply_settings settings o) = texture_ids o
  /\ bare (apply_settings settings o) = bare o
  /\ apply_settings settings (apply_settings settings o)
     = apply_settings settings o.
Proof.
  set (f := restyle settings (wireframe_targets o) (size_targets o)).
  assert (Hf : forall m, mat_uuid (f m) = mat_uuid m)
    by (intros m; apply restyle_uuid).
  destruct (targets_restyle f o Hf) as (Hw & Hs & Hm).
  split; [exact Hm |]. split; [| split].
  - unfold texture_ids, apply_settings, texture_ids_of.
    rewrite renderables_restyle. fold f.
    induction (renderables o) as [|r rs IH]; [reflexivity |].
    cbn. rewrite !foldr_app, IH. clear IH.
    generalize (foldr add_textures ∅
                  (rs ≫= fun r0 => material_list (r_material r0))).
    intros acc.
    assert (Ht : forall m a, add_textures (f m) a = add_textures m a).
    { intros m a. unfold f, restyle.
      repeat case_bool_decide; reflexivity. }
    destruct (r_material r) as [|m|ms]; cbn; [reflexivity | apply Ht |].
    induction ms as [|m ms IHm]; [reflexivity |]. cbn.
    rewrite Ht, IHm. reflexivity.
  - unfold apply_settings. fold f. clearbody f. clear.
    induction o as [render b fc cs IH] using Object3D_ind'.
    cbn [restyle_tree bare]. f_equal.
    + destruct render; reflexivity.
    + induction IH as [|c l Hc _ IHl]; [reflexivity |].
      cbn [map]. rewrite Hc, IHl. reflexivity.
  - unfold apply_settings. fold f. rewrite Hw, Hs. fold f.
    rewrite restyle_tree_compose. apply restyle_tree_ext.
    intros m. apply restyle_idem.
Qed.

(** ** The skeleton overlay *)

(** While [showSkeleton] stays on, the overlay built for one model is not
    rebuilt for the next: the load's cleanup takes the helper out of the
    scene but leaves it in the ref, so the settings effect finds a helper
    and builds none for the new model, whether it has bones or not. Only
    switching the setting off and on again attaches an overlay, for a
    model with bones. *)
Theorem skeleton_overlay_is_lost_on_reload (settings : SceneSettings)
    (m1 m2 : Object3D) :
  showSkeleton settings = true -> hasBones m1 = true ->
  let ov1 := skeleton_effect settings (Some m1) no_overlay in
  let ov2 := skeleton_effect settings (Some m2) (cleanup_overlay ov1) in
  ov1 = {| skeletonHelper := Some m1; helper_in_scene := true |}
  /\ ov2 = {| skeletonHelper := Some m1; helper_in_scene := false |}
  /\ skeleton_effect settings (Some m2)
       (skeleton_effect (with_showSkeleton false settings) (Some m2) ov2)
     = if hasBones m2
       then {| skeletonHelper := Some m2; helper_in_scene := true |}
       else no_overlay.
Proof.
  intros Hs Hb. cbn zeta. unfold skeleton_effect. cbn. rewrite Hs, Hb. cbn.
  split; [reflexivity |]. split.
  - destruct (hasBones m2); reflexivity.
  - destruct (hasBones m2); reflexivity.
Qed.

Lemma skeleton_overlay_is_lost_on_reload_witness :
  skeleton_effect (with_showSkeleton true settings0)
    (Some (Obj None true true []))
    (cleanup_overlay
       (skeleton_effect (with_showSkeleton true settings0)
          (Some (group [Obj None true true []])) no_overlay))
  = {| skeletonHelper := Some (group [Obj None true true []]);
       helper_in_scene := false |}.
Proof.
  refine (proj1 (proj2 (skeleton_overlay_is_lost_on_reload
                          (with_showSkeleton true settings0)
                          (group [Obj None true true []])
                          (Obj None true true []) _ _))); reflexivity.
Defined.

(* ===================================================================== *)
(** * Further properties of camera framing *)
(* ===================================================================== *)

Section FramingMore.
Local Open Scope R_scope.

Lemma maxSize_nonneg (box : Box3) : 0 <= maxSize_of (getSize box).
Proof.
  unfold getSize, maxSize_of.
  destruct (box_isEmpty box) eqn:E.
  - unfold v_zero. cbn [vx vy vz]. unfold Rmax.
    repeat destruct (Rle_dec _ _); lra.
  - unfold box_isEmpty, Rltb in E.
    destruct (Rlt_dec (vx (box_max box)) (vx (box_min box)));
      [discriminate |].
    cbn [v_sub vx vy vz]. unfold Rmax.
    repeat destruct (Rle_dec _ _); lra.
Qed.

Lemma half_angle_atan_pos (f : R) : 0 < f -> 0 < atan (PI * f / 360).
Proof.
  intros Hf. rewrite <- atan_0. apply atan_increasing.
  pose proof PI_RGT_0. apply Rdiv_lt_0_compat; [nra | lra].
Qed.

Lemma fitHeight_nonneg (m f : R) :
  0 <= m -> 0 < f -> 0 <= fitHeightDistance m f.
Proof.
  intros Hm Hf. unfold fitHeightDistance.
  pose proof (half_angle_atan_pos f Hf).
  apply Rmult_le_pos; [exact Hm |].
  apply Rlt_le, Rinv_0_lt_compat. lra.
Qed.

Lemma num_or_pos (x d : R) : 0 <= x -> 0 < d -> 0 < num_or x d.
Proof.
  intros Hx Hd. unfold num_or. destruct (Req_dec_T x 0); lra.
Qed.

Lemma frame_distance_nonneg (m f a : R) :
  0 <= m -> 0 <= f -> 0 <= frame_distance m f a.
Proof.
  intros Hm Hf. unfold frame_distance.
  pose proof (fitHeight_nonneg m (num_or f 45) Hm
                (num_or_pos f 45 Hf ltac:(lra))).
  pose proof (Rmax_l (fitHeightDistance m (num_or f 45))
                     (fitWidthDistance m (num_or f 45) a)).
  nra.
Qed.

Lemma v_length_zero (v : Vector3) : v_length v = 0 -> v = v_zero.
Proof.
  destruct v as [x y z]. unfold v_length, v_zero. cbn [vx vy vz]. intros H.
  apply sqrt_eq_0 in H; [| nra].
  assert (x = 0) by nra. assert (y = 0) by nra. assert (z = 0) by nra.
  subst. reflexivity.
Qed.

Lemma v_sub_zero (p c : Vector3) : v_sub p c = v_zero -> p = c.
Proof.
  destruct p as [x y z], c as [a b d]. unfold v_sub, v_zero.
  cbn [vx vy vz]. intros [= H1 H2 H3]. f_equal; lra.
Qed.

Lemma v_length_self (c : Vector3) : v_length (v_sub c c) = 0.
Proof.
  destruct c as [x y z]. unfold v_length, v_sub. cbn [vx vy vz].
  replace ((x - x) * (x - x) + (y - y) * (y - y) + (z - z) * (z - z))
    with 0 by ring.
  apply sqrt_0.
Qed.

Lemma half_turn_turns : turns_about_target half_turn.
Proof.
  intros t cam. unfold half_turn. cbn [fst snd cam_position fov aspect near far].
  repeat apply conj; try reflexivity.
  destruct t as [a b c], (cam_position cam) as [x y z].
  unfold v_length, v_sub. cbn [vx vy vz]. f_equal. ring.
Qed.

(** The camera on which a turning [update()] was called while it sat on
    the target sits on the target afterwards. *)
Lemma turn_on_target (u : Vector3 -> Camera -> Camera * Vector3)
    (t : Vector3) (cam : Camera) :
  turns_about_target u -> cam_position cam = t ->
  cam_position (fst (u t cam)) = t.
Proof.
  intros Hu Hp. destruct (Hu t cam) as (_ & Hl & _).
  rewrite Hp, v_length_self in Hl.
  apply v_sub_zero, v_length_zero, Hl.
Qed.

(** The lines of [frameCamera] that write the camera move it along the
    line from the box centre through its old position, to the computed
    distance from the centre, for any camera that is not at the centre
    and whose field of view is not negative, and set the clip planes a
    factor of a million apart around that distance. Without orbit
    controls this is the camera that is left. With orbit controls it is
    the camera on which [update()] is called, with the box centre for a
    target, and the camera that [update()] returns is the one that is
    left: it is at the computed distance from the centre when [update()]
    only turns the camera about the target. *)
Theorem framing_keeps_the_view_direction (box : Box3) (camera : Camera)
    (controls : option OrbitControls) :
  0 <= fov camera ->
  v_length (v_sub (cam_position camera) (getCenter box)) <> 0 ->
  let d := frame_distance (maxSize_of (getSize box)) (fov camera)
                          (aspect camera) in
  let camera' := fst (frameCamera box camera None) in
  v_sub (cam_position camera') (getCenter box)
  = v_scale (v_sub (cam_position camera) (getCenter box))
            (d / v_length (v_sub (cam_position camera) (getCenter box)))
  /\ 0 <= d / v_length (v_sub (cam_position camera) (getCenter box))
  /\ v_length (v_sub (cam_position camera') (getCenter box)) = d
  /\ near camera' = d / 1000 /\ far camera' = 1000000 * near camera'
  /\ (forall c,
        controls = Some c ->
        fst (frameCamera box camera controls)
        = fst (oc_update c (getCenter box) camera')
        /\ oc_target <$> snd (frameCamera box camera controls)
           = Some (snd (oc_update c (getCenter box) camera'))
        /\ (turns_about_target (oc_update c) ->
            v_length (v_sub (cam_position
                               (fst (frameCamera box camera controls)))
                            (getCenter box)) = d
            /\ oc_target <$> snd (frameCamera box camera controls)
               = Some (getCenter box))).
Proof.
  intros Hf Hl. cbn zeta.
  set (c := getCenter box) in *. set (p := cam_position camera) in *.
  set (d := frame_distance (maxSize_of (getSize box)) (fov camera)
                           (aspect camera)).
  assert (Hd : 0 <= d)
    by (apply frame_distance_nonneg; [apply maxSize_nonneg | exact Hf]).
  assert (HL : 0 < v_length (v_sub p c)).
  { unfold v_length in *. pose proof (sqrt_pos
      (vx (v_sub p c) * vx (v_sub p c) + vy (v_sub p c) * vy (v_sub p c)
       + vz (v_sub p c) * vz (v_sub p c))). lra. }
  assert (E : v_sub (v_add (v_scale (v_normalize (v_sub p c)) d) c) c
              = v_scale (v_normalize (v_sub p c)) d).
  { generalize (v_normalize (v_sub p c)). intros [nx ny nz].
    destruct c as [cx cy cz]. unfold v_sub, v_add, v_scale.
    cbn [vx vy vz]. f_equal; lra. }
  assert (Hlen : v_length
                   (v_sub (cam_position (fst (frameCamera box camera None)))
                          c) = d).
  { unfold frameCamera. cbn [fst cam_position]. fold c p d. rewrite E.
    apply v_length_scale_normalize; assumption. }
  split; [| split; [| split; [| split; [| split]]]].
  - unfold frameCamera. cbn [fst cam_position]. fold c p d. rewrite E.
    unfold v_normalize. rewrite (num_or_nonzero _ _ Hl).
    unfold v_scale. cbn. f_equal; field; lra.
  - apply Rmult_le_pos; [exact Hd |]. apply Rlt_le, Rinv_0_lt_compat, HL.
  - exact Hlen.
  - reflexivity.
  - unfold frameCamera. cbn [fst near far]. fold d. lra.
  - intros oc ->.
    assert (Hfc : frameCamera box camera (Some oc)
                  = (fst (oc_update oc c (fst (frameCamera box camera None))),
                     Some {| oc_target :=
                               snd (oc_update oc c
                                      (fst (frameCamera box camera None)));
                             oc_update := oc_update oc |})).
    { unfold frameCamera. cbn [fst]. fold c p d.
      destruct (oc_update oc c _) as [cam' tg]. reflexivity. }
    rewrite Hfc. cbn [fst snd fmap option_fmap option_map oc_target].
    split; [reflexivity |]. split; [reflexivity |].
    intros Hu.
    destruct (Hu c (fst (frameCamera box camera None)))
      as (Ht & Hr & _).
    rewrite Hr, Ht. split; [exact Hlen | reflexivity].
Qed.

Lemma framing_keeps_the_view_direction_witness :
  v_length
    (v_sub (cam_position
              (fst (frameCamera box_2_1_1 (canvas_camera 1)
                      (Some turning_controls))))
           (getCenter box_2_1_1))
  = frame_distance (maxSize_of (getSize box_2_1_1)) 45 1.
Proof.
  refine (proj1 (proj2 (proj2
            (proj2 (proj2 (proj2 (proj2 (proj2
               (framing_keeps_the_view_direction box_2_1_1
                  (canvas_camera 1) (Some turning_controls) _ _)))))
               turning_controls eq_refl)) half_turn_turns)).
  - cbn. lra.
  - assert (Hc : getCenter box_2_1_1 = v_zero).
    { unfold getCenter, box_isEmpty, box_2_1_1.
      cbn [box_min box_max vx vy vz].
      rewrite !Rltb_false by lra. cbn. unfold v_scale, v_add, v_zero. cbn.
      f_equal; lra. }
    rewrite Hc. unfold v_length, v_sub, v_zero. cbn.
    assert (H75 : 0 < sqrt ((5 - 0) * (5 - 0) + (5 - 0) * (5 - 0)
                            + (5 - 0) * (5 - 0)))
      by (apply sqrt_lt_R0; lra).
    lra.
Defined.

(** Framing an object that has no geometry (an empty bounding box) puts
    the camera on the origin with both clip planes at zero, whatever the
    camera was, and the target of the orbit controls, when there are any
    and their [update()] only turns the camera about the target, on the
    origin as well. *)
Theorem framing_an_empty_object_collapses_the_camera (box : Box3)
    (camera : Camera) (controls : option OrbitControls) :
  box_isEmpty box = true ->
  (forall c, controls = Some c -> turns_about_target (oc_update c)) ->
  let camera' := fst (frameCamera box camera controls) in
  cam_position camera' = v_zero /\ near camera' = 0 /\ far camera' = 0
  /\ oc_target <$> snd (frameCamera box camera controls)
     = (fun _ => v_zero) <$> controls.
Proof.
  intros He Hc. cbn zeta. unfold frameCamera, getSize, getCenter.
  rewrite He.
  assert (Hd : frame_distance (maxSize_of v_zero) (fov camera)
                              (aspect camera) = 0).
  { assert (Hm : maxSize_of v_zero = 0).
    { unfold maxSize_of, v_zero. cbn [vx vy vz]. unfold Rmax.
      repeat destruct (Rle_dec _ _); lra. }
    rewrite Hm. unfold frame_distance, fitWidthDistance, fitHeightDistance.
    unfold Rdiv. rewrite !Rmult_0_l. unfold Rmax.
    destruct (Rle_dec _ _); lra. }
  rewrite Hd.
  assert (Hp : v_add (v_scale (v_normalize
                                 (v_sub (cam_position camera) v_zero)) 0)
                     v_zero = v_zero).
  { generalize (v_normalize (v_sub (cam_position camera) v_zero)).
    intros [nx ny nz]. unfold v_add, v_scale, v_zero. cbn [vx vy vz].
    f_equal; lra. }
  rewrite Hp.
  destruct controls as [oc|]; cbn [fst snd cam_position near far].
  - specialize (Hc oc eq_refl).
    set (placed := {| cam_position := v_zero; fov := fov camera;
                      aspect := aspect camera; near := 0 / 1000;
                      far := 0 * 1000 |}).
    pose proof (turn_on_target (oc_update oc) v_zero placed Hc eq_refl)
      as Hpos.
    destruct (Hc v_zero placed) as (Ht & _ & _ & _ & Hn & Hfar).
    destruct (oc_update oc v_zero placed) as [cam' tg].
    cbn [fst snd fmap option_fmap option_map oc_target] in *.
    rewrite Hpos, Hn, Hfar, Ht. unfold placed. cbn [near far].
    repeat apply conj; try reflexivity; lra.
  - repeat apply conj; try reflexivity; lra.
Qed.

Lemma framing_an_empty_object_collapses_the_camera_witness :
  cam_position
    (fst (frameCamera empty_box (canvas_camera 1) (Some turning_controls)))
  = v_zero.
Proof.
  refine (proj1 (framing_an_empty_object_collapses_the_camera empty_box
                   (canvas_camera 1) (Some turning_controls) _ _)).
  - apply empty_box_isEmpty.
  - intros c [= <-]. apply half_turn_turns.
Defined.

(** A camera that sits exactly on the box centre is not moved: its
    direction from the centre is the zero vector, which [normalize]
    leaves as it is, and an [update()] that only turns the camera about
    the target leaves a camera that sits on the target there. *)
Theorem framing_from_the_centre_stays_there (box : Box3) (camera : Camera)
    (controls : option OrbitControls) :
  cam_position camera = getCenter box ->
  (forall c, controls = Some c -> turns_about_target (oc_update c)) ->
  cam_position (fst (frameCamera box camera controls)) = getCenter box.
Proof.
  intros Hp Hc. unfold frameCamera. rewrite Hp.
  set (c := getCenter box).
  assert (Hz : v_sub c c = v_zero)
    by (unfold v_sub, v_zero; f_equal; lra).
  rewrite Hz.
  assert (Hn : v_normalize v_zero = v_zero).
  { unfold v_normalize, v_length, v_zero. cbn [vx vy vz].
    replace (0 * 0 + 0 * 0 + 0 * 0) with 0 by lra. rewrite sqrt_0.
    unfold num_or. destruct (Req_dec_T 0 0) as [_|Hn]; [| contradiction].
    unfold v_scale. cbn [vx vy vz]. f_equal; lra. }
  rewrite Hn.
  assert (Hpos : forall k, v_add (v_scale v_zero k) c = c).
  { intros k. destruct c as [x y z]. unfold v_add, v_scale, v_zero.
    cbn [vx vy vz]. f_equal; lra. }
  rewrite Hpos.
  destruct controls as [oc|]; [| reflexivity].
  specialize (Hc oc eq_refl).
  match goal with
  | |- context [oc_update oc c ?cam] =>
      pose proof (turn_on_target (oc_update oc) c cam Hc eq_refl) as Hq;
      destruct (oc_update oc c cam) as [cam' tg]
  end.
  exact Hq.
Qed.

Lemma framing_from_the_centre_stays_there_witness :
  cam_position
    (fst (frameCamera box_2_1_1
            {| cam_position := getCenter box_2_1_1; fov := 45; aspect := 1;
               near := 1 / 10; far := 1000 |} (Some turning_controls)))
  = getCenter box_2_1_1.
Proof.
  refine (framing_from_the_centre_stays_there box_2_1_1 _
            (Some turning_controls) _ _).
  - reflexivity.
  - intros c [= <-]. apply half_turn_turns.
Defined.

(** On a viewport at least as wide as it is high the framing distance does
    not depend on the aspect ratio: it is 1.2 times the vertical fit. On a
    higher one it is that value divided by the aspect ratio. *)
Theorem frame_distance_by_aspect (m f a : R) :
  0 <= m -> 0 < f -> 0 < a ->
  frame_distance m f a
  = 12 / 10 * fitHeightDistance m f * (if Rle_dec 1 a then 1 else / a).
Proof.
  intros Hm Hf Ha. unfold frame_distance, fitWidthDistance.
  rewrite (num_or_nonzero f) by lra. rewrite (num_or_nonzero a) by lra.
  pose proof (fitHeight_nonneg m f Hm Hf) as Hh.
  set (h := fitHeightDistance m f) in *.
  destruct (Rle_dec 1 a) as [H1|H1].
  - rewrite Rmax_left; [lra |].
    apply (Rmult_le_reg_r a); [exact Ha |]. unfold Rdiv.
    rewrite Rmult_assoc, Rinv_l by lra. nra.
  - rewrite Rmax_right; [unfold Rdiv; lra |].
    apply (Rmult_le_reg_r a); [exact Ha |]. unfold Rdiv.
    rewrite Rmult_assoc, Rinv_l by lra. nra.
Qed.

Lemma frame_distance_by_aspect_witness :
  frame_distance 2 45 2 = 12 / 10 * fitHeightDistance 2 45 * 1.
Proof.
  pose proof (frame_distance_by_aspect 2 45 2 ltac:(lra) ltac:(lra)
                ltac:(lra)) as H.
  destruct (Rle_dec 1 2) as [_|Hn]; [exact H | lra].
Defined.

End FramingMore.

(* ===================================================================== *)
(** * Properties of the caller: upload, toggles, names, progress *)
(* ===================================================================== *)

Lemma list_ascii_app (a b : string) :
  list_ascii_of_string (a +:+ b)
  = list_ascii_of_string a ++ list_ascii_of_string b.
Proof.
  induction a as [|c a IH]; [reflexivity |].
  change (c :: list_ascii_of_string (a +:+ b)
          = c :: (list_ascii_of_string a ++ list_ascii_of_string b)).
  f_equal. exact IH.
Qed.

Lemma string_of_app (x y : list ascii) :
  string_of_list_ascii (x ++ y)
  = string_of_list_ascii x +:+ string_of_list_ascii y.
Proof.
  induction x as [|c x IH]; [reflexivity |].
  change (String c (string_of_list_ascii (x ++ y))
          = String c (string_of_list_ascii x +:+ string_of_list_ascii y)).
  f_equal. exact IH.
Qed.

Lemma span_plain_app (l : list ascii) :
  fst (span_plain l) ++ snd (span_plain l) = l
  /\ Forall (fun c => is_slash_or_dot c = false) (fst (span_plain l))
  /\ match snd (span_plain l) with
     | [] => True
     | c :: _ => is_slash_or_dot c = true
     end.
Proof.
  induction l as [|c l (IH1 & IH2 & IH3)]; [cbn; auto |].
  cbn [span_plain]. destruct (is_slash_or_dot c) eqn:E.
  - cbn. auto.
  - destruct (span_plain l) as [a b]. cbn in *.
    split; [congruence |]. split; [constructor; assumption | assumption].
Qed.

Lemma span_plain_run (a rest : list ascii) (c : ascii) :
  Forall (fun x => is_slash_or_dot x = false) a ->
  is_slash_or_dot c = true ->
  span_plain (a ++ c :: rest) = (a, c :: rest).
Proof.
  intros Ha Hc. induction Ha as [|x a Hx _ IH]; cbn.
  - rewrite Hc. reflexivity.
  - rewrite Hx, IH. reflexivity.
Qed.

Lemma plain_not_dot (c : ascii) :
  is_slash_or_dot c = false -> c <> "."%char.
Proof.
  intros H ->. vm_compute in H. discriminate.
Qed.

Lemma until_dot_run (a rest : list ascii) :
  Forall (fun x => x <> "."%char) a ->
  until_dot (a ++ "."%char :: rest) = a.
Proof.
  induction 1 as [|x a Hx _ IH]; cbn.
  - rewrite bool_decide_eq_true_2 by reflexivity. reflexivity.
  - rewrite bool_decide_eq_false_2 by assumption. rewrite IH. reflexivity.
Qed.

Lemma string_of_list_nonempty (l : list ascii) :
  l <> [] -> string_of_list_ascii l <> ""%string.
Proof. destruct l; [contradiction | discriminate]. Qed.

(** What [fileName.replace] takes off a name is what [split('.').pop()]
    reads as its extension: either the name is left as it is, or it is the
    stripped name, a dot, and the last dot-separated segment, which is then
    not empty and holds no slash. *)
Theorem stripped_name_and_extension_make_the_name (name : string) :
  strip_extension name = name
  \/ (name = strip_extension name +:+ "." +:+ last_segment name
      /\ last_segment name <> ""%string
      /\ Forall (fun c => is_slash_or_dot c = false)
                (list_ascii_of_string (last_segment name))).
Proof.
  unfold strip_extension, last_segment.
  set (r := reverse (list_ascii_of_string name)).
  pose proof (span_plain_app r) as (H1 & H2 & H3).
  destruct (span_plain r) as [a b]. cbn [fst snd] in *.
  destruct a as [|x a]; [left; reflexivity |].
  destruct b as [|c before]; [left; reflexivity |].
  case_bool_decide as Hc; [| left; reflexivity]. subst c. right.
  assert (Hd : Forall (fun y => y <> "."%char) (x :: a)).
  { eapply Forall_impl; [exact H2 |]. intros y. apply plain_not_dot. }
  rewrite <- H1, (until_dot_run (x :: a) before Hd).
  repeat apply conj.
  - rewrite <- (string_of_list_ascii_of_string name) at 1.
    rewrite <- (reverse_involutive (list_ascii_of_string name)).
    fold r. rewrite <- H1, reverse_app, reverse_cons.
    rewrite <- app_assoc, !string_of_app. reflexivity.
  - apply string_of_list_nonempty. intros E.
    apply (f_equal length) in E. rewrite length_reverse in E.
    discriminate.
  - rewrite list_ascii_of_string_of_list_ascii.
    apply Forall_reverse. exact H2.
Qed.

Lemma strip_extension_of (base ext : string) :
  ext <> ""%string ->
  Forall (fun c => is_slash_or_dot c = false) (list_ascii_of_string ext) ->
  strip_extension (base +:+ "." +:+ ext) = base
  /\ last_segment (base +:+ "." +:+ ext) = ext.
Proof.
  intros Hne Hp. unfold strip_extension, last_segment.
  rewrite !list_ascii_app. cbn [list_ascii_of_string List.app].
  rewrite reverse_app, reverse_cons, <- app_assoc. cbn [List.app].
  assert (Hr : Forall (fun c => is_slash_or_dot c = false)
                 (reverse (list_ascii_of_string ext)))
    by (apply Forall_reverse; exact Hp).
  rewrite (span_plain_run _ _ "."%char Hr eq_refl).
  rewrite until_dot_run
    by (eapply Forall_impl; [exact Hr |]; intros y; apply plain_not_dot).
  split.
  - destruct (reverse (list_ascii_of_string ext)) as [|x a] eqn:E.
    + exfalso. apply Hne.
      rewrite <- (string_of_list_ascii_of_string ext).
      apply (f_equal reverse) in E. rewrite reverse_involutive in E.
      rewrite E. reflexivity.
    + rewrite bool_decide_eq_true_2 by reflexivity.
      rewrite reverse_involutive. apply string_of_list_ascii_of_string.
  - rewrite reverse_involutive. apply string_of_list_ascii_of_string.
Qed.

(** From upload to download, for a file named [base.ext] whose extension
    is not empty and holds neither a dot nor a slash: the viewer is given
    the extension in lower case, the side panel its upper-case form, the
    viewer's figures are merged under the uploaded name and size, the
    animation index is back at 0, and the export is named [base], the
    compression suffix and [.glb]. *)
Theorem upload_to_download_name (f : File) (a : app) (base ext : string)
    (details : ModelMetadata) :
  ext <> ""%string ->
  Forall (fun c => is_slash_or_dot c = false) (list_ascii_of_string ext) ->
  file_name f = base +:+ "." +:+ ext ->
  let a1 := handleMetadataLoaded details (handleFileUpload (Some f) a) in
  appState a1 = VIEWING
  /\ modelUrl a1 = Some (file_url f)
  /\ extension a1 = Some (toLowerCase ext)
  /\ activeAnimationIndex (sceneSettings a1) = 0%Z
  /\ exists md,
       metadata a1 = Some md
       /\ md = {| fm_name := file_name f; fm_size := file_size f;
                  fm_format := toUpperCase (toLowerCase ext);
                  fm_details := details |}
       /\ download_name (export_config (exportSettings a1) md)
          = base +:+ export_suffix (export_config (exportSettings a) md)
                 +:+ ".glb".
Proof.
  intros Hne Hp Hn. cbn zeta.
  destruct (strip_extension_of base ext Hne Hp) as [Hs Hl].
  unfold handleMetadataLoaded, handleFileUpload, file_extension.
  cbn [appState modelUrl extension sceneSettings metadata exportSettings
       reset_index activeAnimationIndex fm_name fm_size fm_format].
  rewrite Hn, Hl. repeat apply conj; try reflexivity.
  eexists. split; [reflexivity |]. split; [reflexivity |].
  unfold download_name, export_config. cbn [fileName fm_name].
  rewrite Hs. reflexivity.
Qed.

Lemma upload_to_download_name_witness :
  extension
    (handleMetadataLoaded no_details
       (handleFileUpload
          (Some {| file_name := "Robot.v2.GLB"; file_size := 10;
                   file_url := "blob:a" |}) initial_app))
  = Some "glb"%string.
Proof.
  refine (proj1 (proj2 (proj2
    (upload_to_download_name
       {| file_name := "Robot.v2.GLB"; file_size := 10;
          file_url := "blob:a" |} initial_app "Robot.v2" "GLB" no_details
       _ _ _)))).
  - discriminate.
  - repeat constructor.
  - reflexivity.
Defined.

Lemma last_segment_trailing_dot (base : string) :
  last_segment (base +:+ ".") = ""%string.
Proof.
  unfold last_segment. rewrite list_ascii_app. cbn [list_ascii_of_string].
  rewrite reverse_app. cbn. rewrite bool_decide_eq_true_2 by reflexivity.
  reflexivity.
Qed.

(** A file whose name ends in a dot is uploaded with the empty extension:
    the application shows the loading state, but the load effect, run with
    these props, clears the model and starts no load, so no metadata
    callback will end the loading state. *)
Theorem upload_of_a_name_ending_in_a_dot_starts_no_load (f : File)
    (a : app) (base : string) (env : collaborators) (s : session) :
  file_name f = base +:+ "." ->
  let a1 := handleFileUpload (Some f) a in
  let s' := session_step env s
              (SetProps (sceneSettings a1) (modelUrl a1) (extension a1)) in
  appState a1 = LOADING
  /\ extension a1 = Some ""%string
  /\ pending s' = pending s /\ decoding s' = decoding s
  /\ initiated s' = initiated s
  /\ cleanup_armed s' = false
  /\ model (view s') = None
  /\ new_events (view s) (view s') = [SetModel None].
Proof.
  intros Hn. cbn zeta.
  unfold handleFileUpload, file_extension.
  cbn [appState extension modelUrl sceneSettings].
  rewrite Hn, last_segment_trailing_dot.
  change (toLowerCase "") with ""%string.
  unfold session_step.
  assert (Hp : prop_truthy (Some ""%string) = None) by reflexivity.
  rewrite Hp.
  destruct (prop_truthy (Some (file_url f)));
    cbn [pending decoding initiated cleanup_armed view];
    (repeat apply conj; try reflexivity;
     apply new_events_app; cbn;
     destruct (cleanup_armed s); [| reflexivity];
     unfold effect_cleanup; destruct (mixer (view s)); reflexivity).
Qed.

Lemma upload_of_a_name_ending_in_a_dot_starts_no_load_witness :
  appState
    (handleFileUpload
       (Some {| file_name := "scan."; file_size := 10;
                file_url := "blob:a" |}) initial_app) = LOADING.
Proof.
  refine (proj1
    (upload_of_a_name_ending_in_a_dot_starts_no_load
       {| file_name := "scan."; file_size := 10; file_url := "blob:a" |}
       initial_app "scan" env0 initial_session _)).
  reflexivity.
Defined.

Lemma click_exclusive (ts : list toggle) :
  forall a,
    es_draco (exportSettings a) && es_ktx2 (exportSettings a) = false ->
    es_draco (exportSettings (foldl click a ts))
    && es_ktx2 (exportSettings (foldl click a ts)) = false.
Proof.
  induction ts as [|t ts IH]; intros a Ha; [exact Ha |].
  cbn [foldl]. apply IH. destruct t; cbn.
  - apply andb_false_r.
  - reflexivity.
Qed.

Lemma click_frame (ts : list toggle) :
  forall a,
    appState (foldl click a ts) = appState a
    /\ modelUrl (foldl click a ts) = modelUrl a
    /\ extension (foldl click a ts) = extension a
    /\ metadata (foldl click a ts) = metadata a
    /\ sceneSettings (foldl click a ts) = sceneSettings a.
Proof.
  induction ts as [|t ts IH]; intros a; [done |].
  cbn [foldl]. destruct (IH (click a t)) as (-> & -> & -> & -> & ->).
  destruct t; done.
Qed.

(** However the two compression toggles are clicked from the initial
    state, at most one of them is on; so the download suffix is one of
    [_draco], [_ktx2] and [_optimized], never [_draco_ktx2], and the
    toggles change nothing else of the application state. *)
Theorem compression_toggles_exclude_each_other (ts : list toggle)
    (md : FileMetadata) :
  let a := foldl click initial_app ts in
  let s := exportSettings a in
  es_draco s && es_ktx2 s = false
  /\ export_suffix (export_config s md)
     = (if es_draco s then "_draco"
        else if es_ktx2 s then "_ktx2" else "_optimized")%string
  /\ dracoOptions (make_options (export_config s md) [])
     = (if es_draco s then Some 7 else None)
  /\ appState a = IDLE /\ metadata a = None
  /\ sceneSettings a = sceneSettings initial_app.
Proof.
  cbn zeta.
  pose proof (click_exclusive ts initial_app eq_refl) as H.
  destruct (click_frame ts initial_app) as (Hs & _ & _ & Hm & Hc).
  split; [exact H |].
  split.
  { unfold export_suffix, export_config. cbn [draco ktx2].
    destruct (es_draco _), (es_ktx2 _); try discriminate; reflexivity. }
  split; [reflexivity |].
  split; [exact Hs |]. split; [exact Hm | exact Hc].
Qed.

(** ** The progress bar *)

Section ProgressProperties.
Import PrimFloat.

Lemma progress_tick_full (s : ExportSettings) :
  progress_tick s 100%float = 100%float.
Proof. reflexivity. Qed.

Lemma progress_after_88 (s : ExportSettings) :
  progress_after s 88 = 100%float.
Proof. destruct s as [[] []]; vm_compute; reflexivity. Qed.

Lemma progress_after_full (s : ExportSettings) (n k : nat) :
  progress_after s n = 100%float ->
  progress_after s (k + n) = 100%float.
Proof.
  intros H. induction k as [|k IH]; [exact H |].
  change (progress_after s (S k + n))
    with (progress_tick s (progress_after s (k + n))).
  rewrite IH. apply progress_tick_full.
Qed.

Lemma progress_checks_below_88 (s : ExportSettings) :
  forallb (fun n =>
             (0 <=? progress_after s n)%float
             && (progress_after s n <=? 100)%float
             && (progress_after s n <=? progress_after s (S n))%float)
          (seq 0 88) = true.
Proof. destruct s as [[] []]; vm_compute; reflexivity. Qed.

(** The progress shown during an export, as the doubles that the updater
    computes: after any number of runs of the interval it lies between 0
    and 100, and it does not go down from one run to the next. *)
Theorem progress_bar_is_bounded_and_monotone (s : ExportSettings)
    (n : nat) :
  (0 <=? progress_after s n)%float = true
  /\ (progress_after s n <=? 100)%float = true
  /\ (progress_after s n <=? progress_after s (S n))%float = true.
Proof.
  destruct (le_lt_dec 88 n) as [Hge|Hlt].
  - assert (Hn : progress_after s n = 100%float).
    { replace n with ((n - 88) + 88) by lia.
      apply progress_after_full, progress_after_88. }
    assert (HS : progress_after s (S n) = 100%float).
    { replace (S n) with ((S n - 88) + 88) by lia.
      apply progress_after_full, progress_after_88. }
    rewrite Hn, HS. repeat split; reflexivity.
  - pose proof (progress_checks_below_88 s) as H.
    rewrite forallb_forall in H.
    specialize (H n (proj2 (in_seq 88 0 n) ltac:(lia))).
    apply andb_true_iff in H as [H H3].
    apply andb_true_iff in H as [H1 H2]. auto.
Qed.

(** By the time the export is fired, [duration + 500] milliseconds after
    the bar was started, the interval has run often enough for the bar to
    show exactly 100, whichever compression is chosen. *)
Theorem progress_is_full_when_the_export_fires (s : ExportSettings)
    (n : nat) :
  (ticks_before_export s <= Z.of_nat n)%Z ->
  progress_after s n = 100%float.
Proof.
  intros Hn.
  assert (H50 : progress_after s (Z.to_nat (ticks_before_export s))
                = 100%float)
    by (destruct s as [[] []]; vm_compute; reflexivity).
  assert (H0 : (0 <= ticks_before_export s)%Z)
    by (destruct s as [[] []]; vm_compute; discriminate).
  replace n with ((n - Z.to_nat (ticks_before_export s))
                  + Z.to_nat (ticks_before_export s)) by lia.
  apply progress_after_full, H50.
Qed.

Lemma progress_is_full_when_the_export_fires_witness :
  progress_after {| es_draco := false; es_ktx2 := false |} 50 = 100%float.
Proof.
  apply (progress_is_full_when_the_export_fires
           {| es_draco := false; es_ktx2 := false |} 50).
  vm_compute. discriminate.
Defined.

End ProgressProperties.

(* ===================================================================== *)
(** * The caller and the viewer together *)
(* ===================================================================== *)

Lemma prop_truthy_nonempty (x : string) :
  x <> ""%string -> prop_truthy (Some x) = Some x.
Proof.
  intros H. unfold prop_truthy.
  rewrite (proj2 (str_eqb_false x "") H). reflexivity.
Qed.

(** Pressing reset while a load is in flight does not cancel it. For a
    file whose fetch and parse succeed: after the mount, the upload, the
    reset and the end of the load (with the loader's callback, for glb and
    gltf), the viewer shows the loaded object although its [modelUrl] prop
    is [null], the metadata callback has run once, and with it the
    application is in the viewing state without a file and without
    metadata. *)
Theorem reset_does_not_cancel_a_load (env : collaborators) (f : File)
    (a : app) (b : buffer) (result : parse_result) :
  let a1 := handleFileUpload (Some f) a in
  let a2 := reset a1 in
  let ext := file_extension (file_name f) in
  file_url f <> ""%string -> ext <> ""%string ->
  fetch env (file_url f) = inr b ->
  parse_for env ext b = Some (inr result) ->
  modelUrl a = None ->
  let s :=
    run env initial_session
      [SetProps (sceneSettings a) (modelUrl a) (extension a);
       SetProps (sceneSettings a1) (modelUrl a1) (extension a1);
       SetProps (sceneSettings a2) (modelUrl a2) (extension a2);
       Settle 0; Deliver 0] in
  exists object md,
    model (view s) = Some object
    /\ filter (fun e => is_metadata e = true) (log (view s)) = [Metadata md]
    /\ pending s = ∅ /\ decoding s = ∅
    /\ appState (handleMetadataLoaded md a2) = VIEWING
    /\ modelUrl (handleMetadataLoaded md a2) = None
    /\ metadata (handleMetadataLoaded md a2) = None.
Proof.
  cbn zeta. intros Hu He Hf Hp Ha.
  destruct (parse_for_normalize env _ b result (pointSize (sceneSettings a))
              0 Hp) as [[[parsed anims] n1] Hn].
  destruct (traverse (file_extension (file_name f)) parsed (stats0 n1))
    as [object st] eqn:Et.
  exists object, (metadata_of st anims).
  unfold run. cbn [foldl]. rewrite Ha.
  cbn [handleFileUpload reset modelUrl extension sceneSettings].
  set (st0 := sceneSettings a) in *. set (url := file_url f) in *.
  set (ext := file_extension (file_name f)) in *.
  assert (S1 : session_step env initial_session
                 (SetProps st0 None (extension a))
               = {| view := setModel None initial_viewer; pending := ∅;
                    decoding := ∅; initiated := 0;
                    cleanup_armed := false |})
    by reflexivity.
  rewrite S1. clear S1.
  assert (S2 : forall s,
             session_step env s (SetProps st0 (Some url) (Some ext))
             = {| view := load_start url
                            (if cleanup_armed s then effect_cleanup (view s)
                             else view s);
                  pending := <[initiated s := mkRequest url ext st0]>
                               (pending s);
                  decoding := decoding s;
                  initiated := S (initiated s); cleanup_armed := true |}).
  { intros s. unfold session_step.
    rewrite (prop_truthy_nonempty _ Hu), (prop_truthy_nonempty _ He).
    unfold ext, file_extension. rewrite toLowerCase_idem. reflexivity. }
  rewrite S2. clear S2.
  cbn [cleanup_armed view pending decoding initiated].
  assert (S3 : forall s,
             session_step env s (SetProps st0 None None)
             = {| view := setModel None
                            (if cleanup_armed s then effect_cleanup (view s)
                             else view s);
                  pending := pending s; decoding := decoding s;
                  initiated := initiated s; cleanup_armed := false |})
    by reflexivity.
  rewrite S3. clear S3.
  cbn [cleanup_armed view pending decoding initiated].
  set (v3 := setModel None
               (effect_cleanup (load_start url (setModel None initial_viewer)))).
  assert (Hpure : forall v,
             uuid_counter v = 0 ->
             model (processResult_or_error env ext st0 result v)
             = Some object
             /\ log (processResult_or_error env ext st0 result v)
                = log v ++ [SetModel (Some object);
                            Metadata (metadata_of st anims); FrameLater]).
  { intros v Hv.
    destruct (processResult_installs env ext st0 result v object anims
                (metadata_of st anims) (next_uuid st)) as (H1 & _ & H3).
    - unfold processResult_pure. rewrite Hv, Hn, Et. reflexivity.
    - split; assumption. }
  assert (Hdec : load_decode env st0 url ext v3
                 = if is_interchange ext
                   then (emit (Parse ext)
                           (emit (Status ("Decoding " +:+ toUpperCase ext
                                          +:+ " payloads...")) v3),
                         Some (inr result))
                   else (processResult_or_error env ext st0 result
                           (emit (Parse ext)
                              (emit (Status ("Decoding " +:+ toUpperCase ext
                                             +:+ " payloads...")) v3)),
                         None)).
  { unfold load_decode, with_result. rewrite Hf, Hp.
    destruct (is_interchange ext); reflexivity. }
  cbn [session_step pending]. rewrite lookup_insert_eq.
  cbn [rq_url rq_ext rq_settings view pending decoding initiated
       cleanup_armed].
  fold v3. rewrite Hdec.
  set (v4 := emit (Parse ext)
               (emit (Status ("Decoding " +:+ toUpperCase ext
                              +:+ " payloads...")) v3)) in *.
  destruct (Hpure v4 eq_refl) as [Hm Hl].
  assert (Hfilter : filter (fun e => is_metadata e = true)
                      (log v4 ++ [SetModel (Some object);
                                  Metadata (metadata_of st anims);
                                  FrameLater])
                    = [Metadata (metadata_of st anims)]).
  { cbn. repeat case_decide; try congruence; reflexivity. }
  destruct (is_interchange ext); cbn [fst snd].
  - cbn [session_step decoding]. rewrite lookup_insert_eq.
    cbn [view pending decoding rq_settings rq_ext].
    unfold load_callback, with_result. rewrite Hm, Hl, Hfilter.
    repeat apply conj; try reflexivity;
      rewrite delete_insert_eq; apply delete_empty.
  - cbn [session_step decoding]. rewrite lookup_empty.
    cbn [view pending decoding]. rewrite Hm, Hl, Hfilter.
    repeat apply conj; try reflexivity;
      rewrite delete_insert_eq; apply delete_empty.
Qed.

Lemma reset_does_not_cancel_a_load_witness :
  exists object md,
    model
      (view
         (run env0 initial_session
            [SetProps (sceneSettings initial_app) None None;
             SetProps (sceneSettings initial_app) (Some "blob:a"%string)
                      (Some "glb"%string);
             SetProps (sceneSettings initial_app) None None;
             Settle 0; Deliver 0]))
    = Some object
    /\ appState
         (handleMetadataLoaded md
            (reset
               (handleFileUpload
                  (Some {| file_name := "robot.glb"; file_size := 10;
                           file_url := "blob:a" |}) initial_app)))
       = VIEWING.
Proof.
  destruct (reset_does_not_cancel_a_load env0
              {| file_name := "robot.glb"; file_size := 10;
                 file_url := "blob:a" |} initial_app []
              (GLTFResult (mesh_node 3 NoMaterial) []))
    as (object & md & H1 & _ & _ & _ & H4 & _);
    [discriminate | discriminate | reflexivity | reflexivity | reflexivity |].
  exists object, md. split; [exact H1 | exact H4].
Defined.

(* ===================================================================== *)
(** * Exporting more than once *)
(* ===================================================================== *)

Lemma represents_preserved (sh : shape) :
  forall s s',
    (forall id n, nodes s !! id = Some n -> nodes s' !! id = Some n) ->
    represents s sh -> represents s' sh.
Proof.
  induction sh as [r kids IH] using shape_ind'. intros s s' Hk.
  rewrite !represents_unfold. intros [(n & Hn & Hc) Hkids]. split.
  - exists n. split; [apply Hk, Hn | exact Hc].
  - rewrite Forall_forall in *. intros k Hin.
    apply (IH k Hin s s' Hk), Hkids, Hin.
Qed.

Lemma alter_wf (f : Node -> Node) (k : nat) (s : store) :
  wf_store s -> wf_store (set_nodes (alter f k) s).
Proof.
  intros H id Hid. cbn [set_nodes nodes next_id] in *. apply H.
  rewrite lookup_alter in Hid. case_decide; [subst |]; [| exact Hid].
  destruct (nodes s !! id); [eauto | destruct Hid; discriminate].
Qed.

(** What building the export scene guarantees, in a form that can be
    applied again to the store it leaves. *)
Lemma prepare_export_spec (m : shape) (s : store) :
  wf_store s -> represents s m ->
  exists scene copy s',
    prepare_export m s = Some (Sh scene [copy], s')
    /\ wf_store s' /\ represents s' m
    /\ next_id s <= scene < next_id s'
    /\ (forall id n, nodes s !! id = Some n -> nodes s' !! id = Some n)
    /\ geometries s' = geometries s /\ materials s' = materials s
    /\ world_corners s' (fun p => p) copy
       = map (fun q => v_sub q (getCenter (setFromObject s m)))
             (world_corners s (fun p => p) m).
Proof.
  intros Hwf Hrep.
  pose proof (represents_ids s m Hrep) as Hids.
  assert (Hlt : forall id, id ∈ shape_ids m -> id < next_id s)
    by (intros id Hid; apply Hwf, Hids, Hid).
  unfold prepare_export. cbn [alloc].
  set (s1 := {| nodes := <[next_id s := empty_node]> (nodes s);
                geometries := geometries s; materials := materials s;
                next_id := S (next_id s) |}).
  assert (Hwf1 : wf_store s1).
  { intros id Hid. cbn in *. destruct (decide (id = next_id s)) as [->|Hne].
    - lia.
    - rewrite lookup_insert_ne in Hid by congruence. apply Hwf in Hid. lia. }
  assert (F1 : forall id, id < next_id s -> nodes s1 !! id = nodes s !! id).
  { intros id Hid. cbn. apply lookup_insert_ne. lia. }
  assert (Hids1 : forall id, id ∈ shape_ids m -> is_Some (nodes s1 !! id)).
  { intros id Hid. rewrite F1 by (apply Hlt, Hid). apply Hids, Hid. }
  destruct (clone_total m s1 Hwf1 Hids1) as [[copy s2] Ec]. rewrite Ec.
  destruct (clone_spec m s1 copy s2 Hwf1
              (fun id Hid => Nat.lt_trans _ _ _ (Hlt id Hid)
                               (Nat.lt_succ_diag_r _)) Ec)
    as (A1 & A2 & A3 & A4 & A5 & A6 & A7 & A8 & (n' & A9 & A10) & _ & A12).
  cbn [next_id s1] in A1, A2, A4, A7, A8, A9.
  destruct copy as [root ks]. cbn [shape_root shape_kids] in *. subst root.
  set (center := getCenter (setFromObject s2 (Sh (S (next_id s)) ks))).
  set (s3 := set_nodes
               (alter (fun n => set_position (v_sub (n_position n) center) n)
                      (S (next_id s))) s2).
  set (s4 := add (next_id s) (S (next_id s)) s3).
  destruct (add_next_id (next_id s) (S (next_id s)) s3) as (N4 & G4 & M4).
  fold s4 in N4, G4, M4.
  assert (Hsame : world_corners s2 (fun p => p) (Sh (S (next_id s)) ks)
                  = world_corners s (fun p => p) m).
  { rewrite A12. apply world_corners_ext; [reflexivity |].
    intros id Hid. apply data_at_of_nodes, F1, Hlt, Hid. }
  assert (Hcenter : center = getCenter (setFromObject s m)).
  { unfold center, setFromObject. rewrite Hsame. reflexivity. }
  assert (Hkeep : forall id n, nodes s !! id = Some n
                               -> nodes s4 !! id = Some n).
  { intros id n Hn.
    assert (Hid : id < next_id s) by (apply Hwf; eauto).
    rewrite <- Hn, <- (F1 id Hid), <- (A4 id ltac:(lia)).
    unfold s4.
    assert (H3 : nodes s3 !! S (next_id s)
                 = Some (set_position (v_sub (n_position n') center) n')).
    { unfold s3. cbn [set_nodes nodes]. rewrite lookup_alter_eq, A9.
      reflexivity. }
    rewrite (add_frame _ _ _ _ _ H3 A10) by lia.
    unfold s3. cbn [set_nodes nodes].
    rewrite lookup_alter_ne by lia. reflexivity. }
  exists (next_id s), (Sh (S (next_id s)) ks), s4.
  split; [reflexivity |].
  split; [apply add_wf, alter_wf, A3 |].
  split; [exact (represents_preserved m s s4 Hkeep Hrep) |].
  split; [rewrite N4; unfold s3; cbn [set_nodes next_id]; lia |].
  split; [exact Hkeep |].
  split; [rewrite G4; exact A5 |]. split; [rewrite M4; exact A6 |].
  rewrite <- Hcenter, <- Hsame.
  rewrite <- (world_corners_root_shift s2 (S (next_id s)) ks center).
  - apply world_corners_ext; [exact G4 |].
    intros id _. apply add_data.
  - intros id Hid. apply A7 in Hid. lia.
Qed.

Lemma world_corners_preserved (m : shape) (s s' : store) :
  represents s m -> geometries s' = geometries s ->
  (forall id n, nodes s !! id = Some n -> nodes s' !! id = Some n) ->
  world_corners s' (fun p => p) m = world_corners s (fun p => p) m.
Proof.
  intros Hrep Hg Hk. apply world_corners_ext; [exact Hg |].
  intros id Hid. apply data_at_of_nodes.
  destruct (represents_ids s m Hrep id Hid) as [n Hn].
  rewrite Hn. apply Hk, Hn.
Qed.

(** An export can be repeated: the store it leaves is again one in which
    the model is a tree of existing nodes, so a second export succeeds as
    well; it builds its scene from new nodes, leaves the nodes of the model
    as they were before the first export, and hands the exporter a copy
    with the same corners as the first, so the recentring does not add
    up. *)
Theorem export_is_repeatable
    (exporter : store -> shape -> export_options -> js_error + buffer)
    (config : ExportConfig) (cl : list AnimationClip)
    (m : shape) (s : store) :
  wf_store s -> represents s m ->
  exists scene1 copy1 s1 scene2 copy2 s2,
    prepare_export m s = Some (Sh scene1 [copy1], s1)
    /\ prepare_export m s1 = Some (Sh scene2 [copy2], s2)
    /\ fst <$> exportModel exporter config cl (Some m) s = Some s1
    /\ fst <$> exportModel exporter config cl (Some m) s1 = Some s2
    /\ scene1 < scene2
    /\ wf_store s2 /\ represents s2 m
    /\ (forall id n, nodes s !! id = Some n -> nodes s2 !! id = Some n)
    /\ world_corners s2 (fun p => p) copy2
       = world_corners s1 (fun p => p) copy1.
Proof.
  intros Hwf Hrep.
  destruct (prepare_export_spec m s Hwf Hrep)
    as (scene1 & copy1 & s1 & E1 & W1 & R1 & N1 & K1 & G1 & _ & C1).
  destruct (prepare_export_spec m s1 W1 R1)
    as (scene2 & copy2 & s2 & E2 & W2 & R2 & N2 & K2 & G2 & _ & C2).
  exists scene1, copy1, s1, scene2, copy2, s2.
  unfold exportModel. rewrite E1, E2.
  split; [reflexivity |]. split; [reflexivity |].
  split; [destruct (exporter s1 _ _); reflexivity |].
  split; [destruct (exporter s2 _ _); reflexivity |].
  split; [lia |].
  split; [exact W2 |]. split; [exact R2 |].
  split; [intros id n Hn; apply K2, K1, Hn |].
  rewrite C2, C1.
  unfold setFromObject.
  rewrite (world_corners_preserved m s s1 Hrep G1 K1). reflexivity.
Qed.

Lemma export_is_repeatable_witness :
  exists scene1 copy1 s1 scene2 copy2 s2,
    prepare_export live_model live_store = Some (Sh scene1 [copy1], s1)
    /\ prepare_export live_model s1 = Some (Sh scene2 [copy2], s2)
    /\ world_corners s2 (fun p => p) copy2
       = world_corners s1 (fun p => p) copy1.
Proof.
  destruct (export_is_repeatable no_exporter
              {| draco := false; ktx2 := false; fileName := "robot.gltf" |}
              [] live_model live_store live_store_wf
              live_model_represented)
    as (scene1 & copy1 & s1 & scene2 & copy2 & s2 & H1 & H2 & _ & _ & _ & _
        & _ & _ & H9).
  exists scene1, copy1, s1, scene2, copy2, s2.
  split; [exact H1 |]. split; [exact H2 | exact H9].
Defined.
